(** * dephell: the layered dependency graph and the VCS link parser

    A shallow embedding of [dephell/controllers/graph.py] (classes [Layer]
    and [Graph]) and of [dephell/links/vcs.py] (class [VCSLink]), with the
    properties of the specification stated and proved over it.

    Conventions of the embedding:
    - a Python [dict] is an insertion-ordered association list with unique
      keys ([PyDict]); iteration order is list order;
    - a Python object reference is a [ref]; the objects themselves live in a
      [heap], so that two references may denote the same object and the
      [dependencies] of an object may lead back to it;
    - a raised exception is the [Raise] branch of [result]; recursion is
      bounded by an explicit depth, and running out of depth is Python's
      [RecursionError];
    - a layer index (a depth) is a natural number. *)

From Stdlib Require Import String Ascii List Arith Bool Lia.
From stdpp Require Import base list strings gmap.
Import ListNotations.

Local Open Scope string_scope.
Local Open Scope list_scope.
Local Open Scope nat_scope.

#[local] Arguments String.append !s1 s2 : simpl nomatch.

(** ** Exceptions *)

Inductive exn : Type :=
| KeyError (msg : string)
| IndexError
| TypeError (msg : string)
| AttributeError (attr : string)
| RecursionError.

Inductive result (A : Type) : Type :=
| Ok (a : A)
| Raise (e : exn).

Arguments Ok {A} a.
Arguments Raise {A} e.

Definition bind {A B : Type} (m : result A) (f : A -> result B) : result B :=
  match m with
  | Ok a => f a
  | Raise e => Raise e
  end.

Notation "'let*' x ':=' m 'in' k" :=
  (bind m (fun x => k))
  (at level 10, x name, m at level 100, k at level 200).

(** The two [KeyError]s of graph.py; the specification calls them
    DuplicateNameError and OrphanDependencyError. *)
Definition DuplicateNameError : exn := KeyError "Dependency already added in layer".
Definition OrphanDependencyError : exn := KeyError "Can't find any parent for dependency".

(** ** Python dictionaries, in insertion order *)

Module PyDict.
Section Dict.
Context {V : Type}.

Definition dict : Type := list (string * V).

Definition keys (d : dict) : list string := map fst d.
Definition values (d : dict) : list V := map snd d.

(** [d.get(k)] *)
Fixpoint get (k : string) (d : dict) : option V :=
  match d with
  | [] => None
  | (k', v) :: d' => if String.eqb k k' then Some v else get k d'
  end.

(** [k in d] *)
Definition mem (k : string) (d : dict) : bool :=
  match get k d with
  | Some _ => true
  | None => false
  end.

(** [d[k] = v]: a known key keeps its position, a new key goes last. *)
Fixpoint set (k : string) (v : V) (d : dict) : dict :=
  match d with
  | [] => [(k, v)]
  | (k', v') :: d' =>
      if String.eqb k k' then (k', v) :: d' else (k', v') :: set k v d'
  end.

(** [d.update(other)] *)
Definition update (d other : dict) : dict :=
  fold_left (fun acc kv => set (fst kv) (snd kv) acc) other d.
End Dict.
Arguments dict V : clear implicits.
End PyDict.

(** [x in xs] for a list of names *)
Definition name_in (x : string) (xs : list string) : bool :=
  existsb (String.eqb x) xs.

(** ** Dependencies *)

Definition ref : Type := nat.

(** Modelled from the spec: the [Dependency] and [RootDependency] classes
    ([dephell/models]) are not part of the sources at hand.  The record has
    the attributes graph.py reads: [name], [applied], [used], [locked],
    [dependencies] (references to child objects) and the parent names
    [constraint.sources]; [is_root] stands for
    [isinstance(dep, RootDependency)]. *)
Record Dependency : Type := {
  name : string;
  is_root : bool;
  sources : list string;
  applied : bool;
  used : bool;
  locked : bool;
  dependencies : list ref
}.

Definition heap : Type := ref -> Dependency.

(** ** class Layer *)

Module Layer.

Record t : Type := {
  level : nat;
  _mapping : PyDict.dict ref
}.

Definition get (self : t) (nm : string) : option ref :=
  PyDict.get nm (_mapping self).

Definition add (h : heap) (self : t) (dep : ref) : result t :=
  if PyDict.mem (name (h dep)) (_mapping self)
  then Raise DuplicateNameError
  else Ok {| level := level self;
             _mapping := PyDict.set (name (h dep)) dep (_mapping self) |}.

(** [Layer(level, *deps)] *)
Definition init (h : heap) (lvl : nat) (deps : list ref) : result t :=
  fold_left (fun acc dep => let* self := acc in add h self dep)
            deps
            (Ok {| level := lvl; _mapping := [] |}).

Definition clear (h : heap) (self : t) : t :=
  {| level := level self;
     _mapping := List.filter (fun kv => used (h (snd kv))) (_mapping self) |}.

(** [dep in layer], for a name and for a dependency object *)
Definition contains_name (self : t) (nm : string) : bool :=
  PyDict.mem nm (_mapping self).

Definition contains (h : heap) (self : t) (dep : ref) : bool :=
  PyDict.mem (name (h dep)) (_mapping self).

(** [iter(layer)] *)
Definition iter (self : t) : list ref := PyDict.values (_mapping self).

End Layer.

(** ** class Graph *)

Module Graph.

(** The [_deps] overlay (a [ChainMap] over the layers' dictionaries) is
    read only by the properties [names] and [deps]; the operations below
    go through [_layers]. *)
Record t : Type := {
  _roots : list ref;
  _layers : list Layer.t;
  conflict : option ref
}.

Definition with_layers (self : t) (ls : list Layer.t) : t :=
  {| _roots := _roots self; _layers := ls; conflict := conflict self |}.

Definition reset (h : heap) (self : t) : result t :=
  let* layer0 := Layer.init h 0 (_roots self) in
  Ok {| _roots := _roots self; _layers := [layer0]; conflict := None |}.

(** [Graph(root)] *)
Definition init (h : heap) (root : option ref) : result t :=
  reset h {| _roots := match root with Some r => [r] | None => [] end;
             _layers := [];
             conflict := None |}.

(** [clear]: the specification's [prune] *)
Definition clear (h : heap) (self : t) : t :=
  with_layers self
    (take 1 (_layers self) ++ map (Layer.clear h) (drop 1 (_layers self))).

(** [self._layers[i]] *)
Definition get_layer_level (self : t) (i : nat) : result Layer.t :=
  match _layers self !! i with
  | Some layer => Ok layer
  | None => Raise IndexError
  end.

(** [add(dep, level=lvl)] for a dependency that is not a root *)
Definition add_level (h : heap) (self : t) (dep : ref) (lvl : nat) : result t :=
  if lvl <? length (_layers self)
  then
    let* layer := get_layer_level self lvl in
    let* layer' := Layer.add h layer dep in
    Ok (with_layers self (<[lvl := layer']> (_layers self)))
  else
    let* layer := Layer.init h lvl [dep] in
    Ok (with_layers self (_layers self ++ [layer])).

(** The scan of [add] without a level: the first layer, shallowest
    first, holding a dependency whose name is among [parents_names]. *)
Definition find_parent_layer (h : heap) (parents_names : list string)
    (layers : list Layer.t) : option Layer.t :=
  List.find
    (fun layer =>
       existsb (fun parent => name_in (name (h parent)) parents_names)
               (Layer.iter layer))
    layers.

Definition add (h : heap) (self : t) (dep : ref) (lvl : option nat) : result t :=
  if is_root (h dep)
  then
    let* layer0 := get_layer_level self 0 in
    let* layer0' := Layer.add h layer0 dep in
    Ok {| _roots := _roots self ++ [dep];
          _layers := <[0 := layer0']> (_layers self);
          conflict := conflict self |}
  else
    match lvl with
    | Some k => add_level h self dep k
    | None =>
        match find_parent_layer h (sources (h dep)) (_layers self) with
        | Some layer => add_level h self dep (Layer.level layer + 1)
        | None => Raise OrphanDependencyError
        end
    end.

Definition is_leaf (h : heap) (dep : ref) : bool :=
  negb (applied (h dep)) && used (h dep).

Definition get_leafs (h : heap) (self : t) (lvl : option nat) : list ref :=
  let layers :=
    match lvl with
    | Some k => take (k + 1) (_layers self)
    | None => _layers self
    end in
  fold_left
    (fun result layer =>
       fold_left
         (fun result dep => if is_leaf h dep then result ++ [dep] else result)
         (Layer.iter layer) result)
    layers [].

(** [get_layer(dep)]: the deepest layer holding the name of [dep] *)
Definition get_layer (h : heap) (self : t) (dep : ref) : option Layer.t :=
  List.find (fun layer => Layer.contains h layer dep) (rev (_layers self)).

Fixpoint first_match (nm : string) (layers : list Layer.t) : option ref :=
  match layers with
  | [] => None
  | layer :: rest =>
      match Layer.get layer nm with
      | Some dep => Some dep
      | None => first_match nm rest
      end
  end.

Definition get (self : t) (nm : string) : option ref :=
  first_match nm (rev (_layers self)).

(** [get_children]; [depth] bounds the nesting of the recursive calls. *)
Fixpoint get_children (depth : nat) (h : heap) (self : t) (dep : ref)
    : result (PyDict.dict ref) :=
  match depth with
  | O => Raise RecursionError
  | S depth' =>
      if negb (locked (h dep)) then Ok []
      else
        fold_left
          (fun acc child =>
             let* result := acc in
             match get_layer h self child with
             | None => Ok result
             | Some _ =>
                 let result1 :=
                   if PyDict.mem (name (h child)) result
                   then result
                   else PyDict.set (name (h child)) child result in
                 let* sub := get_children depth' h self child in
                 Ok (PyDict.update result1 sub)
             end)
          (dependencies (h dep))
          (Ok [])
  end.

(** The loop nest of [get_parents]: the parents found for [deps]. *)
Definition lists_child (h : heap) (parent dep : ref) (avoid : list string) : bool :=
  existsb
    (fun children =>
       String.eqb (name (h children)) (name (h dep))
       && negb (name_in (name (h children)) avoid))
    (dependencies (h parent)).

Definition direct_parents (h : heap) (self : t) (deps : list ref)
    (avoid : list string) : PyDict.dict ref :=
  fold_left
    (fun parents dep =>
       fold_left
         (fun parents layer =>
            fold_left
              (fun parents parent =>
                 if lists_child h parent dep avoid
                 then PyDict.set (name (h parent)) parent parents
                 else parents)
              (Layer.iter layer) parents)
         (_layers self) parents)
    deps [].

Fixpoint get_parents (depth : nat) (h : heap) (self : t) (deps : list ref)
    (avoid : list string) : result (PyDict.dict ref) :=
  match depth with
  | O => Raise RecursionError
  | S depth' =>
      let parents := direct_parents h self deps avoid in
      match parents with
      | [] => Ok parents
      | _ :: _ =>
          let* sub := get_parents depth' h self (PyDict.values parents)
                        (avoid ++ map (fun dep => name (h dep)) deps) in
          Ok (PyDict.update parents sub)
      end
  end.

End Graph.

(** * Regular expressions ([re])

    A backtracking matcher with the priorities of Python's engine: a greedy
    repetition tries the longest run first, a lazy one the shortest, an
    optional part is tried before it is skipped, alternatives go left to
    right.  The continuation [k] is the rest of the pattern; [pos] counts
    the characters before [s].  Characters are the code points below 256. *)

Module Re.

Inductive regex : Type :=
| Lit (l : string)                           (* literal text *)
| Cls (p : ascii -> bool)                    (* one character of a class *)
| Rep1 (p : ascii -> bool) (greedy : bool)   (* [p]+ and [p]+? *)
| RepN (p : ascii -> bool) (n : nat)         (* [p]{n} *)
| Alt (r1 r2 : regex)
| Seq (r1 r2 : regex)
| Opt (r : regex)                            (* (?:r)? *)
| Group (g : string) (r : regex)             (* (?P<g>r) *)
| Bol                                        (* ^ *)
| Eol.                                       (* $ *)

Definition captures : Type := PyDict.dict string.
Definition cont : Type := nat -> string -> captures -> option captures.

Fixpoint lit (l : string) (pos : nat) (s : string) : option (nat * string) :=
  match l with
  | EmptyString => Some (pos, s)
  | String x l' =>
      match s with
      | String a s' => if Ascii.eqb x a then lit l' (S pos) s' else None
      | EmptyString => None
      end
  end.

(** More characters of a greedy repetition, longest first. *)
Fixpoint rep_greedy (p : ascii -> bool) (pos : nat) (s : string) (c : captures)
    (k : cont) : option captures :=
  match s with
  | String a s' =>
      if p a then
        match rep_greedy p (S pos) s' c k with
        | Some m => Some m
        | None => k pos s c
        end
      else k pos s c
  | EmptyString => k pos s c
  end.

(** More characters of a lazy repetition, shortest first. *)
Fixpoint rep_lazy (p : ascii -> bool) (pos : nat) (s : string) (c : captures)
    (k : cont) : option captures :=
  match k pos s c with
  | Some m => Some m
  | None =>
      match s with
      | String a s' => if p a then rep_lazy p (S pos) s' c k else None
      | EmptyString => None
      end
  end.

Fixpoint rep_n (p : ascii -> bool) (n : nat) (pos : nat) (s : string)
    (c : captures) (k : cont) : option captures :=
  match n with
  | O => k pos s c
  | S n' =>
      match s with
      | String a s' => if p a then rep_n p n' (S pos) s' c k else None
      | EmptyString => None
      end
  end.

(** [$]: the end of the text, or just before a newline that ends it. *)
Definition at_end (s : string) : bool :=
  match s with
  | EmptyString => true
  | String a EmptyString => Ascii.eqb a "010"
  | _ => false
  end.

Fixpoint run (r : regex) (pos : nat) (s : string) (c : captures) (k : cont)
    : option captures :=
  match r with
  | Lit l =>
      match lit l pos s with
      | Some (pos', s') => k pos' s' c
      | None => None
      end
  | Cls p =>
      match s with
      | String a s' => if p a then k (S pos) s' c else None
      | EmptyString => None
      end
  | Rep1 p greedy =>
      match s with
      | String a s' =>
          if p a then
            if greedy then rep_greedy p (S pos) s' c k
            else rep_lazy p (S pos) s' c k
          else None
      | EmptyString => None
      end
  | RepN p n => rep_n p n pos s c k
  | Alt r1 r2 =>
      match run r1 pos s c k with
      | Some m => Some m
      | None => run r2 pos s c k
      end
  | Seq r1 r2 => run r1 pos s c (fun pos' s' c' => run r2 pos' s' c' k)
  | Opt r1 =>
      match run r1 pos s c k with
      | Some m => Some m
      | None => k pos s c
      end
  | Group g r1 =>
      run r1 pos s c
          (fun pos' s' c' => k pos' s' (PyDict.set g (substring 0 (pos' - pos) s) c'))
  | Bol => if pos =? 0 then k pos s c else None
  | Eol => if at_end s then k pos s c else None
  end.

(** [pattern.search(s)]: the first start position with a match. *)
Fixpoint search_from (r : regex) (pos : nat) (s : string) : option captures :=
  match run r pos s [] (fun _ _ c => Some c) with
  | Some m => Some m
  | None =>
      match s with
      | String _ s' => search_from r (S pos) s'
      | EmptyString => None
      end
  end.

Definition search (r : regex) (s : string) : option captures := search_from r 0 s.

(** [pattern.fullmatch(s)] *)
Definition fullmatch (r : regex) (s : string) : option captures :=
  run r 0 s []
      (fun _ s' c => match s' with EmptyString => Some c | _ => None end).

(** Character classes *)
Definition in_range (lo hi : nat) (a : ascii) : bool :=
  (lo <=? nat_of_ascii a) && (nat_of_ascii a <=? hi).

(** [.]: anything but a newline *)
Definition dot (a : ascii) : bool := negb (Ascii.eqb a "010").
(** [[a-z]] *)
Definition lower (a : ascii) : bool := in_range 97 122 a.
(** [[^/]] *)
Definition not_slash (a : ascii) : bool := negb (Ascii.eqb a "/").
(** [[:/]] *)
Definition colon_or_slash (a : ascii) : bool := Ascii.eqb a ":" || Ascii.eqb a "/".
(** [\s] on text: tab to carriage return, the four separators 28 to 31,
    the space, NEL and the no-break space *)
Definition space (a : ascii) : bool :=
  in_range 9 13 a || in_range 28 32 a
  || (nat_of_ascii a =? 133) || (nat_of_ascii a =? 160).
(** [[^\s#]] *)
Definition not_space_hash (a : ascii) : bool := negb (space a || Ascii.eqb a "#").
(** [[a-fA-F0-9]] *)
Definition hex (a : ascii) : bool :=
  in_range 97 102 a || in_range 65 70 a || in_range 48 57 a.

End Re.

Notation "r1 +> r2" := (Re.Seq r1 r2) (at level 60, right associativity).

(** * class VCSLink *)

Module VCSLink.

(** The attributes are untyped in the source: each may hold a string or
    [None]. *)
Record t : Type := {
  server : option string;
  author : option string;
  project : option string;
  vcs : option string;
  protocol : option string;
  user : option string;
  ext : option string;
  rev : option string;
  name : option string
}.

Definition rex : Re.regex :=
  Re.Bol
  +> Re.Opt (Re.Group "vcs" (Re.Rep1 Re.lower true) +> Re.Lit "+")
  +> Re.Opt (Re.Group "protocol" (Re.Alt (Re.Lit "ssh") (Re.Alt (Re.Lit "https") (Re.Lit "http")))
             +> Re.Lit "://")
  +> Re.Opt (Re.Group "user" (Re.Rep1 Re.dot true) +> Re.Lit "@")
  +> Re.Group "server" (Re.Rep1 Re.not_slash true) +> Re.Cls Re.colon_or_slash
  +> Re.Group "author" (Re.Rep1 Re.dot true) +> Re.Lit "/"
  +> Re.Group "project" (Re.Rep1 Re.not_space_hash false)
  +> Re.Opt (Re.Group "ext" (Re.Lit ".git"))
  +> Re.Opt (Re.Lit "@" +> Re.Group "rev" (Re.Rep1 Re.dot true))
  +> Re.Opt (Re.Lit "#egg=" +> Re.Group "name" (Re.Rep1 Re.dot true))
  +> Re.Eol.

Definition rex_hash : Re.regex := Re.RepN Re.hex 40.

Definition group_names : list string :=
  ["vcs"; "protocol"; "user"; "server"; "author"; "project"; "ext"; "rev"; "name"].

(** [match.groupdict()]: every named group, [None] for one that took no
    part in the match *)
Definition groupdict (m : Re.captures) : PyDict.dict (option string) :=
  map (fun g => (g, PyDict.get g m)) group_names.

(** [{k: v for k, v in parsed.items() if v is not None}] *)
Definition without_none (d : PyDict.dict (option string)) : PyDict.dict (option string) :=
  List.filter (fun kv => match snd kv with Some _ => true | None => false end) d.

(** The truth value of a string or [None] *)
Definition truthy (v : option string) : bool :=
  match v with
  | Some (String _ _) => true
  | _ => false
  end.

Definition kwarg (kw : PyDict.dict (option string)) (k : string)
    (default : option string) : option string :=
  match PyDict.get k kw with
  | Some v => v
  | None => default
  end.

(** The constructor, called with the entries of [parsed] as keyword
    arguments: the keys of [parsed] are group names, so no keyword
    is unexpected; [server], [author] and [project] have no default. *)
Definition cls (kw : PyDict.dict (option string)) : result t :=
  match PyDict.get "server" kw, PyDict.get "author" kw, PyDict.get "project" kw with
  | Some server_, Some author_, Some project_ =>
      Ok {| server := server_; author := author_; project := project_;
            vcs := kwarg kw "vcs" (Some "git");
            protocol := kwarg kw "protocol" (Some "ssh");
            user := kwarg kw "user" None;
            ext := kwarg kw "ext" None;
            rev := kwarg kw "rev" None;
            name := kwarg kw "name" None |}
  | _, _, _ => Raise (TypeError "missing required positional argument")
  end.

Definition parse (link : string) (vcs_ : string) (rev_ : option string)
    (name_ : option string) : result (option t) :=
  match Re.search rex link with
  | None => Ok None
  | Some m =>
      let parsed := without_none (groupdict m) in
      let parsed :=
        if PyDict.mem "vcs" parsed then parsed
        else PyDict.set "vcs" (Some vcs_) parsed in
      let* parsed :=
        if PyDict.mem "name" parsed then Ok parsed
        else
          match PyDict.get "project" parsed with
          | Some project_ => Ok (PyDict.set "name" project_ parsed)
          | None => Raise (KeyError "project")
          end in
      let parsed :=
        if PyDict.mem "name" parsed then parsed
        else PyDict.set "name" name_ parsed in
      let parsed :=
        if truthy rev_ then PyDict.set "rev" rev_ parsed else parsed in
      let* self := cls parsed in
      Ok (Some self)
  end.

Definition commit (self : t) : option string :=
  if negb (truthy (rev self)) then None
  else
    match rev self with
    | Some rev_ =>
        match Re.fullmatch rex_hash rev_ with
        | Some _ => Some rev_
        | None => None
        end
    | None => None
    end.

(** [a + b] on strings: an operand that is [None] is a [TypeError]. *)
Definition str_add (a b : option string) : result (option string) :=
  match a, b with
  | Some x, Some y => Ok (Some (x ++ y)%string)
  | _, _ => Raise (TypeError "unsupported operand type(s) for +")
  end.

Definition neq_str (a : option string) (b : string) : bool :=
  match a with
  | Some x => negb (String.eqb x b)
  | None => true
  end.

Definition short (self : t) : result (option string) :=
  let link := Some EmptyString in
  let* link :=
    if neq_str (protocol self) "ssh"
    then let* p := str_add (protocol self) (Some "://") in str_add link p
    else Ok link in
  let* link :=
    if truthy (user self)
    then let* u := str_add (user self) (Some "@") in str_add link u
    else Ok link in
  let* link := str_add link (server self) in
  let* link := str_add link (Some (if neq_str (protocol self) "ssh" then "/" else ":")) in
  let* ap := str_add (author self) (Some "/") in
  let* ap := str_add ap (project self) in
  let* link := str_add link ap in
  if truthy (ext self) then str_add link (ext self) else Ok link.

(** [self.<attr>] for the names [long] reads.  The instance has its nine
    data attributes and the properties [commit] and [short]; the other
    names of the class are [rex], [rex_hash], [parse], [long] and
    [__str__].  Any other name is an [AttributeError]. *)
Definition getattr (self : t) (attr : string) : result (option string) :=
  if String.eqb attr "server" then Ok (server self)
  else if String.eqb attr "author" then Ok (author self)
  else if String.eqb attr "project" then Ok (project self)
  else if String.eqb attr "vcs" then Ok (vcs self)
  else if String.eqb attr "protocol" then Ok (protocol self)
  else if String.eqb attr "user" then Ok (user self)
  else if String.eqb attr "ext" then Ok (ext self)
  else if String.eqb attr "rev" then Ok (rev self)
  else if String.eqb attr "name" then Ok (name self)
  else if String.eqb attr "commit" then Ok (commit self)
  else if String.eqb attr "short" then short self
  else Raise (AttributeError attr).

Definition long (self : t) : result (option string) :=
  let* vcs_ := getattr self "vcs" in
  let* link := str_add vcs_ (Some "+") in
  let* link_ := getattr self "link" in
  let* link := str_add link link_ in
  let* rev_ := getattr self "rev" in
  let* link :=
    if truthy rev_
    then let* r := str_add (Some "@") rev_ in str_add link r
    else Ok link in
  let* name_ := getattr self "name" in
  if truthy name_
  then let* n := str_add (Some "#egg=") name_ in str_add link n
  else Ok link.

(** [__str__] *)
Definition str (self : t) : result (option string) := long self.

End VCSLink.

(** * What a match is

    [re_matches r pos s c pos' s' c']: the pattern [r] matches a prefix of
    [s] that starts at position [pos]; [s'] is what is left, at position
    [pos'], and [c'] are the captures [c] with the groups of [r] added. *)

Fixpoint all_chars (p : ascii -> bool) (s : string) : bool :=
  match s with
  | EmptyString => true
  | String a s' => p a && all_chars p s'
  end.

Fixpoint re_matches (r : Re.regex) (pos : nat) (s : string) (c : Re.captures)
    (pos' : nat) (s' : string) (c' : Re.captures) : Prop :=
  match r with
  | Re.Lit l => s = (l ++ s')%string /\ pos' = pos + String.length l /\ c' = c
  | Re.Cls p => exists a, s = String a s' /\ p a = true /\ pos' = S pos /\ c' = c
  | Re.Rep1 p _ =>
      exists w, w <> EmptyString /\ all_chars p w = true
                /\ s = (w ++ s')%string /\ pos' = pos + String.length w /\ c' = c
  | Re.RepN p n =>
      exists w, String.length w = n /\ all_chars p w = true
                /\ s = (w ++ s')%string /\ pos' = pos + n /\ c' = c
  | Re.Alt r1 r2 => re_matches r1 pos s c pos' s' c' \/ re_matches r2 pos s c pos' s' c'
  | Re.Seq r1 r2 =>
      exists pos1 s1 c1,
        re_matches r1 pos s c pos1 s1 c1 /\ re_matches r2 pos1 s1 c1 pos' s' c'
  | Re.Opt r1 => re_matches r1 pos s c pos' s' c' \/ (pos' = pos /\ s' = s /\ c' = c)
  | Re.Group g r1 =>
      exists c1, re_matches r1 pos s c pos' s' c1
                 /\ c' = PyDict.set g (substring 0 (pos' - pos) s) c1
  | Re.Bol => pos = 0 /\ pos' = pos /\ s' = s /\ c' = c
  | Re.Eol => Re.at_end s = true /\ pos' = pos /\ s' = s /\ c' = c
  end.

Fixpoint re_groups (r : Re.regex) : list string :=
  match r with
  | Re.Alt r1 r2 | Re.Seq r1 r2 => re_groups r1 ++ re_groups r2
  | Re.Opt r1 => re_groups r1
  | Re.Group g r1 => g :: re_groups r1
  | _ => []
  end.

(** * Invariants *)

(** The invariant of a layer: every key occurs once, and every entry is
    keyed by the name of the dependency it holds. *)
Definition layer_wf (h : heap) (layer : Layer.t) : Prop :=
  NoDup (PyDict.keys (Layer._mapping layer))
  /\ Forall (fun kv => fst kv = name (h (snd kv))) (Layer._mapping layer).

(** No two dependencies of the layer have the same name. *)
Definition names_unique (h : heap) (layer : Layer.t) : Prop :=
  NoDup (map (fun dep => name (h dep)) (Layer.iter layer)).

(** The layers [get_leafs] looks at: indices [0..lvl], or all of them. *)
Definition bounded_layers (g : Graph.t) (lvl : option nat) : list Layer.t :=
  match lvl with
  | Some k => take (S k) (Graph._layers g)
  | None => Graph._layers g
  end.

(** * Sample objects

    A root [app] requiring [a]; [a] and [b] require each other; [c] is an
    unused dependency whose only parent is not in any graph. *)

Definition sample : heap := fun r =>
  match r with
  | 0 => {| name := "app"; is_root := true; sources := [];
            applied := false; used := true; locked := true; dependencies := [1] |}
  | 1 => {| name := "a"; is_root := false; sources := ["app"];
            applied := false; used := true; locked := true; dependencies := [2] |}
  | 2 => {| name := "b"; is_root := false; sources := ["a"];
            applied := false; used := true; locked := true; dependencies := [1] |}
  | _ => {| name := "c"; is_root := false; sources := ["nobody"];
            applied := false; used := false; locked := false; dependencies := [] |}
  end.

(** [Graph(app)], then [add(a)], then [add(b)]. *)
Definition sample_graph : result Graph.t :=
  let* g := Graph.init sample (Some 0) in
  let* g := Graph.add sample g 1 None in
  Graph.add sample g 2 None.

(** [Graph(app)], then [add(a, level=1)], then [add(a, level=2)]. *)
Definition sample_shared_graph : result Graph.t :=
  let* g := Graph.init sample (Some 0) in
  let* g := Graph.add sample g 1 (Some 1) in
  Graph.add sample g 1 (Some 2).

(** [Graph(app)], then [add(a, level=2)], [add(c, level=5)] and
    [add(c', level=5)] for two dependencies [c], [c'] named alike: every
    call appends a layer, and the layers are labelled 0, 2, 5, 5. *)
Definition sample_gapped_graph : result Graph.t :=
  let* g := Graph.init sample (Some 0) in
  let* g := Graph.add sample g 1 (Some 2) in
  let* g := Graph.add sample g 3 (Some 5) in
  Graph.add sample g 4 (Some 5).

(** Layer [i] of the sequence is labelled [i]. *)
Definition levels_are_indices (g : Graph.t) : Prop :=
  forall i layer, Graph._layers g !! i = Some layer -> Layer.level layer = i.

(** The layer holds a dependency whose name is one of the contributing
    parents of [dep]. *)
Definition holds_parent (h : heap) (dep : ref) (layer : Layer.t) : Prop :=
  exists parent, parent ∈ Layer.iter layer /\ name (h parent) ∈ sources (h dep).

(** ** Ancestors, in the words of the specification

    [graphed]: the dependency is held by some layer.  [found_parent]: a
    graphed dependency of that name lists, among its own children, a
    dependency whose name is searched for and not avoided.
    [ancestor_name]: the closure, repeating the search on the parents
    found, with the names just searched added to the avoided ones. *)

Definition graphed (g : Graph.t) (p : ref) : Prop :=
  exists layer, layer ∈ Graph._layers g /\ p ∈ Layer.iter layer.

Definition lists_searched (h : heap) (searched avoided : string -> Prop) (p : ref) : Prop :=
  exists c, c ∈ dependencies (h p) /\ searched (name (h c)) /\ ~ avoided (name (h c)).

Definition found_parent (h : heap) (g : Graph.t) (searched avoided : string -> Prop)
    (n : string) : Prop :=
  exists p, graphed g p /\ name (h p) = n /\ lists_searched h searched avoided p.

Inductive ancestor_name (h : heap) (g : Graph.t)
  : (string -> Prop) -> (string -> Prop) -> string -> Prop :=
| ancestor_found searched avoided n :
    found_parent h g searched avoided n ->
    ancestor_name h g searched avoided n
| ancestor_further searched avoided n :
    ancestor_name h g (found_parent h g searched avoided)
                  (fun x => avoided x \/ searched x) n ->
    ancestor_name h g searched avoided n.

(** [ancestor]: the same closure on the dependencies themselves.  A
    graphed dependency that lists a child whose name is searched for and
    not avoided, or an ancestor of the search repeated on the names of the
    parents found. *)
Inductive ancestor (h : heap) (g : Graph.t)
  : (string -> Prop) -> (string -> Prop) -> ref -> Prop :=
| ancestor_direct searched avoided p :
    graphed g p -> lists_searched h searched avoided p ->
    ancestor h g searched avoided p
| ancestor_indirect searched avoided p :
    ancestor h g (found_parent h g searched avoided)
             (fun x => avoided x \/ searched x) p ->
    ancestor h g searched avoided p.

(** No other graphed dependency has the name of [p]. *)
Definition only_of_its_name (h : heap) (g : Graph.t) (p : ref) : Prop :=
  forall q, graphed g q -> name (h q) = name (h p) -> q = p.

(** The names of the children of the graphed dependencies: at most this
    many searches can find a parent. *)
Definition child_names (h : heap) (g : Graph.t) : list string :=
  flat_map (fun p => map (fun c => name (h c)) (dependencies (h p)))
           (concat (map Layer.iter (Graph._layers g))).

Definition unavoided (h : heap) (g : Graph.t) (avoid : list string) : nat :=
  length (List.filter (fun u => negb (name_in u avoid)) (child_names h g)).

(** ** Auxiliary notions of the proofs *)

(** The only exception of a result, if any, is [RecursionError]. *)
Definition only_recursion {A} (r : result A) : Prop :=
  forall e, r = Raise e -> e = RecursionError.

(** One round of the loop of [get_children]. *)
Definition children_step (depth : nat) (h : heap) (g : Graph.t)
    (acc : result (PyDict.dict ref)) (child : ref) : result (PyDict.dict ref) :=
  let* result := acc in
  match Graph.get_layer h g child with
  | None => Ok result
  | Some _ =>
      let result1 :=
        if PyDict.mem (name (h child)) result
        then result
        else PyDict.set (name (h child)) child result in
      let* sub := Graph.get_children depth h g child in
      Ok (PyDict.update result1 sub)
  end.

(** An entry of a result of [get_parents]: a graphed dependency under its
    own name. *)
Definition graphed_entry (h : heap) (g : Graph.t) (kv : string * ref) : Prop :=
  fst kv = name (h (snd kv)) /\ graphed g (snd kv).

(** An entry that is an ancestor, under its own name. *)
Definition ancestor_entry (h : heap) (g : Graph.t) (searched avoided : string -> Prop)
    (kv : string * ref) : Prop :=
  fst kv = name (h (snd kv)) /\ ancestor h g searched avoided (snd kv).

(** The keywords without a default are in the dictionary. *)
Definition has_required (srv au pr : string) (d : PyDict.dict (option string)) : Prop :=
  PyDict.get "server" d = Some (Some srv)
  /\ PyDict.get "author" d = Some (Some au)
  /\ PyDict.get "project" d = Some (Some pr).

(** ** Graphs built by the operations *)

(** Every root is the entry of layer 0 under its name, and the roots have
    distinct names. *)
Definition roots_registered (h : heap) (g : Graph.t) : Prop :=
  NoDup (map (fun r => name (h r)) (Graph._roots g))
  /\ exists layer0,
       Graph._layers g !! 0 = Some layer0
       /\ forall r, r ∈ Graph._roots g -> Layer.get layer0 (name (h r)) = Some r.

(** The graphs obtained from [Graph(root)] by [add], [clear] and [reset]. *)
Inductive reachable (h : heap) : Graph.t -> Prop :=
| reachable_init root g :
    Graph.init h root = Ok g -> reachable h g
| reachable_add g dep lvl g' :
    reachable h g -> Graph.add h g dep lvl = Ok g' -> reachable h g'
| reachable_clear g :
    reachable h g -> reachable h (Graph.clear h g)
| reachable_reset g g' :
    reachable h g -> Graph.reset h g = Ok g' -> reachable h g'.

(** The layer [Layer(0, *roots)] when the names of the roots are distinct. *)
Definition roots_layer (h : heap) (roots : list ref) : Layer.t :=
  {| Layer.level := 0; Layer._mapping := map (fun r => (name (h r), r)) roots |}.

(** A dependency reached from [p] along the [dependencies] of locked
    dependencies. *)
Inductive descends (h : heap) : ref -> ref -> Prop :=
| descends_child p c :
    locked (h p) = true -> c ∈ dependencies (h p) -> descends h p c
| descends_further p c d :
    locked (h p) = true -> c ∈ dependencies (h p) -> descends h c d ->
    descends h p d.

(** The character occurs in the text. *)
Fixpoint has_char (a : ascii) (s : string) : bool :=
  match s with
  | EmptyString => false
  | String b s' => Ascii.eqb a b || has_char a s'
  end.

(** * The dictionaries as shared objects

    [Graph._deps] is a [ChainMap] over the dictionaries of the layers: it
    holds the dictionary objects themselves.  [Layer.add] changes a
    dictionary in place, [Layer.clear] gives the layer a new dictionary.
    Here a dictionary is an object at a location of a [store]; a layer and
    the [ChainMap] hold locations.  The operations are those of [Layer] and
    [Graph] above, with the dictionaries behind locations. *)

Module Aliased.

Definition loc : Type := nat.

(** The dictionary objects, and the location the next new one gets. *)
Record store : Type := {
  dicts : loc -> PyDict.dict ref;
  next : loc
}.

Definition empty_store : store := {| dicts := fun _ => []; next := 0 |}.

(** A new dictionary object *)
Definition alloc (st : store) (d : PyDict.dict ref) : store * loc :=
  ({| dicts := fun l => if l =? next st then d else dicts st l;
      next := S (next st) |},
   next st).

(** A change of a dictionary object in place *)
Definition write (st : store) (l : loc) (d : PyDict.dict ref) : store :=
  {| dicts := fun l' => if l' =? l then d else dicts st l';
     next := next st |}.

Module LayerObj.

Record t : Type := {
  level : nat;
  _mapping : loc
}.

Definition get (st : store) (self : t) (nm : string) : option ref :=
  PyDict.get nm (dicts st (_mapping self)).

Definition add (h : heap) (st : store) (self : t) (dep : ref) : result store :=
  if PyDict.mem (name (h dep)) (dicts st (_mapping self))
  then Raise DuplicateNameError
  else Ok (write st (_mapping self)
             (PyDict.set (name (h dep)) dep (dicts st (_mapping self)))).

(** [Layer(level, *deps)] *)
Definition init (h : heap) (st : store) (lvl : nat) (deps : list ref)
    : result (store * t) :=
  let self := {| level := lvl; _mapping := snd (alloc st []) |} in
  let* st' :=
    fold_left (fun acc dep => let* s := acc in add h s self dep)
              deps (Ok (fst (alloc st []))) in
  Ok (st', self).

Definition clear (h : heap) (st : store) (self : t) : store * t :=
  let new :=
    alloc st (List.filter (fun kv => used (h (snd kv))) (dicts st (_mapping self))) in
  (fst new, {| level := level self; _mapping := snd new |}).

Definition iter (st : store) (self : t) : list ref :=
  PyDict.values (dicts st (_mapping self)).

End LayerObj.

Module GraphObj.

(** [_deps] lists the maps of the [ChainMap], the newest child first. *)
Record t : Type := {
  _roots : list ref;
  _layers : list LayerObj.t;
  _deps : list loc;
  conflict : option ref
}.

Definition reset (h : heap) (st : store) (self : t) : result (store * t) :=
  let* new := LayerObj.init h st 0 (_roots self) in
  Ok (fst new,
      {| _roots := _roots self;
         _layers := [snd new];
         _deps := map LayerObj._mapping [snd new];
         conflict := None |}).

(** [Graph(root)] *)
Definition init (h : heap) (st : store) (root : option ref) : result (store * t) :=
  reset h st {| _roots := match root with Some r => [r] | None => [] end;
                _layers := [];
                _deps := [];
                conflict := None |}.

Definition clear (h : heap) (st : store) (self : t) : store * t :=
  let cleared :=
    fold_left
      (fun acc layer =>
         let new := LayerObj.clear h (fst acc) layer in
         (fst new, snd acc ++ [snd new]))
      (drop 1 (_layers self))
      (st, take 1 (_layers self)) in
  (fst cleared,
   {| _roots := _roots self; _layers := snd cleared;
      _deps := _deps self; conflict := conflict self |}).

Definition add_level (h : heap) (st : store) (self : t) (dep : ref) (lvl : nat)
    : result (store * t) :=
  if lvl <? length (_layers self)
  then
    match _layers self !! lvl with
    | Some layer =>
        let* st' := LayerObj.add h st layer dep in
        Ok (st', self)
    | None => Raise IndexError
    end
  else
    let* new := LayerObj.init h st lvl [dep] in
    Ok (fst new,
        {| _roots := _roots self;
           _layers := _layers self ++ [snd new];
           _deps := LayerObj._mapping (snd new) :: _deps self;
           conflict := conflict self |}).

Definition find_parent_layer (h : heap) (st : store) (parents_names : list string)
    (layers : list LayerObj.t) : option LayerObj.t :=
  List.find
    (fun layer =>
       existsb (fun parent => name_in (name (h parent)) parents_names)
               (LayerObj.iter st layer))
    layers.

Definition add (h : heap) (st : store) (self : t) (dep : ref) (lvl : option nat)
    : result (store * t) :=
  if is_root (h dep)
  then
    match _layers self !! 0 with
    | Some layer0 =>
        let* st' := LayerObj.add h st layer0 dep in
        Ok (st',
            {| _roots := _roots self ++ [dep]; _layers := _layers self;
               _deps := _deps self; conflict := conflict self |})
    | None => Raise IndexError
    end
  else
    match lvl with
    | Some k => add_level h st self dep k
    | None =>
        match find_parent_layer h st (sources (h dep)) (_layers self) with
        | Some layer => add_level h st self dep (LayerObj.level layer + 1)
        | None => Raise OrphanDependencyError
        end
    end.

(** [names]: the set of the keys of the [ChainMap] *)
Definition names (st : store) (self : t) : gset string :=
  ⋃ (map (fun l => list_to_set (PyDict.keys (dicts st l))) (_deps self)).

(** [name in graph], for a string *)
Definition contains_name (st : store) (self : t) (nm : string) : bool :=
  bool_decide (nm ∈ names st self).

(** [applied] *)
Definition applied (h : heap) (self : t) : bool :=
  forallb (fun root => applied (h root)) (_roots self).

End GraphObj.

End Aliased.

(** The graph as the operations on layers see it: every layer with the
    dictionary it holds now. *)
Definition view_layer (st : Aliased.store) (layer : Aliased.LayerObj.t) : Layer.t :=
  {| Layer.level := Aliased.LayerObj.level layer;
     Layer._mapping := Aliased.dicts st (Aliased.LayerObj._mapping layer) |}.

Definition view (st : Aliased.store) (g : Aliased.GraphObj.t) : Graph.t :=
  {| Graph._roots := Aliased.GraphObj._roots g;
     Graph._layers := map (view_layer st) (Aliased.GraphObj._layers g);
     Graph.conflict := Aliased.GraphObj.conflict g |}.

(** The layers hold distinct dictionaries, and every dictionary in use was
    allocated. *)
Definition store_wf (st : Aliased.store) (g : Aliased.GraphObj.t) : Prop :=
  NoDup (map Aliased.LayerObj._mapping (Aliased.GraphObj._layers g))
  /\ Forall (fun layer => Aliased.LayerObj._mapping layer < Aliased.next st)
            (Aliased.GraphObj._layers g)
  /\ Forall (fun l => l < Aliased.next st) (Aliased.GraphObj._deps g).

(** The [ChainMap] holds the dictionaries of the layers, deepest first. *)
Definition chain_synced (g : Aliased.GraphObj.t) : Prop :=
  Aliased.GraphObj._deps g
  = rev (map Aliased.LayerObj._mapping (Aliased.GraphObj._layers g)).

(** The store [s] has the dictionaries of [st] as they were, and maybe
    new ones. *)
Definition extends (st s : Aliased.store) : Prop :=
  Aliased.next st <= Aliased.next s
  /\ forall l, l < Aliased.next st -> Aliased.dicts s l = Aliased.dicts st l.

(** A store with the dictionaries of two layers: [app] in layer 0, [a] and
    the unused [c] in layer 1. *)
Definition sample_store : Aliased.store :=
  {| Aliased.dicts := fun l =>
       match l with
       | 0 => [("app", 0)]
       | 1 => [("a", 1); ("c", 3)]
       | _ => []
       end;
     Aliased.next := 2 |}.

Definition sample_obj : Aliased.GraphObj.t :=
  {| Aliased.GraphObj._roots := [0];
     Aliased.GraphObj._layers :=
       [ {| Aliased.LayerObj.level := 0; Aliased.LayerObj._mapping := 0 |};
         {| Aliased.LayerObj.level := 1; Aliased.LayerObj._mapping := 1 |} ];
     Aliased.GraphObj._deps := [1; 0];
     Aliased.GraphObj.conflict := None |}.

(** * Properties *)

(** ** Dictionaries *)

Section DictFacts.
Context {V : Type}.
Implicit Types (d : PyDict.dict V) (k : string) (v : V).

Lemma dict_get_None k d : PyDict.get k d = None <-> k ∉ PyDict.keys d.
Proof.
  induction d as [|[k' v'] d IH]; simpl.
  - split; [intros _; apply not_elem_of_nil | reflexivity].
  - rewrite not_elem_of_cons. destruct (String.eqb_spec k k') as [->|Hne].
    + split; [discriminate | intros [Hk _]; congruence].
    + rewrite IH. tauto.
Qed.

Lemma dict_mem_true k d : PyDict.mem k d = true <-> k ∈ PyDict.keys d.
Proof.
  unfold PyDict.mem. destruct (PyDict.get k d) eqn:E.
  - split; [intros _ | reflexivity].
    destruct (decide (k ∈ PyDict.keys d)) as [|Hn]; [assumption|].
    apply dict_get_None in Hn. congruence.
  - split; [discriminate|]. intros Hin. apply dict_get_None in E. contradiction.
Qed.

Lemma dict_mem_false k d : PyDict.mem k d = false <-> k ∉ PyDict.keys d.
Proof.
  rewrite <- dict_mem_true. destruct (PyDict.mem k d); split; congruence.
Qed.

Lemma dict_get_elem k v d : PyDict.get k d = Some v -> (k, v) ∈ d.
Proof.
  induction d as [|[k' v'] d IH]; simpl; [discriminate|].
  destruct (String.eqb_spec k k') as [->|Hne].
  - intros [= ->]. apply list_elem_of_here.
  - intros H. apply list_elem_of_further, IH, H.
Qed.

Lemma dict_elem_get k v d :
  NoDup (PyDict.keys d) -> (k, v) ∈ d -> PyDict.get k d = Some v.
Proof.
  induction d as [|[k' v'] d IH]; simpl; intros Hnd Hin.
  - apply elem_of_nil in Hin. contradiction.
  - apply NoDup_cons in Hnd as [Hk' Hnd].
    apply elem_of_cons in Hin as [[= -> ->]|Hin].
    + rewrite String.eqb_refl. reflexivity.
    + destruct (String.eqb_spec k k') as [->|Hne]; [|auto].
      exfalso. apply Hk'. apply list_elem_of_fmap. exists (k', v). auto.
Qed.

(** A fresh key is appended. *)
Lemma dict_set_fresh k v d :
  PyDict.mem k d = false -> PyDict.set k v d = d ++ [(k, v)].
Proof.
  unfold PyDict.mem.
  induction d as [|[k' v'] d IH]; simpl; [reflexivity|].
  destruct (String.eqb k k'); [discriminate|].
  intros H. rewrite IH by exact H. reflexivity.
Qed.

Lemma dict_get_set_eq k v d : PyDict.get k (PyDict.set k v d) = Some v.
Proof.
  induction d as [|[k' v'] d IH]; simpl.
  - rewrite String.eqb_refl. reflexivity.
  - destruct (String.eqb k k') eqn:E; simpl; rewrite E; auto.
Qed.

Lemma dict_get_set_ne k k' v d :
  k <> k' -> PyDict.get k' (PyDict.set k v d) = PyDict.get k' d.
Proof.
  intros Hne. induction d as [|[k0 v0] d IH]; simpl.
  - destruct (String.eqb_spec k' k); congruence.
  - destruct (String.eqb_spec k k0) as [->|Hk]; simpl.
    + destruct (String.eqb_spec k' k0); congruence.
    + rewrite IH. reflexivity.
Qed.

Lemma dict_mem_set k k' v d :
  PyDict.mem k' (PyDict.set k v d) = String.eqb k' k || PyDict.mem k' d.
Proof.
  unfold PyDict.mem. destruct (String.eqb_spec k' k) as [->|Hne]; simpl.
  - rewrite dict_get_set_eq. reflexivity.
  - rewrite dict_get_set_ne by congruence. reflexivity.
Qed.

Lemma dict_mem_update k d other :
  PyDict.mem k (PyDict.update d other) = PyDict.mem k d || PyDict.mem k other.
Proof.
  unfold PyDict.update. revert d.
  induction other as [|[k' v'] other IH]; intros d; simpl.
  - rewrite orb_false_r. reflexivity.
  - rewrite IH, dict_mem_set. unfold PyDict.mem. simpl.
    destruct (String.eqb k k'); simpl; destruct (PyDict.get k d); reflexivity.
Qed.

Lemma dict_keys_set_fresh k v d :
  PyDict.mem k d = false -> PyDict.keys (PyDict.set k v d) = PyDict.keys d ++ [k].
Proof.
  intros H. rewrite dict_set_fresh by exact H.
  unfold PyDict.keys. rewrite map_app. reflexivity.
Qed.
End DictFacts.

(** ** Layers *)

Lemma layer_names_keys h layer :
  Forall (fun kv => fst kv = name (h (snd kv))) (Layer._mapping layer) ->
  map (fun dep => name (h dep)) (Layer.iter layer) = PyDict.keys (Layer._mapping layer).
Proof.
  unfold Layer.iter, PyDict.values, PyDict.keys.
  induction 1 as [|[k r] m Hk _ IH]; simpl in *; [reflexivity|].
  rewrite IH, Hk. reflexivity.
Qed.

Lemma layer_wf_names_unique h layer : layer_wf h layer -> names_unique h layer.
Proof.
  intros [Hnd Hk]. unfold names_unique. rewrite layer_names_keys; assumption.
Qed.

Lemma layer_contains_iff h layer dep :
  layer_wf h layer ->
  Layer.contains h layer dep = true <->
  exists r, r ∈ Layer.iter layer /\ name (h r) = name (h dep).
Proof.
  intros [_ Hk]. unfold Layer.contains. rewrite dict_mem_true.
  rewrite <- (layer_names_keys h layer Hk), list_elem_of_fmap.
  split; intros (r & H1 & H2); exists r; auto.
Qed.

Lemma layer_wf_empty h lvl : layer_wf h {| Layer.level := lvl; Layer._mapping := [] |}.
Proof. split; simpl; constructor. Qed.

Lemma layer_add_fresh h layer dep :
  Layer.contains h layer dep = false ->
  Layer.add h layer dep =
  Ok {| Layer.level := Layer.level layer;
        Layer._mapping := Layer._mapping layer ++ [(name (h dep), dep)] |}.
Proof.
  unfold Layer.contains, Layer.add. intros H. rewrite H.
  rewrite dict_set_fresh by exact H. reflexivity.
Qed.

Lemma layer_add_present h layer dep :
  Layer.contains h layer dep = true ->
  Layer.add h layer dep = Raise DuplicateNameError.
Proof. unfold Layer.contains, Layer.add. intros ->. reflexivity. Qed.

Lemma layer_add_wf h layer dep layer' :
  layer_wf h layer -> Layer.add h layer dep = Ok layer' -> layer_wf h layer'.
Proof.
  intros [Hnd Hk] Hadd.
  destruct (Layer.contains h layer dep) eqn:E.
  - rewrite layer_add_present in Hadd by exact E. discriminate.
  - rewrite layer_add_fresh in Hadd by exact E. injection Hadd as <-.
    unfold layer_wf; simpl. split.
    + unfold PyDict.keys. rewrite map_app. simpl.
      apply NoDup_app. split; [exact Hnd|]. split.
      * intros k Hin Hin'. apply list_elem_of_singleton in Hin'. subst k.
        apply dict_mem_false in E. contradiction.
      * apply NoDup_singleton.
    + apply Forall_app. split; [exact Hk|]. constructor; [reflexivity|constructor].
Qed.

Lemma layer_clear_wf h layer : layer_wf h layer -> layer_wf h (Layer.clear h layer).
Proof.
  intros [Hnd Hk]. unfold layer_wf, Layer.clear; simpl. split.
  - unfold PyDict.keys in *. clear Hk. revert Hnd.
    induction (Layer._mapping layer) as [|[k r] m IH]; simpl; [auto|].
    intros Hnd. apply NoDup_cons in Hnd as [Hk' Hnd].
    destruct (used (h r)); simpl; [|auto].
    apply NoDup_cons. split; [|auto].
    intros Hin. apply Hk'. apply list_elem_of_fmap in Hin as ([k1 r1] & -> & Hin).
    apply list_elem_of_In, filter_In in Hin as [Hin _].
    apply list_elem_of_fmap. exists (k1, r1). split; [reflexivity|].
    apply list_elem_of_In, Hin.
  - apply Forall_forall. intros kv Hin.
    apply list_elem_of_In, filter_In in Hin as [Hin _].
    rewrite Forall_forall in Hk. apply Hk, list_elem_of_In, Hin.
Qed.

Lemma layer_init_from h deps :
  forall acc layer,
    fold_left (fun acc dep => let* self := acc in Layer.add h self dep) deps acc
      = Ok layer ->
    exists layer0, acc = Ok layer0 /\ (layer_wf h layer0 -> layer_wf h layer).
Proof.
  induction deps as [|dep deps IH]; simpl; intros acc layer H.
  - exists layer. auto.
  - apply IH in H as (layer1 & H1 & Hwf).
    destruct acc as [layer0|e]; simpl in H1; [|discriminate].
    exists layer0. split; [reflexivity|].
    intros H0. apply Hwf. eapply layer_add_wf; eauto.
Qed.

Lemma layer_init_wf h lvl deps layer :
  Layer.init h lvl deps = Ok layer -> layer_wf h layer.
Proof.
  unfold Layer.init. intros H.
  apply layer_init_from in H as (layer0 & [= <-] & Hwf).
  apply Hwf, layer_wf_empty.
Qed.

(** C4. [Layer.add] raises the duplicate-name [KeyError] exactly when the
    layer already holds a dependency of that name; otherwise it stores the
    dependency last, under its name, and leaves the other entries alone.
    Construction, [add] and [clear] keep the names of a layer pairwise
    distinct. *)
Theorem Layer_add_keeps_names_unique (h : heap) (layer : Layer.t) (dep : ref) :
  layer_wf h layer ->
  ((exists r, r ∈ Layer.iter layer /\ name (h r) = name (h dep)) ->
     Layer.add h layer dep = Raise DuplicateNameError)
  /\ ((forall r, r ∈ Layer.iter layer -> name (h r) <> name (h dep)) ->
      exists layer',
        Layer.add h layer dep = Ok layer'
        /\ Layer.level layer' = Layer.level layer
        /\ Layer._mapping layer' = Layer._mapping layer ++ [(name (h dep), dep)]
        /\ Layer.get layer' (name (h dep)) = Some dep
        /\ layer_wf h layer' /\ names_unique h layer')
  /\ (layer_wf h (Layer.clear h layer) /\ names_unique h (Layer.clear h layer))
  /\ (forall lvl deps layer0,
        Layer.init h lvl deps = Ok layer0 ->
        layer_wf h layer0 /\ names_unique h layer0).
Proof.
  intros Hwf. repeat split.
  - intros Hex. apply layer_add_present, layer_contains_iff; assumption.
  - intros Hnone.
    assert (E : Layer.contains h layer dep = false).
    { destruct (Layer.contains h layer dep) eqn:E; [|reflexivity].
      apply layer_contains_iff in E as (r & Hr & Hn); [|exact Hwf].
      exfalso. exact (Hnone r Hr Hn). }
    pose proof (layer_add_fresh h layer dep E) as Hadd.
    eexists. split; [exact Hadd|]. simpl.
    assert (Hwf' := layer_add_wf _ _ _ _ Hwf Hadd).
    repeat split; try apply Hwf'.
    + unfold Layer.get; simpl. rewrite <- dict_set_fresh by exact E.
      apply dict_get_set_eq.
    + apply layer_wf_names_unique, Hwf'.
  - apply layer_clear_wf, Hwf.
  - apply layer_clear_wf, Hwf.
  - apply layer_wf_names_unique, layer_clear_wf, Hwf.
  - eapply layer_init_wf; eauto.
  - eapply layer_init_wf; eauto.
  - eapply layer_wf_names_unique, layer_init_wf; eauto.
Qed.

(** ** Graph lookup *)

Lemma first_match_app nm l1 l2 :
  Graph.first_match nm (l1 ++ l2) =
  match Graph.first_match nm l1 with
  | Some dep => Some dep
  | None => Graph.first_match nm l2
  end.
Proof.
  induction l1 as [|layer l1 IH]; simpl; [reflexivity|].
  destruct (Layer.get layer nm); [reflexivity | exact IH].
Qed.

Lemma first_match_none nm l :
  (forall layer, layer ∈ l -> Layer.get layer nm = None) ->
  Graph.first_match nm l = None.
Proof.
  induction l as [|layer l IH]; simpl; intros H; [reflexivity|].
  rewrite (H layer) by apply list_elem_of_here.
  apply IH. intros layer' Hin. apply H, list_elem_of_further, Hin.
Qed.

(** C3. When a name is held by layer [i] and by a deeper layer [j], and by
    no layer below [j], [get] answers with the dependency of layer [j]. *)
Theorem Graph_get_deepest_wins (g : Graph.t) (nm : string) (i j : nat)
    (layer_i layer_j : Layer.t) (dep_i dep_j : ref) :
  i < j ->
  Graph._layers g !! i = Some layer_i -> Layer.get layer_i nm = Some dep_i ->
  Graph._layers g !! j = Some layer_j -> Layer.get layer_j nm = Some dep_j ->
  (forall k layer_k,
      j < k -> Graph._layers g !! k = Some layer_k -> Layer.get layer_k nm = None) ->
  Graph.get g nm = Some dep_j.
Proof.
  intros _ _ _ Hj Hget Hdeep. unfold Graph.get.
  rewrite <- (take_drop_middle _ _ _ Hj), rev_app_distr. simpl.
  rewrite <- app_assoc, first_match_app, first_match_none.
  - simpl. rewrite Hget. reflexivity.
  - intros layer Hin. apply list_elem_of_In, in_rev, list_elem_of_In in Hin.
    apply list_elem_of_lookup in Hin as (k & Hk).
    rewrite lookup_drop in Hk. eapply Hdeep; [|exact Hk]. lia.
Qed.

(** ** The frontier *)

Lemma leafs_of_layer h l acc :
  fold_left (fun result dep => if Graph.is_leaf h dep then result ++ [dep] else result)
            l acc
  = acc ++ List.filter (Graph.is_leaf h) l.
Proof.
  revert acc. induction l as [|dep l IH]; intros acc; simpl.
  - rewrite app_nil_r. reflexivity.
  - rewrite IH. destruct (Graph.is_leaf h dep); [|reflexivity].
    rewrite <- app_assoc. reflexivity.
Qed.

Lemma leafs_of_layers h layers acc :
  fold_left
    (fun result layer =>
       fold_left
         (fun result dep => if Graph.is_leaf h dep then result ++ [dep] else result)
         (Layer.iter layer) result)
    layers acc
  = acc ++ List.filter (Graph.is_leaf h) (concat (map Layer.iter layers)).
Proof.
  revert acc. induction layers as [|layer layers IH]; intros acc; simpl.
  - rewrite app_nil_r. reflexivity.
  - rewrite IH, leafs_of_layer, List.filter_app, app_assoc. reflexivity.
Qed.

Lemma get_leafs_filter h g lvl :
  Graph.get_leafs h g lvl =
  List.filter (Graph.is_leaf h) (concat (map Layer.iter (bounded_layers g lvl))).
Proof.
  unfold Graph.get_leafs. rewrite leafs_of_layers. simpl.
  destruct lvl as [k|]; simpl; [|reflexivity].
  replace (k + 1) with (S k) by lia. reflexivity.
Qed.

Lemma bounded_layers_lookup g lvl i layer :
  bounded_layers g lvl !! i = Some layer <->
  Graph._layers g !! i = Some layer
  /\ match lvl with Some k => i <= k | None => True end.
Proof.
  destruct lvl as [k|]; simpl; [|tauto].
  rewrite lookup_take_Some. split; intros [H1 H2]; split; auto; lia.
Qed.

Lemma elem_of_concat {A} (x : A) (ls : list (list A)) :
  x ∈ concat ls <-> exists l, x ∈ l /\ l ∈ ls.
Proof.
  rewrite list_elem_of_In, in_concat. split; intros (l & H1 & H2); exists l.
  - rewrite !list_elem_of_In. auto.
  - rewrite <- !list_elem_of_In. auto.
Qed.

Lemma NoDup_List_filter {A} (f : A -> bool) (l : list A) :
  NoDup l -> NoDup (List.filter f l).
Proof.
  rewrite !NoDup_ListNoDup. apply List.NoDup_filter.
Qed.

(** C5, as the code has it.  [get_leafs] lists the dependencies of the
    layers within the bound that are used and not applied, layer after
    layer and in insertion order inside a layer; the list has no repetition
    when no dependency is stored twice in those layers. *)
Theorem get_leafs_frontier (h : heap) (g : Graph.t) (lvl : option nat) :
  Graph.get_leafs h g lvl
  = List.filter (fun dep => negb (applied (h dep)) && used (h dep))
                (concat (map Layer.iter (bounded_layers g lvl)))
  /\ (forall dep,
        dep ∈ Graph.get_leafs h g lvl <->
        used (h dep) = true /\ applied (h dep) = false
        /\ exists i layer,
             Graph._layers g !! i = Some layer
             /\ match lvl with Some k => i <= k | None => True end
             /\ dep ∈ Layer.iter layer)
  /\ (NoDup (concat (map Layer.iter (bounded_layers g lvl))) ->
      NoDup (Graph.get_leafs h g lvl)).
Proof.
  rewrite get_leafs_filter. split; [reflexivity|]. split.
  - intros dep. rewrite list_elem_of_In, filter_In, <- list_elem_of_In.
    unfold Graph.is_leaf. rewrite andb_true_iff, negb_true_iff.
    rewrite elem_of_concat. split.
    + intros ((l & Hdep & Hl) & Ha & Hu). repeat split; try assumption.
      apply list_elem_of_fmap in Hl as (layer & -> & Hl).
      apply list_elem_of_lookup in Hl as (i & Hi).
      apply bounded_layers_lookup in Hi as [Hi Hb].
      exists i, layer. auto.
    + intros (Hu & Ha & i & layer & Hi & Hb & Hdep). repeat split; try assumption.
      exists (Layer.iter layer). split; [exact Hdep|].
      apply list_elem_of_fmap. exists layer. split; [reflexivity|].
      apply list_elem_of_lookup. exists i. apply bounded_layers_lookup. auto.
  - apply NoDup_List_filter.
Qed.

Lemma get_leafs_frontier_witness :
  NoDup (Graph.get_leafs sample
           {| Graph._roots := [0];
              Graph._layers := [ {| Layer.level := 0; Layer._mapping := [("app", 0)] |};
                                 {| Layer.level := 1; Layer._mapping := [("a", 1)] |} ];
              Graph.conflict := None |}
           (Some 1)).
Proof.
  apply get_leafs_frontier. simpl.
  apply (bool_decide_unpack _). vm_compute. exact I.
Defined.

(** C5, counterexample: a dependency added at two levels is listed twice. *)
Lemma get_leafs_lists_shared_dependency_twice :
  exists g,
    sample_shared_graph = Ok g
    /\ Graph.get_leafs sample g None = [0; 1; 1]
    /\ ~ NoDup (Graph.get_leafs sample g None).
Proof.
  eexists. split; [vm_compute; reflexivity|]. split; [reflexivity|].
  intros H. vm_compute in H.
  apply NoDup_cons in H as [_ H]. apply NoDup_cons in H as [H _].
  apply H, list_elem_of_here.
Qed.

(** ** Pruning *)

Lemma graph_clear_layers h g :
  Graph._layers (Graph.clear h g) =
  match Graph._layers g with
  | [] => []
  | layer0 :: rest => layer0 :: map (Layer.clear h) rest
  end.
Proof.
  unfold Graph.clear; simpl. destruct (Graph._layers g); reflexivity.
Qed.

Lemma graph_clear_lookup h g i :
  Graph._layers (Graph.clear h g) !! i =
  if i =? 0 then Graph._layers g !! 0
  else Layer.clear h <$> (Graph._layers g !! i).
Proof.
  rewrite graph_clear_layers.
  destruct (Graph._layers g) as [|layer0 rest]; destruct i; simpl; try reflexivity.
  apply list_lookup_fmap.
Qed.

Lemma layer_clear_idem h layer :
  Layer.clear h (Layer.clear h layer) = Layer.clear h layer.
Proof.
  unfold Layer.clear; simpl. f_equal.
  induction (Layer._mapping layer) as [|[k r] m IH]; simpl; [reflexivity|].
  destruct (used (h r)) eqn:E; simpl; rewrite ?E, IH; reflexivity.
Qed.

Lemma layer_clear_entries h layer kv :
  kv ∈ Layer._mapping (Layer.clear h layer) <->
  kv ∈ Layer._mapping layer /\ used (h (snd kv)) = true.
Proof.
  unfold Layer.clear; simpl. rewrite !list_elem_of_In. apply filter_In.
Qed.

(** C9. After [clear] (the specification's [prune]) every dependency left
    in a layer other than layer 0 is used; layer 0 and the roots are as
    before; every layer holds a part of what it held, so nothing dropped
    comes back, and pruning again changes nothing. *)
Theorem Graph_clear_keeps_used_only (h : heap) (g : Graph.t) :
  (forall i layer dep,
      1 <= i -> Graph._layers (Graph.clear h g) !! i = Some layer ->
      dep ∈ Layer.iter layer -> used (h dep) = true)
  /\ Graph._layers (Graph.clear h g) !! 0 = Graph._layers g !! 0
  /\ Graph._roots (Graph.clear h g) = Graph._roots g
  /\ length (Graph._layers (Graph.clear h g)) = length (Graph._layers g)
  /\ (forall i layer',
        Graph._layers (Graph.clear h g) !! i = Some layer' ->
        exists layer,
          Graph._layers g !! i = Some layer
          /\ Layer.level layer' = Layer.level layer
          /\ forall kv, kv ∈ Layer._mapping layer' -> kv ∈ Layer._mapping layer)
  /\ (forall i layer kv,
        1 <= i -> Graph._layers g !! i = Some layer ->
        kv ∈ Layer._mapping layer -> used (h (snd kv)) = false ->
        forall layer', Graph._layers (Graph.clear h g) !! i = Some layer' ->
                       kv ∉ Layer._mapping layer')
  /\ Graph.clear h (Graph.clear h g) = Graph.clear h g.
Proof.
  repeat split.
  - intros i layer dep Hi Hl Hdep. rewrite graph_clear_lookup in Hl.
    destruct (Nat.eqb_spec i 0) as [->|_]; [lia|].
    destruct (Graph._layers g !! i) as [layer0|]; simpl in Hl; [|discriminate].
    injection Hl as <-.
    apply list_elem_of_fmap in Hdep as (kv & -> & Hkv).
    apply layer_clear_entries in Hkv. apply Hkv.
  - rewrite graph_clear_lookup. reflexivity.
  - rewrite graph_clear_layers. destruct (Graph._layers g); simpl; [reflexivity|].
    rewrite length_map. reflexivity.
  - intros i layer' Hl. rewrite graph_clear_lookup in Hl.
    destruct (Nat.eqb_spec i 0) as [->|_].
    + exists layer'. auto.
    + destruct (Graph._layers g !! i) as [layer|]; simpl in Hl; [|discriminate].
      injection Hl as <-. exists layer. repeat split.
      intros kv Hkv. apply layer_clear_entries in Hkv. apply Hkv.
  - intros i layer kv Hi Hl Hkv Hu layer' Hl' Hin.
    rewrite graph_clear_lookup in Hl'.
    destruct (Nat.eqb_spec i 0) as [->|_]; [lia|].
    rewrite Hl in Hl'. simpl in Hl'. injection Hl' as <-.
    apply layer_clear_entries in Hin as [_ Hin]. congruence.
  - destruct g as [roots layers c]. unfold Graph.clear, Graph.with_layers; simpl.
    f_equal. destruct layers as [|layer0 rest]; simpl; [reflexivity|].
    rewrite !drop_0, map_map. f_equal. apply map_ext. intros layer. apply layer_clear_idem.
Qed.

(** ** Adding at a level *)

Lemma layer_init_single h lvl dep :
  Layer.init h lvl [dep] =
  Ok {| Layer.level := lvl; Layer._mapping := [(name (h dep), dep)] |}.
Proof. reflexivity. Qed.

Lemma add_level_beyond h g dep lvl :
  length (Graph._layers g) <= lvl ->
  Graph.add_level h g dep lvl =
  Ok (Graph.with_layers g
        (Graph._layers g
           ++ [{| Layer.level := lvl; Layer._mapping := [(name (h dep), dep)] |}])).
Proof.
  intros Hle. unfold Graph.add_level.
  destruct (Nat.ltb_spec lvl (length (Graph._layers g))); [lia|].
  rewrite layer_init_single. reflexivity.
Qed.

Lemma add_level_within h g dep lvl layer :
  Graph._layers g !! lvl = Some layer ->
  Graph.add_level h g dep lvl =
  let* layer' := Layer.add h layer dep in
  Ok (Graph.with_layers g (<[lvl := layer']> (Graph._layers g))).
Proof.
  intros Hl. unfold Graph.add_level, Graph.get_layer_level.
  pose proof (lookup_lt_Some _ _ _ Hl) as Hlt.
  destruct (Nat.ltb_spec lvl (length (Graph._layers g))); [|lia].
  rewrite Hl. reflexivity.
Qed.

Lemma layer_get_added h layer dep layer' :
  Layer.add h layer dep = Ok layer' -> Layer.get layer' (name (h dep)) = Some dep.
Proof.
  unfold Layer.add. destruct (PyDict.mem _ _); [discriminate|].
  intros [= <-]. apply dict_get_set_eq.
Qed.

Lemma layer_level_added h layer dep layer' :
  Layer.add h layer dep = Ok layer' -> Layer.level layer' = Layer.level layer.
Proof.
  unfold Layer.add. destruct (PyDict.mem _ _); [discriminate|].
  intros [= <-]. reflexivity.
Qed.

(** C7, as the code has it.  With an explicit level [k], a dependency that
    is not a root goes into the layer at index [k] when there is one (and
    the call fails when that layer has the name already); otherwise one
    layer, labelled [k] and holding the dependency alone, is appended: it
    sits at the index that was the number of layers, and index [k] has no
    layer when [k] is larger than that. *)
Theorem Graph_add_explicit_level (h : heap) (g : Graph.t) (dep : ref) (k : nat) :
  is_root (h dep) = false ->
  (forall layer,
      Graph._layers g !! k = Some layer ->
      (Layer.contains h layer dep = true ->
         Graph.add h g dep (Some k) = Raise DuplicateNameError)
      /\ (Layer.contains h layer dep = false ->
          exists layer',
            Graph.add h g dep (Some k)
              = Ok (Graph.with_layers g (<[k := layer']> (Graph._layers g)))
            /\ <[k := layer']> (Graph._layers g) !! k = Some layer'
            /\ Layer._mapping layer' = Layer._mapping layer ++ [(name (h dep), dep)]
            /\ Layer.get layer' (name (h dep)) = Some dep))
  /\ (length (Graph._layers g) <= k ->
      exists g',
        Graph.add h g dep (Some k) = Ok g'
        /\ Graph._layers g'
           = Graph._layers g
               ++ [{| Layer.level := k; Layer._mapping := [(name (h dep), dep)] |}]
        /\ Graph._layers g' !! length (Graph._layers g)
           = Some {| Layer.level := k; Layer._mapping := [(name (h dep), dep)] |}
        /\ (length (Graph._layers g) < k ->
            Graph._layers g' !! k = None
            /\ Graph.get_layer_level g' k = Raise IndexError)).
Proof.
  intros Hroot. unfold Graph.add. rewrite Hroot. split.
  - intros layer Hl. rewrite (add_level_within _ _ _ _ _ Hl). split.
    + intros Hc. rewrite layer_add_present by exact Hc. reflexivity.
    + intros Hc. pose proof (layer_add_fresh h layer dep Hc) as Hadd.
      rewrite Hadd. simpl. eexists. split; [reflexivity|].
      split; [|split].
      * apply list_lookup_insert_eq. eapply lookup_lt_Some, Hl.
      * reflexivity.
      * eapply layer_get_added, Hadd.
  - intros Hle. rewrite add_level_beyond by exact Hle.
    eexists. split; [reflexivity|]. simpl. split; [reflexivity|]. split.
    + rewrite lookup_app_r by lia. rewrite Nat.sub_diag. reflexivity.
    + intros Hlt.
      assert (Hnone : (Graph._layers g
                ++ [{| Layer.level := k; Layer._mapping := [(name (h dep), dep)] |}])
                !! k = None).
      { apply lookup_ge_None. rewrite length_app. simpl. lia. }
      split; [exact Hnone|].
      unfold Graph.get_layer_level; simpl. rewrite Hnone. reflexivity.
Qed.

Lemma Graph_add_explicit_level_witness :
  exists g',
    Graph.add sample
      {| Graph._roots := [0];
         Graph._layers := [ {| Layer.level := 0; Layer._mapping := [("app", 0)] |} ];
         Graph.conflict := None |} 1 (Some 1) = Ok g'
    /\ Graph._layers g' !! 1 = Some {| Layer.level := 1; Layer._mapping := [("a", 1)] |}.
Proof.
  destruct (Graph_add_explicit_level sample
      {| Graph._roots := [0];
         Graph._layers := [ {| Layer.level := 0; Layer._mapping := [("app", 0)] |} ];
         Graph.conflict := None |} 1 1 eq_refl) as [_ H].
  destruct H as (g' & H1 & H2 & H3 & _); [simpl; lia|].
  exists g'. split; [exact H1 | exact H3].
Defined.

(** C7, counterexample: from a graph of one layer, [add(a, level=3)]
    succeeds and leaves no layer at index 3. *)
Lemma Graph_add_level_beyond_end_misses_index :
  exists g g',
    Graph.init sample (Some 0) = Ok g
    /\ is_root (sample 1) = false
    /\ length (Graph._layers g) = 1
    /\ Graph.add sample g 1 (Some 3) = Ok g'
    /\ Graph._layers g' !! 3 = None
    /\ Graph.get_layer_level g' 3 = Raise IndexError
    /\ Graph._layers g' !! 1
       = Some {| Layer.level := 3; Layer._mapping := [("a", 1)] |}.
Proof.
  eexists. eexists. split; [vm_compute; reflexivity|].
  split; [reflexivity|]. split; [reflexivity|].
  split; [vm_compute; reflexivity|]. repeat split.
Qed.

(** ** Adding below the first parent *)

Lemma name_in_true x xs : name_in x xs = true <-> x ∈ xs.
Proof.
  unfold name_in. rewrite existsb_exists. split.
  - intros (y & Hy & E). apply String.eqb_eq in E. subst y.
    apply list_elem_of_In, Hy.
  - intros Hx. exists x. split; [apply list_elem_of_In, Hx | apply String.eqb_refl].
Qed.

Lemma holds_parent_scan h dep layer :
  existsb (fun parent => name_in (name (h parent)) (sources (h dep)))
          (Layer.iter layer) = true
  <-> holds_parent h dep layer.
Proof.
  unfold holds_parent. rewrite existsb_exists.
  split; intros (parent & Hin & Hn); exists parent.
  - apply name_in_true in Hn. apply list_elem_of_In in Hin. auto.
  - rewrite name_in_true, <- list_elem_of_In. auto.
Qed.

Lemma find_first {A} (f : A -> bool) (l : list A) (d : nat) (x : A) :
  l !! d = Some x -> f x = true ->
  (forall i y, i < d -> l !! i = Some y -> f y = false) ->
  List.find f l = Some x.
Proof.
  revert d. induction l as [|a l IH]; intros d Hd Hx Hbefore; [discriminate|].
  destruct d as [|d]; simpl in *.
  - injection Hd as ->. rewrite Hx. reflexivity.
  - rewrite (Hbefore 0 a) by (simpl; auto; lia).
    apply (IH d Hd Hx). intros i y Hi Hy. apply (Hbefore (S i) y); [lia | exact Hy].
Qed.

Lemma find_nowhere {A} (f : A -> bool) (l : list A) :
  (forall i y, l !! i = Some y -> f y = false) -> List.find f l = None.
Proof.
  induction l as [|a l IH]; intros H; simpl; [reflexivity|].
  rewrite (H 0 a) by reflexivity. apply IH. intros i y Hy. apply (H (S i) y Hy).
Qed.

Lemma not_true_false (b : bool) (P : Prop) : (b = true <-> P) -> ~ P -> b = false.
Proof. destruct b; intuition. Qed.

Lemma levels_are_indices_insert g k layer layer' :
  levels_are_indices g ->
  Graph._layers g !! k = Some layer -> Layer.level layer' = Layer.level layer ->
  levels_are_indices (Graph.with_layers g (<[k := layer']> (Graph._layers g))).
Proof.
  intros Hwf Hk Hlvl i l. simpl. destruct (decide (i = k)) as [->|Hne].
  - rewrite list_lookup_insert_eq by (eapply lookup_lt_Some, Hk).
    intros [= <-]. rewrite Hlvl. apply Hwf, Hk.
  - rewrite list_lookup_insert_ne by congruence. apply Hwf.
Qed.

Lemma levels_are_indices_append g layer :
  levels_are_indices g -> Layer.level layer = length (Graph._layers g) ->
  levels_are_indices (Graph.with_layers g (Graph._layers g ++ [layer])).
Proof.
  intros Hwf Hlvl i l. simpl. intros Hl.
  apply lookup_app_Some in Hl as [Hl|[Hge Hl]]; [apply Hwf, Hl|].
  destruct (i - length (Graph._layers g)) as [|n] eqn:E; simpl in Hl; [|discriminate].
  injection Hl as <-. lia.
Qed.

(** C6, as the code has it.  [add] without a level fails with the orphan
    [KeyError] when no layer holds a contributing parent of the dependency.
    Otherwise, with [layer_d] the first layer that holds one, it is [add]
    at the level [layer_d.level + 1], the label of that layer plus one,
    used as an index: when there is a layer at that index the dependency is
    added to it (and the call fails when it has the name already); when
    there is none, a layer with that label, holding the dependency alone,
    is appended.  On a graph whose layers are labelled by their indices the
    label of [layer_d] is its index [d], the dependency is stored in layer
    [d + 1], and the layers are still labelled by their indices. *)
Theorem Graph_add_below_first_parent (h : heap) (g : Graph.t) (dep : ref) :
  is_root (h dep) = false ->
  ((forall i layer, Graph._layers g !! i = Some layer -> ~ holds_parent h dep layer) ->
     Graph.add h g dep None = Raise OrphanDependencyError)
  /\ (forall d layer_d,
        Graph._layers g !! d = Some layer_d ->
        holds_parent h dep layer_d ->
        (forall i layer,
            i < d -> Graph._layers g !! i = Some layer -> ~ holds_parent h dep layer) ->
        Graph.add h g dep None = Graph.add h g dep (Some (Layer.level layer_d + 1))
        /\ (forall layer,
              Graph._layers g !! (Layer.level layer_d + 1) = Some layer ->
              (Layer.contains h layer dep = true ->
               Graph.add h g dep None = Raise DuplicateNameError)
              /\ (Layer.contains h layer dep = false ->
                  Graph.add h g dep None
                  = Ok (Graph.with_layers g
                          (<[Layer.level layer_d + 1 :=
                               {| Layer.level := Layer.level layer;
                                  Layer._mapping :=
                                    Layer._mapping layer ++ [(name (h dep), dep)] |}]>
                             (Graph._layers g)))))
        /\ (length (Graph._layers g) <= Layer.level layer_d + 1 ->
            Graph.add h g dep None
            = Ok (Graph.with_layers g
                    (Graph._layers g
                       ++ [{| Layer.level := Layer.level layer_d + 1;
                              Layer._mapping := [(name (h dep), dep)] |}])))
        /\ (levels_are_indices g ->
            Layer.level layer_d = d
            /\ forall g',
                 Graph.add h g dep None = Ok g' ->
                 levels_are_indices g'
                 /\ exists layer',
                      Graph._layers g' !! (d + 1) = Some layer'
                      /\ Layer.level layer' = d + 1
                      /\ Layer.get layer' (name (h dep)) = Some dep
                      /\ (forall i, i <> d + 1 ->
                                    Graph._layers g' !! i = Graph._layers g !! i))).
Proof.
  intros Hroot. unfold Graph.add. rewrite Hroot. split.
  - intros Hnone. unfold Graph.find_parent_layer.
    rewrite find_nowhere; [reflexivity|].
    intros i layer Hl. eapply not_true_false; [apply holds_parent_scan|].
    eapply Hnone, Hl.
  - intros d layer_d Hd Hpar Hbefore.
    assert (Hfind : Graph.find_parent_layer h (sources (h dep)) (Graph._layers g)
                    = Some layer_d).
    { unfold Graph.find_parent_layer. apply (find_first _ _ d); [exact Hd| |].
      - apply holds_parent_scan, Hpar.
      - intros i layer Hi Hl. eapply not_true_false; [apply holds_parent_scan|].
        eapply Hbefore; eauto. }
    rewrite Hfind. split; [reflexivity|]. split; [|split].
    + intros layer Hl. rewrite (add_level_within _ _ _ _ _ Hl). split; intros Hc.
      * rewrite layer_add_present by exact Hc. reflexivity.
      * rewrite layer_add_fresh by exact Hc. reflexivity.
    + intros Hlen. apply add_level_beyond, Hlen.
    + intros Hwf. pose proof (Hwf _ _ Hd) as Hlvl. split; [exact Hlvl|].
      rewrite Hlvl. intros g' Hadd.
      destruct (Graph._layers g !! (d + 1)) as [layer|] eqn:Hl.
      * rewrite (add_level_within _ _ _ _ _ Hl) in Hadd.
        destruct (Layer.add h layer dep) as [layer'|e] eqn:Hla; [|discriminate].
        injection Hadd as <-. split.
        -- eapply levels_are_indices_insert; eauto.
           eapply layer_level_added, Hla.
        -- exists layer'. simpl.
           split; [apply list_lookup_insert_eq; eapply lookup_lt_Some, Hl|].
           split; [rewrite (layer_level_added _ _ _ _ Hla); apply Hwf, Hl|].
           split; [eapply layer_get_added, Hla|].
           intros i Hi. apply list_lookup_insert_ne. congruence.
      * apply lookup_ge_None in Hl.
        assert (Hlen : length (Graph._layers g) = d + 1).
        { apply lookup_lt_Some in Hd. lia. }
        rewrite add_level_beyond in Hadd by lia. injection Hadd as <-. split.
        -- apply levels_are_indices_append; [exact Hwf|]. simpl. lia.
        -- eexists. simpl.
           split; [rewrite lookup_app_r by lia;
                   replace (d + 1 - length (Graph._layers g)) with 0 by lia;
                   reflexivity|].
           split; [reflexivity|].
           split; [unfold Layer.get; simpl; rewrite String.eqb_refl; reflexivity|].
           intros i Hi. destruct (decide (i < d + 1)).
           ++ rewrite lookup_app_l by lia. reflexivity.
           ++ rewrite !(proj2 (lookup_ge_None _ _)); [reflexivity|lia|].
              rewrite length_app. simpl. lia.
Qed.

Lemma Graph_add_below_first_parent_witness :
  Graph.add sample
    {| Graph._roots := [0];
       Graph._layers := [ {| Layer.level := 0; Layer._mapping := [("app", 0)] |};
                          {| Layer.level := 2; Layer._mapping := [("a", 1)] |};
                          {| Layer.level := 5; Layer._mapping := [("c", 3)] |};
                          {| Layer.level := 5; Layer._mapping := [("c", 4)] |} ];
       Graph.conflict := None |} 2 None
  = Ok {| Graph._roots := [0];
          Graph._layers := [ {| Layer.level := 0; Layer._mapping := [("app", 0)] |};
                             {| Layer.level := 2; Layer._mapping := [("a", 1)] |};
                             {| Layer.level := 5; Layer._mapping := [("c", 3)] |};
                             {| Layer.level := 5;
                                Layer._mapping := [("c", 4); ("b", 2)] |} ];
          Graph.conflict := None |}.
Proof.
  destruct (Graph_add_below_first_parent sample
      {| Graph._roots := [0];
         Graph._layers := [ {| Layer.level := 0; Layer._mapping := [("app", 0)] |};
                            {| Layer.level := 2; Layer._mapping := [("a", 1)] |};
                            {| Layer.level := 5; Layer._mapping := [("c", 3)] |};
                            {| Layer.level := 5; Layer._mapping := [("c", 4)] |} ];
         Graph.conflict := None |} 2 eq_refl) as [_ H].
  destruct (H 1 {| Layer.level := 2; Layer._mapping := [("a", 1)] |} eq_refl)
    as (_ & H2 & _).
  - exists 1. split; simpl; apply list_elem_of_here.
  - intros i layer Hi Hl Hp. apply holds_parent_scan in Hp.
    destruct i as [|i]; [|lia]. injection Hl as <-. discriminate Hp.
  - exact (proj2 (H2 {| Layer.level := 5; Layer._mapping := [("c", 4)] |} eq_refl)
                 eq_refl).
Defined.

(** C6, counterexample: in a graph built by [add] whose layers are labelled
    0, 2, 5, 5, the first layer that holds a contributing parent of [b] is
    the layer at index 1, labelled 2.  [add(b)] stores [b] in the layer at
    index 3, labelled 5, and in no other: neither at index 2, nor in a
    layer labelled 2 or 3. *)
Lemma Graph_add_follows_label_as_index :
  exists g g' layer_d,
    sample_gapped_graph = Ok g
    /\ is_root (sample 2) = false
    /\ Graph._layers g !! 1 = Some layer_d
    /\ Layer.level layer_d = 2
    /\ holds_parent sample 2 layer_d
    /\ (forall i layer,
          i < 1 -> Graph._layers g !! i = Some layer -> ~ holds_parent sample 2 layer)
    /\ Graph.add sample g 2 None = Ok g'
    /\ forall i layer,
         Graph._layers g' !! i = Some layer ->
         Layer.contains sample layer 2 = true -> i = 3 /\ Layer.level layer = 5.
Proof.
  eexists. eexists. eexists.
  split; [vm_compute; reflexivity|]. split; [reflexivity|].
  split; [reflexivity|]. split; [reflexivity|].
  split; [exists 1; split; simpl; apply list_elem_of_here|].
  split.
  - intros i layer Hi Hl Hp. apply holds_parent_scan in Hp.
    destruct i as [|i]; [|lia]. injection Hl as <-. discriminate Hp.
  - split; [vm_compute; reflexivity|].
    intros i layer Hl Hc.
    do 4 (destruct i as [|i]; [injection Hl as <-; first [discriminate Hc | split; reflexivity]|]).
    discriminate Hl.
Qed.

(** ** Descendants *)

Lemma get_children_unfold depth h g dep :
  Graph.get_children (S depth) h g dep =
  if negb (locked (h dep)) then Ok []
  else fold_left (children_step depth h g) (dependencies (h dep)) (Ok []).
Proof. reflexivity. Qed.

Lemma children_fold_raise depth h g l e :
  fold_left (children_step depth h g) l (Raise e) = Raise e.
Proof. induction l as [|c l IH]; simpl; auto. Qed.

Lemma children_step_only_recursion depth h g acc child :
  (forall c, only_recursion (Graph.get_children depth h g c)) ->
  only_recursion acc -> only_recursion (children_step depth h g acc child).
Proof.
  intros Hrec Hacc e. unfold children_step.
  destruct acc as [result|e0]; simpl; [|intros [= <-]; apply Hacc; reflexivity].
  destruct (Graph.get_layer h g child); [|discriminate].
  destruct (Graph.get_children depth h g child) as [sub|e1] eqn:E; simpl;
    [discriminate|].
  intros [= <-]. eapply Hrec, E.
Qed.

Lemma children_fold_only_recursion depth h g l acc :
  (forall c, only_recursion (Graph.get_children depth h g c)) ->
  only_recursion acc -> only_recursion (fold_left (children_step depth h g) l acc).
Proof.
  intros Hrec. revert acc. induction l as [|c l IH]; simpl; intros acc Hacc; [exact Hacc|].
  apply IH, children_step_only_recursion; assumption.
Qed.

Lemma get_children_only_recursion depth h g dep :
  only_recursion (Graph.get_children depth h g dep).
Proof.
  revert dep. induction depth as [|depth IH]; intros dep.
  - intros e [= <-]. reflexivity.
  - rewrite get_children_unfold. destruct (negb (locked (h dep))); [discriminate|].
    apply children_fold_only_recursion; [exact IH | discriminate].
Qed.

Lemma children_fold_reaches depth h g l child acc :
  child ∈ l ->
  Graph.get_layer h g child <> None ->
  Graph.get_children depth h g child = Raise RecursionError ->
  only_recursion acc ->
  fold_left (children_step depth h g) l acc = Raise RecursionError.
Proof.
  intros Hin Hlayer Hchild. revert acc.
  induction l as [|c l IH]; intros acc Hacc; [apply elem_of_nil in Hin; contradiction|].
  simpl. apply elem_of_cons in Hin as [<-|Hin].
  - assert (E : children_step depth h g acc child = Raise RecursionError).
    { unfold children_step. destruct acc as [result|e]; simpl.
      - destruct (Graph.get_layer h g child); [|congruence].
        rewrite Hchild. reflexivity.
      - f_equal. apply Hacc. reflexivity. }
    rewrite E. apply children_fold_raise.
  - apply (IH Hin). apply children_step_only_recursion; [|exact Hacc].
    intros c0. apply get_children_only_recursion.
Qed.

(** C1, what the code does on a cycle.  When two locked dependencies of
    the graph list each other, [get_children] of either does not return at
    any recursion depth: every depth ends in [RecursionError].  *)
Theorem get_children_cycle_exhausts_depth (h : heap) (g : Graph.t) (a b : ref) :
  locked (h a) = true -> locked (h b) = true ->
  b ∈ dependencies (h a) -> a ∈ dependencies (h b) ->
  Graph.get_layer h g a <> None -> Graph.get_layer h g b <> None ->
  forall depth,
    Graph.get_children depth h g a = Raise RecursionError
    /\ Graph.get_children depth h g b = Raise RecursionError.
Proof.
  intros La Lb Hab Hba Ga Gb. induction depth as [|depth [IHa IHb]].
  - split; reflexivity.
  - rewrite !get_children_unfold, La, Lb. simpl. split.
    + apply (children_fold_reaches _ _ _ _ b); auto. discriminate.
    + apply (children_fold_reaches _ _ _ _ a); auto. discriminate.
Qed.

Lemma get_children_cycle_exhausts_depth_witness :
  exists g,
    sample_graph = Ok g
    /\ Graph.get_children 1000 sample g 1 = Raise RecursionError.
Proof.
  eexists. split; [vm_compute; reflexivity|].
  apply (get_children_cycle_exhausts_depth sample _ 1 2);
    try reflexivity; try discriminate; simpl; apply list_elem_of_here.
Defined.

(** ** Ancestors *)

Lemma fold_left_either {A B} (f : B -> A -> B) (P : B -> Prop) (Q : A -> Prop)
    (l : list A) :
  (forall b a, a ∈ l -> (P (f b a) <-> P b \/ Q a)) ->
  forall b, P (fold_left f l b) <-> P b \/ exists a, a ∈ l /\ Q a.
Proof.
  induction l as [|x l IH]; intros Hf b; simpl.
  - split; [auto|]. intros [H|(a & Ha & _)]; [exact H|].
    apply elem_of_nil in Ha. contradiction.
  - rewrite IH by (intros b' a Ha; apply Hf, list_elem_of_further, Ha).
    rewrite Hf by apply list_elem_of_here. split.
    + intros [[H|H]|(a & Ha & Hq)]; auto.
      * right. exists x. split; [apply list_elem_of_here | exact H].
      * right. exists a. split; [apply list_elem_of_further, Ha | exact Hq].
    + intros [H|(a & Ha & Hq)]; auto.
      apply elem_of_cons in Ha as [->|Ha]; auto.
      right. exists a. auto.
Qed.

Lemma fold_left_invariant {A B} (f : B -> A -> B) (I : B -> Prop) (l : list A) :
  (forall b a, a ∈ l -> I b -> I (f b a)) ->
  forall b, I b -> I (fold_left f l b).
Proof.
  induction l as [|x l IH]; intros Hf b Hb; simpl; [exact Hb|].
  apply IH.
  - intros b' a Ha. apply Hf, list_elem_of_further, Ha.
  - apply Hf; [apply list_elem_of_here | exact Hb].
Qed.

Lemma dict_set_Forall {V} (P : string * V -> Prop) k v (d : PyDict.dict V) :
  Forall P d -> P (k, v) -> Forall P (PyDict.set k v d).
Proof.
  intros Hd Hkv. induction Hd as [|[k' v'] d Hx Hd IH]; simpl.
  - constructor; [exact Hkv | constructor].
  - destruct (String.eqb_spec k k') as [->|Hne]; constructor; auto.
Qed.

Lemma dict_update_Forall {V} (P : string * V -> Prop) (d other : PyDict.dict V) :
  Forall P d -> Forall P other -> Forall P (PyDict.update d other).
Proof.
  intros Hd Ho. unfold PyDict.update. apply fold_left_invariant; [|exact Hd].
  intros b [k v] Hin Hb. apply dict_set_Forall; [exact Hb|].
  rewrite Forall_forall in Ho. apply Ho, Hin.
Qed.

Lemma lists_child_true h parent dep avoid :
  Graph.lists_child h parent dep avoid = true <->
  exists c, c ∈ dependencies (h parent)
            /\ name (h c) = name (h dep) /\ name (h c) ∉ avoid.
Proof.
  unfold Graph.lists_child. rewrite existsb_exists.
  split; intros (c & Hc & H); exists c.
  - apply andb_true_iff in H as [H1 H2]. apply String.eqb_eq in H1.
    apply negb_true_iff in H2. split; [apply list_elem_of_In, Hc|].
    split; [exact H1|]. intros Hin. apply name_in_true in Hin. congruence.
  - destruct H as (H1 & H2). split; [apply list_elem_of_In, Hc|].
    apply andb_true_iff. split; [apply String.eqb_eq, H1|].
    apply negb_true_iff. destruct (name_in (name (h c)) avoid) eqn:E; [|reflexivity].
    apply name_in_true in E. contradiction.
Qed.

Lemma direct_parents_mem h g deps avoid n :
  PyDict.mem n (Graph.direct_parents h g deps avoid) = true <->
  found_parent h g (fun x => x ∈ map (fun d => name (h d)) deps) (fun x => x ∈ avoid) n.
Proof.
  unfold Graph.direct_parents.
  rewrite (fold_left_either _ (fun d => PyDict.mem n d = true)
             (fun dep => exists layer, layer ∈ Graph._layers g /\
                exists parent, parent ∈ Layer.iter layer /\
                  (Graph.lists_child h parent dep avoid = true /\ name (h parent) = n))).
  - split.
    + intros [H|(dep & Hdep & layer & Hl & parent & Hp & Hc & Hn)]; [discriminate|].
      exists parent. split; [exists layer; auto|]. split; [exact Hn|].
      apply lists_child_true in Hc as (c & Hc & He & Ha).
      exists c. split; [exact Hc|]. split; [|exact Ha].
      rewrite He. apply list_elem_of_fmap. exists dep. auto.
    + intros (parent & (layer & Hl & Hp) & Hn & c & Hc & Hs & Ha).
      apply list_elem_of_fmap in Hs as (dep & He & Hdep).
      right. exists dep. split; [exact Hdep|]. exists layer. split; [exact Hl|].
      exists parent. split; [exact Hp|]. split; [|exact Hn].
      apply lists_child_true. exists c. auto.
  - intros b dep _.
    apply (fold_left_either _ (fun d => PyDict.mem n d = true)
             (fun layer => exists parent, parent ∈ Layer.iter layer /\
                  (Graph.lists_child h parent dep avoid = true /\ name (h parent) = n))).
    intros b' layer _.
    apply (fold_left_either _ (fun d => PyDict.mem n d = true)
             (fun parent =>
                Graph.lists_child h parent dep avoid = true /\ name (h parent) = n)).
    intros b'' parent _.
    destruct (Graph.lists_child h parent dep avoid) eqn:E.
    + rewrite dict_mem_set, orb_true_iff, String.eqb_eq. split.
      * intros [->|H]; auto.
      * intros [H|[_ ->]]; auto.
    + split; [auto|]. intros [H|[H _]]; [exact H | discriminate].
Qed.

Lemma direct_parents_entries h g deps avoid :
  Forall (graphed_entry h g) (Graph.direct_parents h g deps avoid).
Proof.
  unfold Graph.direct_parents.
  apply fold_left_invariant; [|constructor]. intros b dep _ Hb.
  apply fold_left_invariant; [|exact Hb]. intros b' layer Hl Hb'.
  apply fold_left_invariant; [|exact Hb']. intros b'' parent Hp Hb''.
  destruct (Graph.lists_child h parent dep avoid); [|exact Hb''].
  apply dict_set_Forall; [exact Hb''|]. split; [reflexivity|].
  exists layer. auto.
Qed.

Lemma keyed_values_names h (d : PyDict.dict ref) :
  Forall (fun kv => fst kv = name (h (snd kv))) d ->
  map (fun r => name (h r)) (PyDict.values d) = PyDict.keys d.
Proof.
  unfold PyDict.values, PyDict.keys.
  induction 1 as [|[k r] m Hk _ IH]; simpl in *; [reflexivity|].
  rewrite IH, Hk. reflexivity.
Qed.

Lemma found_parent_ext h g (S1 A1 S2 A2 : string -> Prop) n :
  (forall x, S1 x <-> S2 x) -> (forall x, A1 x <-> A2 x) ->
  found_parent h g S1 A1 n -> found_parent h g S2 A2 n.
Proof.
  intros HS HA (p & Hg & Hn & c & Hc & Hs & Ha).
  exists p. split; [exact Hg|]. split; [exact Hn|].
  exists c. split; [exact Hc|]. split; [apply HS, Hs|].
  intros H. apply Ha, HA, H.
Qed.

Lemma ancestor_name_ext h g (S1 A1 : string -> Prop) n :
  ancestor_name h g S1 A1 n ->
  forall S2 A2 : string -> Prop,
    (forall x, S1 x <-> S2 x) -> (forall x, A1 x <-> A2 x) ->
    ancestor_name h g S2 A2 n.
Proof.
  induction 1 as [S1 A1 n Hf | S1 A1 n _ IH]; intros S2 A2 HS HA.
  - apply ancestor_found. eapply found_parent_ext; eauto.
  - apply ancestor_further. apply IH.
    + intros x. split; apply found_parent_ext; firstorder.
    + intros x. rewrite HS, HA. reflexivity.
Qed.

Lemma ancestor_name_none h g (S1 A1 : string -> Prop) n :
  ancestor_name h g S1 A1 n -> (forall m, ~ found_parent h g S1 A1 m) -> False.
Proof.
  induction 1 as [S1 A1 n Hf | S1 A1 n _ IH]; intros Hnone.
  - exact (Hnone n Hf).
  - apply IH. intros m (p & _ & _ & c & _ & Hs & _). exact (Hnone _ Hs).
Qed.

Lemma get_parents_names depth h g :
  forall deps avoid res,
    Graph.get_parents depth h g deps avoid = Ok res ->
    forall n,
      PyDict.mem n res = true <->
      ancestor_name h g (fun x => x ∈ map (fun d => name (h d)) deps)
                    (fun x => x ∈ avoid) n.
Proof.
  induction depth as [|depth IH]; intros deps avoid res Hres n; [discriminate|].
  simpl in Hres.
  pose proof (direct_parents_mem h g deps avoid) as Hmem.
  pose proof (direct_parents_entries h g deps avoid) as Hent.
  destruct (Graph.direct_parents h g deps avoid) as [|kv ps].
  - injection Hres as <-. split; [discriminate|].
    intros H. exfalso. apply (ancestor_name_none _ _ _ _ _ H).
    intros m Hm. apply Hmem in Hm. discriminate.
  - destruct (Graph.get_parents depth h g (PyDict.values (kv :: ps))
                (avoid ++ map (fun dep => name (h dep)) deps)) as [sub|e] eqn:Hsub;
      simpl in Hres; [|discriminate].
    injection Hres as <-.
    assert (Hkeys : forall x,
               x ∈ map (fun d => name (h d)) (PyDict.values (kv :: ps)) <->
               found_parent h g (fun x => x ∈ map (fun d => name (h d)) deps)
                            (fun x => x ∈ avoid) x).
    { intros x. rewrite keyed_values_names, <- dict_mem_true; [apply Hmem|].
      eapply Forall_impl; [exact Hent|]. intros kv' [H _]. exact H. }
    rewrite dict_mem_update, orb_true_iff, Hmem, (IH _ _ _ Hsub). split.
    + intros [H|H]; [apply ancestor_found, H|].
      apply ancestor_further. apply (ancestor_name_ext _ _ _ _ _ H); [exact Hkeys|].
      intros x. apply elem_of_app.
    + intros H. inversion H as [S1 A1 n1 Hf | S1 A1 n1 Hf]; subst; [left; exact Hf|].
      right. apply (ancestor_name_ext _ _ _ _ _ Hf).
      * intros x. symmetry. apply Hkeys.
      * intros x. symmetry. apply elem_of_app.
Qed.

Lemma get_parents_entries depth h g :
  forall deps avoid res,
    Graph.get_parents depth h g deps avoid = Ok res ->
    Forall (graphed_entry h g) res.
Proof.
  induction depth as [|depth IH]; intros deps avoid res Hres; [discriminate|].
  simpl in Hres.
  pose proof (direct_parents_entries h g deps avoid) as Hent.
  destruct (Graph.direct_parents h g deps avoid) as [|kv ps].
  - injection Hres as <-. constructor.
  - destruct (Graph.get_parents depth h g (PyDict.values (kv :: ps))
                (avoid ++ map (fun dep => name (h dep)) deps)) as [sub|e] eqn:Hsub;
      simpl in Hres; [|discriminate].
    injection Hres as <-. apply dict_update_Forall; [exact Hent|].
    eapply IH, Hsub.
Qed.

Lemma name_in_app x l1 l2 : name_in x (l1 ++ l2) = name_in x l1 || name_in x l2.
Proof. apply existsb_app. Qed.

Lemma filter_length_lt {A} (f1 f2 : A -> bool) (l : list A) (x : A) :
  (forall y, f2 y = true -> f1 y = true) ->
  x ∈ l -> f1 x = true -> f2 x = false ->
  length (List.filter f2 l) < length (List.filter f1 l).
Proof.
  intros Himp Hin H1 H2.
  assert (Hle : forall l', length (List.filter f2 l') <= length (List.filter f1 l')).
  { induction l' as [|y l' IH]; simpl; [lia|].
    destruct (f2 y) eqn:E2; [rewrite (Himp y E2); simpl; lia|].
    destruct (f1 y); simpl; lia. }
  induction l as [|y l IH]; [apply elem_of_nil in Hin; contradiction|].
  apply elem_of_cons in Hin as [<-|Hin]; simpl.
  - rewrite H1, H2. simpl. specialize (Hle l). lia.
  - specialize (IH Hin). destruct (f2 y) eqn:E2; [rewrite (Himp y E2); simpl; lia|].
    destruct (f1 y); simpl; lia.
Qed.

Lemma found_parent_child_name h g (S1 A1 : string -> Prop) n :
  found_parent h g S1 A1 n ->
  exists x, x ∈ child_names h g /\ S1 x /\ ~ A1 x.
Proof.
  intros (p & (layer & Hl & Hp) & _ & c & Hc & Hs & Ha).
  exists (name (h c)). split; [|auto].
  unfold child_names. apply list_elem_of_In, in_flat_map. exists p. split.
  - apply list_elem_of_In, elem_of_concat. exists (Layer.iter layer).
    split; [exact Hp|]. apply list_elem_of_fmap. exists layer. auto.
  - apply list_elem_of_In, list_elem_of_fmap. exists c. auto.
Qed.

Lemma unavoided_decreases h g deps avoid n :
  found_parent h g (fun x => x ∈ map (fun d => name (h d)) deps)
               (fun x => x ∈ avoid) n ->
  unavoided h g (avoid ++ map (fun d => name (h d)) deps) < unavoided h g avoid.
Proof.
  intros Hf. apply found_parent_child_name in Hf as (x & Hx & Hs & Ha).
  unfold unavoided. apply (filter_length_lt _ _ _ x); [|exact Hx| |].
  - intros y. rewrite name_in_app, !negb_true_iff, orb_false_iff. tauto.
  - apply negb_true_iff. destruct (name_in x avoid) eqn:E; [|reflexivity].
    apply name_in_true in E. contradiction.
  - apply negb_false_iff. rewrite name_in_app. apply orb_true_iff. right.
    apply name_in_true, Hs.
Qed.

Lemma get_parents_returns depth h g :
  forall deps avoid,
    unavoided h g avoid < depth ->
    exists res, Graph.get_parents depth h g deps avoid = Ok res.
Proof.
  induction depth as [|depth IH]; intros deps avoid Hlt; [lia|].
  simpl.
  pose proof (direct_parents_mem h g deps avoid) as Hmem.
  destruct (Graph.direct_parents h g deps avoid) as [|kv ps]; [eauto|].
  assert (Hf : found_parent h g (fun x => x ∈ map (fun d => name (h d)) deps)
                 (fun x => x ∈ avoid) (fst kv)).
  { apply Hmem. unfold PyDict.mem. destruct kv as [k v]. simpl.
    rewrite String.eqb_refl. reflexivity. }
  apply unavoided_decreases in Hf.
  destruct (IH (PyDict.values (kv :: ps))
               (avoid ++ map (fun dep => name (h dep)) deps)) as [sub Hsub]; [lia|].
  rewrite Hsub. simpl. eauto.
Qed.

Lemma ancestor_ext h g (S1 A1 : string -> Prop) p :
  ancestor h g S1 A1 p ->
  forall S2 A2 : string -> Prop,
    (forall x, S1 x <-> S2 x) -> (forall x, A1 x <-> A2 x) ->
    ancestor h g S2 A2 p.
Proof.
  induction 1 as [S1 A1 p Hg (c & Hc & Hs & Ha) | S1 A1 p _ IH]; intros S2 A2 HS HA.
  - apply ancestor_direct; [exact Hg|]. exists c. split; [exact Hc|].
    split; [apply HS, Hs|]. intros H. apply Ha, HA, H.
  - apply ancestor_indirect. apply IH.
    + intros x. split; apply found_parent_ext; firstorder.
    + intros x. rewrite HS, HA. reflexivity.
Qed.

Lemma ancestor_graphed h g (S1 A1 : string -> Prop) p :
  ancestor h g S1 A1 p -> graphed g p.
Proof. induction 1; auto. Qed.

Lemma ancestor_name_iff h g (S1 A1 : string -> Prop) n :
  ancestor_name h g S1 A1 n <-> exists p, ancestor h g S1 A1 p /\ name (h p) = n.
Proof.
  split.
  - induction 1 as [S1 A1 n (p & Hg & Hn & Hl) | S1 A1 n _ (p & Hp & Hn)].
    + exists p. split; [apply ancestor_direct; assumption | exact Hn].
    + exists p. split; [apply ancestor_indirect, Hp | exact Hn].
  - intros (p & Hp & Hn). revert n Hn.
    induction Hp as [S1 A1 p Hg Hl | S1 A1 p _ IH]; intros n Hn.
    + apply ancestor_found. exists p. auto.
    + apply ancestor_further, IH, Hn.
Qed.

Lemma direct_parents_ancestors h g deps avoid :
  Forall (ancestor_entry h g (fun x => x ∈ map (fun d => name (h d)) deps)
                         (fun x => x ∈ avoid))
         (Graph.direct_parents h g deps avoid).
Proof.
  unfold Graph.direct_parents.
  apply (fold_left_invariant _
           (Forall (ancestor_entry h g (fun x => x ∈ map (fun d => name (h d)) deps)
                                   (fun x => x ∈ avoid)))); [|constructor].
  intros b dep Hdep Hb.
  apply fold_left_invariant; [|exact Hb]. intros b' layer Hl Hb'.
  apply fold_left_invariant; [|exact Hb']. intros b'' parent Hp Hb''.
  destruct (Graph.lists_child h parent dep avoid) eqn:E; [|exact Hb''].
  apply dict_set_Forall; [exact Hb''|]. split; [reflexivity|]. simpl.
  apply ancestor_direct; [exists layer; auto|].
  apply lists_child_true in E as (c & Hc & He & Ha).
  exists c. split; [exact Hc|]. split; [|exact Ha].
  rewrite He. apply list_elem_of_fmap. exists dep. auto.
Qed.

Lemma get_parents_ancestors depth h g :
  forall deps avoid res,
    Graph.get_parents depth h g deps avoid = Ok res ->
    Forall (ancestor_entry h g (fun x => x ∈ map (fun d => name (h d)) deps)
                           (fun x => x ∈ avoid)) res.
Proof.
  induction depth as [|depth IH]; intros deps avoid res Hres; [discriminate|].
  simpl in Hres.
  pose proof (direct_parents_mem h g deps avoid) as Hmem.
  pose proof (direct_parents_entries h g deps avoid) as Hent.
  pose proof (direct_parents_ancestors h g deps avoid) as Hanc.
  destruct (Graph.direct_parents h g deps avoid) as [|kv ps].
  - injection Hres as <-. constructor.
  - destruct (Graph.get_parents depth h g (PyDict.values (kv :: ps))
                (avoid ++ map (fun dep => name (h dep)) deps)) as [sub|e] eqn:Hsub;
      simpl in Hres; [|discriminate].
    injection Hres as <-.
    assert (Hkeys : forall x,
               x ∈ map (fun d => name (h d)) (PyDict.values (kv :: ps)) <->
               found_parent h g (fun x => x ∈ map (fun d => name (h d)) deps)
                            (fun x => x ∈ avoid) x).
    { intros x. rewrite keyed_values_names, <- dict_mem_true; [apply Hmem|].
      eapply Forall_impl; [exact Hent|]. intros kv' [H _]. exact H. }
    apply dict_update_Forall; [exact Hanc|].
    eapply Forall_impl; [eapply IH, Hsub|].
    intros kv' [Hk Ha]. split; [exact Hk|].
    apply ancestor_indirect. apply (ancestor_ext _ _ _ _ _ Ha); [exact Hkeys|].
    intros x. apply elem_of_app.
Qed.

Lemma dict_mem_get {V} n (d : PyDict.dict V) :
  PyDict.mem n d = true -> exists v, PyDict.get n d = Some v.
Proof.
  unfold PyDict.mem, PyDict.get.
  induction d as [|[k v] d IH]; simpl; [discriminate|].
  destruct (String.eqb n k); eauto.
Qed.

(** C8, as the code has it.  Given enough recursion depth (more than the
    number of child names in the graph), [get_parents] returns a
    dictionary of ancestors: of graphed dependencies that list a child
    whose name is the name of one of [deps] and is not in [avoid], or that
    the search repeated on the parents found, with the names of [deps]
    added to [avoid], finds.  The keys are exactly the names of the
    ancestors; each value is itself an ancestor, stored under its own
    name; every ancestor has its name among the keys, and is the value
    stored there when no other graphed dependency has its name. *)
Theorem get_parents_ancestor_names (h : heap) (g : Graph.t) (deps : list ref)
    (avoid : list string) (depth : nat) :
  length (child_names h g) < depth ->
  exists res,
    Graph.get_parents depth h g deps avoid = Ok res
    /\ (forall n,
          PyDict.mem n res = true <->
          exists p, ancestor h g (fun x => x ∈ map (fun d => name (h d)) deps)
                             (fun x => x ∈ avoid) p
                    /\ name (h p) = n)
    /\ (forall n p,
          PyDict.get n res = Some p ->
          name (h p) = n /\ graphed g p
          /\ ancestor h g (fun x => x ∈ map (fun d => name (h d)) deps)
                      (fun x => x ∈ avoid) p)
    /\ (forall p,
          ancestor h g (fun x => x ∈ map (fun d => name (h d)) deps)
                   (fun x => x ∈ avoid) p ->
          exists q, PyDict.get (name (h p)) res = Some q
                    /\ (only_of_its_name h g p -> q = p)).
Proof.
  intros Hdepth.
  destruct (get_parents_returns depth h g deps avoid) as [res Hres].
  { unfold unavoided. pose proof (List.filter_length_le
      (fun u => negb (name_in u avoid)) (child_names h g)). lia. }
  pose proof (get_parents_names _ _ _ _ _ _ Hres) as Hnames.
  pose proof (get_parents_ancestors _ _ _ _ _ _ Hres) as Hanc.
  rewrite Forall_forall in Hanc.
  assert (Hval : forall n p,
             PyDict.get n res = Some p ->
             name (h p) = n /\ graphed g p
             /\ ancestor h g (fun x => x ∈ map (fun d => name (h d)) deps)
                         (fun x => x ∈ avoid) p).
  { intros n p Hget. apply dict_get_elem in Hget.
    destruct (Hanc _ Hget) as [H1 H2]. simpl in *.
    split; [auto|]. split; [eapply ancestor_graphed, H2 | exact H2]. }
  exists res. split; [exact Hres|]. split; [|split].
  - intros n. rewrite Hnames. apply ancestor_name_iff.
  - exact Hval.
  - intros p Hp.
    destruct (dict_mem_get (name (h p)) res) as [q Hq].
    { apply Hnames, ancestor_name_iff. exists p. auto. }
    exists q. split; [exact Hq|]. intros Honly.
    destruct (Hval _ _ Hq) as (Hn & Hg & _). apply Honly; assumption.
Qed.

Lemma get_parents_ancestor_names_witness :
  exists res,
    Graph.get_parents 4 sample
      {| Graph._roots := [0];
         Graph._layers := [ {| Layer.level := 0; Layer._mapping := [("app", 0)] |};
                            {| Layer.level := 1; Layer._mapping := [("a", 1)] |};
                            {| Layer.level := 2; Layer._mapping := [("b", 2)] |} ];
         Graph.conflict := None |} [2] [] = Ok res
    /\ forall n p, PyDict.get n res = Some p -> name (sample p) = n.
Proof.
  destruct (get_parents_ancestor_names sample
      {| Graph._roots := [0];
         Graph._layers := [ {| Layer.level := 0; Layer._mapping := [("app", 0)] |};
                            {| Layer.level := 1; Layer._mapping := [("a", 1)] |};
                            {| Layer.level := 2; Layer._mapping := [("b", 2)] |} ];
         Graph.conflict := None |} [2] [] 4) as (res & H1 & _ & H3 & _).
  - simpl. lia.
  - exists res. split; [exact H1|]. intros n p Hget. apply (H3 n p Hget).
Defined.

(** C8, counterexample: the parent [a] of [b] is returned although its own
    name is in [avoid]. *)
Lemma get_parents_returns_avoided_parent :
  exists g,
    sample_graph = Ok g
    /\ Graph.get_parents 4 sample g [2] ["a"] = Ok [("a", 1)]
    /\ name (sample 1) ∈ ["a"]
    /\ graphed g 1
    /\ 2 ∈ dependencies (sample 1).
Proof.
  eexists. split; [vm_compute; reflexivity|]. split; [reflexivity|].
  split; [apply list_elem_of_here|]. split; [|apply list_elem_of_here].
  eexists. split; [apply list_elem_of_further, list_elem_of_here|].
  apply list_elem_of_here.
Qed.

(** ** The matcher *)

Lemma lit_sound l : forall pos s pos' s',
  Re.lit l pos s = Some (pos', s') ->
  s = (l ++ s')%string /\ pos' = pos + String.length l.
Proof.
  induction l as [|x l IH]; simpl; intros pos s pos' s' H.
  - injection H as <- <-. split; [reflexivity | lia].
  - destruct s as [|a s]; [discriminate|].
    destruct (Ascii.eqb_spec x a) as [->|]; [|discriminate].
    apply IH in H as [-> ->]. split; [reflexivity | lia].
Qed.

Lemma rep_greedy_sound p k c m : forall s pos,
  Re.rep_greedy p pos s c k = Some m ->
  exists w s', all_chars p w = true /\ s = (w ++ s')%string
               /\ k (pos + String.length w) s' c = Some m.
Proof.
  induction s as [|a s IH]; simpl; intros pos H.
  - exists EmptyString, EmptyString. rewrite Nat.add_0_r. auto.
  - assert (Hhere : k pos (String a s) c = Some m ->
                    exists w s', all_chars p w = true
                      /\ String a s = (w ++ s')%string
                      /\ k (pos + String.length w) s' c = Some m).
    { intros Hk. exists EmptyString, (String a s). rewrite Nat.add_0_r. auto. }
    destruct (p a) eqn:Hp; [|auto].
    destruct (Re.rep_greedy p (S pos) s c k) as [m'|] eqn:E; [|auto].
    injection H as ->. apply IH in E as (w & s' & Hw & -> & Hk).
    exists (String a w), s'. simpl. rewrite Hp, Hw.
    replace (pos + S (String.length w)) with (S pos + String.length w) by lia. auto.
Qed.

Lemma rep_lazy_sound p k c m : forall s pos,
  Re.rep_lazy p pos s c k = Some m ->
  exists w s', all_chars p w = true /\ s = (w ++ s')%string
               /\ k (pos + String.length w) s' c = Some m.
Proof.
  induction s as [|a s IH]; simpl; intros pos H.
  - destruct (k pos EmptyString c) eqn:Hk; [|discriminate].
    exists EmptyString, EmptyString. rewrite Nat.add_0_r, Hk. auto.
  - destruct (k pos (String a s) c) eqn:Hk.
    + exists EmptyString, (String a s). rewrite Nat.add_0_r, Hk. auto.
    + destruct (p a) eqn:Hp; [|discriminate].
      apply IH in H as (w & s' & Hw & -> & Hk').
      exists (String a w), s'. simpl. rewrite Hp, Hw.
      replace (pos + S (String.length w)) with (S pos + String.length w) by lia. auto.
Qed.

Lemma rep_n_sound p k c m : forall n s pos,
  Re.rep_n p n pos s c k = Some m ->
  exists w s', String.length w = n /\ all_chars p w = true /\ s = (w ++ s')%string
               /\ k (pos + n) s' c = Some m.
Proof.
  induction n as [|n IH]; simpl; intros s pos H.
  - exists EmptyString, s. rewrite Nat.add_0_r. auto.
  - destruct s as [|a s]; [discriminate|].
    destruct (p a) eqn:Hp; [|discriminate].
    apply IH in H as (w & s' & Hl & Hw & -> & Hk).
    exists (String a w), s'. simpl. rewrite Hp, Hw, Hl.
    replace (pos + S n) with (S pos + n) by lia. auto.
Qed.

(** Whatever [run] returns comes from a match of the pattern followed by a
    success of the continuation. *)
Lemma run_sound r : forall pos s c k m,
  Re.run r pos s c k = Some m ->
  exists pos' s' c', re_matches r pos s c pos' s' c' /\ k pos' s' c' = Some m.
Proof.
  induction r as [l|p|p greedy|p n|r1 IH1 r2 IH2|r1 IH1 r2 IH2|r1 IH1|g r1 IH1| |];
    simpl; intros pos s c k m H.
  - destruct (Re.lit l pos s) as [[pos' s']|] eqn:E; [|discriminate].
    apply lit_sound in E as [-> ->]. eauto 10.
  - destruct s as [|a s]; [discriminate|].
    destruct (p a) eqn:Hp; [|discriminate]. eauto 10.
  - destruct s as [|a s]; [discriminate|].
    destruct (p a) eqn:Hp; [|discriminate].
    assert (Hw : exists w s', all_chars p w = true /\ s = (w ++ s')%string
                   /\ k (S pos + String.length w) s' c = Some m).
    { destruct greedy; [apply rep_greedy_sound | apply rep_lazy_sound]; exact H. }
    destruct Hw as (w & s' & Hw & -> & Hk).
    exists (pos + String.length (String a w)), s', c. split.
    + exists (String a w). simpl. rewrite Hp, Hw. repeat split. discriminate.
    + simpl. replace (pos + S (String.length w)) with (S pos + String.length w) by lia.
      exact Hk.
  - apply rep_n_sound in H as (w & s' & Hl & Hw & -> & Hk). eauto 10.
  - destruct (Re.run r1 pos s c k) as [m'|] eqn:E.
    + injection H as ->. apply IH1 in E as (pos' & s' & c' & Hm & Hk). eauto 10.
    + apply IH2 in H as (pos' & s' & c' & Hm & Hk). eauto 10.
  - apply IH1 in H as (pos1 & s1 & c1 & Hm1 & H).
    apply IH2 in H as (pos' & s' & c' & Hm2 & Hk). eauto 10.
  - destruct (Re.run r1 pos s c k) as [m'|] eqn:E.
    + injection H as ->. apply IH1 in E as (pos' & s' & c' & Hm & Hk). eauto 10.
    + eauto 10.
  - apply IH1 in H as (pos' & s' & c' & Hm & Hk). eauto 10.
  - destruct (Nat.eqb_spec pos 0) as [->|]; [|discriminate]. eauto 10.
  - destruct (Re.at_end s) eqn:E; [|discriminate]. eauto 10.
Qed.

Lemma string_app_assoc (a b c : string) : ((a ++ b) ++ c = a ++ (b ++ c))%string.
Proof. induction a as [|x a IH]; simpl; [reflexivity | rewrite IH; reflexivity]. Qed.

Lemma string_length_app (a b : string) :
  String.length (a ++ b) = String.length a + String.length b.
Proof. induction a as [|x a IH]; simpl; [reflexivity | rewrite IH; reflexivity]. Qed.

Lemma substring_prefix (w s : string) : substring 0 (String.length w) (w ++ s) = w.
Proof.
  induction w as [|x w IH]; simpl.
  - destruct s; reflexivity.
  - rewrite IH. reflexivity.
Qed.

(** A match consumes a prefix of the text. *)
Lemma re_matches_consumes r : forall pos s c pos' s' c',
  re_matches r pos s c pos' s' c' ->
  exists w, s = (w ++ s')%string /\ pos' = pos + String.length w.
Proof.
  induction r as [l|p|p greedy|p n|r1 IH1 r2 IH2|r1 IH1 r2 IH2|r1 IH1|g r1 IH1| |];
    simpl; intros pos s c pos' s' c' H.
  - destruct H as (-> & -> & _). eauto.
  - destruct H as (a & -> & _ & -> & _). exists (String a EmptyString).
    split; [reflexivity | simpl; lia].
  - destruct H as (w & _ & _ & -> & -> & _). eauto.
  - destruct H as (w & <- & _ & -> & -> & _). eauto.
  - destruct H as [H|H]; eauto.
  - destruct H as (pos1 & s1 & c1 & H1 & H2).
    apply IH1 in H1 as (w1 & -> & ->). apply IH2 in H2 as (w2 & -> & ->).
    exists (w1 ++ w2)%string. rewrite string_app_assoc, string_length_app.
    split; [reflexivity | lia].
  - destruct H as [H|(-> & -> & _)]; [eauto|].
    exists EmptyString. split; [reflexivity | simpl; lia].
  - destruct H as (c1 & H & _). eauto.
  - destruct H as (_ & -> & -> & _). exists EmptyString. split; [reflexivity | simpl; lia].
  - destruct H as (_ & -> & -> & _). exists EmptyString. split; [reflexivity | simpl; lia].
Qed.

(** A match leaves the captures of the groups it does not contain. *)
Lemma re_matches_keeps r g : forall pos s c pos' s' c',
  re_matches r pos s c pos' s' c' -> g ∉ re_groups r ->
  PyDict.get g c' = PyDict.get g c.
Proof.
  induction r as [l|p|p greedy|p n|r1 IH1 r2 IH2|r1 IH1 r2 IH2|r1 IH1|g' r1 IH1| |];
    simpl; intros pos s c pos' s' c' H Hg.
  - destruct H as (_ & _ & ->). reflexivity.
  - destruct H as (a & _ & _ & _ & ->). reflexivity.
  - destruct H as (w & _ & _ & _ & _ & ->). reflexivity.
  - destruct H as (w & _ & _ & _ & _ & ->). reflexivity.
  - apply not_elem_of_app in Hg as [Hg1 Hg2]. destruct H as [H|H]; eauto.
  - apply not_elem_of_app in Hg as [Hg1 Hg2].
    destruct H as (pos1 & s1 & c1 & H1 & H2).
    rewrite (IH2 _ _ _ _ _ _ H2 Hg2). eauto.
  - destruct H as [H|(_ & _ & ->)]; eauto.
  - apply not_elem_of_cons in Hg as [Hne Hg]. destruct H as (c1 & H & ->).
    rewrite dict_get_set_ne by congruence. eauto.
  - destruct H as (_ & _ & _ & ->). reflexivity.
  - destruct H as (_ & _ & _ & ->). reflexivity.
Qed.

(** A group captures the text its pattern consumed. *)
Lemma re_matches_group g r pos s c pos' s' c' :
  re_matches (Re.Group g r) pos s c pos' s' c' ->
  exists w, s = (w ++ s')%string /\ pos' = pos + String.length w
            /\ PyDict.get g c' = Some w
            /\ exists c1, re_matches r pos s c pos' s' c1.
Proof.
  intros (c1 & H & ->).
  destruct (re_matches_consumes _ _ _ _ _ _ _ H) as (w & -> & ->).
  exists w. repeat split; [|eauto].
  rewrite dict_get_set_eq. f_equal.
  replace (pos + String.length w - pos) with (String.length w) by lia.
  apply substring_prefix.
Qed.

(** ** Parsing a link *)

Lemma search_from_bol r : forall s pos,
  pos <> 0 -> Re.search_from (Re.Seq Re.Bol r) pos s = None.
Proof.
  induction s as [|a s IH]; intros pos Hpos; simpl;
    destruct (Nat.eqb_spec pos 0); try contradiction; auto.
Qed.

Lemma search_bol r s :
  Re.search (Re.Seq Re.Bol r) s = Re.run (Re.Seq Re.Bol r) 0 s [] (fun _ _ c => Some c).
Proof.
  unfold Re.search. destruct s as [|a s]; unfold Re.search_from; fold Re.search_from.
  - destruct (Re.run _ _ _ _ _); reflexivity.
  - destruct (Re.run _ _ _ _ _); [reflexivity|]. apply search_from_bol. discriminate.
Qed.

Ltac not_a_group :=
  simpl; repeat (apply not_elem_of_cons; split; [discriminate|]); apply not_elem_of_nil.

Lemma nonempty_of_length (w w' : string) :
  String.length w = String.length w' -> w' <> EmptyString -> w <> EmptyString.
Proof. destruct w, w'; simpl; congruence. Qed.

(** The shape of a link the pattern accepts, and the three groups that
    every match has. *)
Lemma rex_match_shape link m :
  Re.search VCSLink.rex link = Some m ->
  exists pre srv sep au pr post,
    link = (pre ++ srv ++ String sep (au ++ "/" ++ pr ++ post))%string
    /\ srv <> EmptyString /\ au <> EmptyString /\ pr <> EmptyString
    /\ Re.colon_or_slash sep = true
    /\ PyDict.get "server" m = Some srv
    /\ PyDict.get "author" m = Some au
    /\ PyDict.get "project" m = Some pr.
Proof.
  unfold VCSLink.rex. rewrite search_bol. intros H.
  apply run_sound in H as (pos' & s' & m' & H & [= ->]).
  destruct H as (p1 & s1 & c1 & H1 & H). apply re_matches_consumes in H1 as (w1 & -> & _).
  destruct H as (p2 & s2 & c2 & H2 & H). apply re_matches_consumes in H2 as (w2 & -> & _).
  destruct H as (p3 & s3 & c3 & H3 & H). apply re_matches_consumes in H3 as (w3 & -> & _).
  destruct H as (p4 & s4 & c4 & H4 & H). apply re_matches_consumes in H4 as (w4 & -> & _).
  destruct H as (p5 & s5 & c5 & Hserver & H).
  pose proof (re_matches_keeps _ "server" _ _ _ _ _ _ H ltac:(not_a_group)) as Kserver.
  apply re_matches_group in Hserver as (srv & -> & -> & Gserver & c0 & Hsrv).
  destruct Hsrv as (srv' & Nsrv & _ & _ & Esrv & _).
  destruct H as (p6 & s6 & c6 & (sep & -> & Hsep & -> & ->) & H).
  destruct H as (p7 & s7 & c7 & Hauthor & H).
  pose proof (re_matches_keeps _ "author" _ _ _ _ _ _ H ltac:(not_a_group)) as Kauthor.
  apply re_matches_group in Hauthor as (au & -> & -> & Gauthor & c0' & Hau).
  destruct Hau as (au' & Nau & _ & _ & Eau & _).
  destruct H as (p8 & s8 & c8 & (-> & -> & ->) & H).
  destruct H as (p9 & s9 & c9 & Hproject & H).
  pose proof (re_matches_keeps _ "project" _ _ _ _ _ _ H ltac:(not_a_group)) as Kproject.
  apply re_matches_group in Hproject as (pr & -> & -> & Gproject & c0'' & Hpr).
  destruct Hpr as (pr' & Npr & _ & _ & Epr & _).
  exists (w1 ++ w2 ++ w3 ++ w4)%string, srv, sep, au, pr, s9.
  split; [rewrite !string_app_assoc; reflexivity|].
  split; [apply (nonempty_of_length _ srv'); [lia | exact Nsrv]|].
  split; [apply (nonempty_of_length _ au'); [lia | exact Nau]|].
  split; [apply (nonempty_of_length _ pr'); [lia | exact Npr]|].
  split; [exact Hsep|].
  rewrite Kserver, Kauthor, Kproject. auto.
Qed.

Lemma get_without_none (names : list string) (m : Re.captures) (g : string) :
  g ∈ names ->
  PyDict.get g (VCSLink.without_none (map (fun n => (n, PyDict.get n m)) names))
  = option_map Some (PyDict.get g m).
Proof.
  assert (Hout : forall names', g ∉ names' \/ PyDict.get g m = None ->
            PyDict.get g (VCSLink.without_none
                            (map (fun n => (n, PyDict.get n m)) names')) = None).
  { induction names' as [|n names' IH]; simpl; intros Hg; [reflexivity|].
    destruct (PyDict.get n m) as [v|] eqn:E; simpl.
    - destruct (String.eqb_spec g n) as [->|Hne].
      + destruct Hg as [Hg|Hg]; [|congruence].
        exfalso. apply Hg, list_elem_of_here.
      + apply IH. destruct Hg as [Hg|Hg]; [left|right; exact Hg].
        intros Hin. apply Hg, list_elem_of_further, Hin.
    - destruct (String.eqb_spec g n) as [->|Hne]; apply IH; auto.
      destruct Hg as [Hg|Hg]; [left|right; exact Hg].
      intros Hin. apply Hg, list_elem_of_further, Hin. }
  induction names as [|n names IH]; intros Hin; [apply elem_of_nil in Hin; contradiction|].
  simpl. destruct (String.eqb_spec g n) as [->|Hne].
  - destruct (PyDict.get n m) as [v|] eqn:E; simpl.
    + rewrite String.eqb_refl. reflexivity.
    + apply Hout. right. reflexivity.
  - apply elem_of_cons in Hin as [Hin|Hin]; [contradiction|].
    destruct (PyDict.get n m) as [v|]; simpl.
    + destruct (String.eqb_spec g n); [contradiction|]. apply IH, Hin.
    + apply IH, Hin.
Qed.

Lemma has_required_set srv au pr d k v :
  has_required srv au pr d ->
  k <> "server" -> k <> "author" -> k <> "project" ->
  has_required srv au pr (PyDict.set k v d).
Proof.
  intros (H1 & H2 & H3) N1 N2 N3. unfold has_required.
  rewrite !dict_get_set_ne by assumption. auto.
Qed.

Lemma parse_of_match link vcs_ rev_ name_ m srv au pr :
  Re.search VCSLink.rex link = Some m ->
  PyDict.get "server" m = Some srv ->
  PyDict.get "author" m = Some au ->
  PyDict.get "project" m = Some pr ->
  exists l,
    VCSLink.parse link vcs_ rev_ name_ = Ok (Some l)
    /\ VCSLink.server l = Some srv
    /\ VCSLink.author l = Some au
    /\ VCSLink.project l = Some pr.
Proof.
  intros Hs Gs Ga Gp. unfold VCSLink.parse. rewrite Hs. cbv zeta.
  assert (H0 : has_required srv au pr (VCSLink.without_none (VCSLink.groupdict m))).
  { unfold has_required, VCSLink.groupdict.
    rewrite !get_without_none, Gs, Ga, Gp; [auto| | |];
      unfold VCSLink.group_names; repeat (first [apply list_elem_of_here
                                                | apply list_elem_of_further]). }
  set (d0 := VCSLink.without_none (VCSLink.groupdict m)) in *.
  set (d1 := if PyDict.mem "vcs" d0 then d0 else PyDict.set "vcs" (Some vcs_) d0).
  assert (H1 : has_required srv au pr d1).
  { subst d1. destruct (PyDict.mem "vcs" d0); [exact H0|].
    apply has_required_set; [exact H0| | |]; discriminate. }
  clearbody d1. clear H0 d0.
  assert (H2 : exists d2,
             (if PyDict.mem "name" d1 then Ok d1
              else match PyDict.get "project" d1 with
                   | Some project_ => Ok (PyDict.set "name" project_ d1)
                   | None => Raise (KeyError "project")
                   end) = Ok d2 /\ has_required srv au pr d2).
  { destruct (PyDict.mem "name" d1); [eauto|].
    destruct H1 as (Hs1 & Ha1 & Hp1). rewrite Hp1. eexists. split; [reflexivity|].
    apply has_required_set; [repeat split; assumption| | |]; discriminate. }
  destruct H2 as (d2 & -> & H2). simpl. clear H1 d1.
  set (d3 := if PyDict.mem "name" d2 then d2 else PyDict.set "name" name_ d2).
  assert (H3 : has_required srv au pr d3).
  { subst d3. destruct (PyDict.mem "name" d2); [exact H2|].
    apply has_required_set; [exact H2| | |]; discriminate. }
  clearbody d3. clear H2 d2.
  set (d4 := if VCSLink.truthy rev_ then PyDict.set "rev" rev_ d3 else d3).
  assert (H4 : has_required srv au pr d4).
  { subst d4. destruct (VCSLink.truthy rev_); [|exact H3].
    apply has_required_set; [exact H3| | |]; discriminate. }
  clearbody d4. clear H3 d3.
  destruct H4 as (Hs4 & Ha4 & Hp4). unfold VCSLink.cls. rewrite Hs4, Ha4, Hp4.
  simpl. eexists. split; [reflexivity|]. simpl. auto.
Qed.

(** C10. A link the pattern does not match parses to [None]; no link makes
    [parse] raise; and in a link that [parse] returns, [server], [author]
    and [project] are non-empty pieces of the input, in this order,
    [server] followed by [:] or [/] and [author] by [/]. *)
Theorem VCSLink_parse_none_or_populated (link vcs_ : string) (rev_ name_ : option string) :
  (Re.search VCSLink.rex link = None -> VCSLink.parse link vcs_ rev_ name_ = Ok None)
  /\ (forall e, VCSLink.parse link vcs_ rev_ name_ <> Raise e)
  /\ (forall self,
        VCSLink.parse link vcs_ rev_ name_ = Ok (Some self) ->
        Re.search VCSLink.rex link <> None
        /\ exists pre srv sep au pr post,
             link = (pre ++ srv ++ String sep (au ++ "/" ++ pr ++ post))%string
             /\ (sep = ":" \/ sep = "/")%char
             /\ srv <> EmptyString /\ au <> EmptyString /\ pr <> EmptyString
             /\ VCSLink.server self = Some srv
             /\ VCSLink.author self = Some au
             /\ VCSLink.project self = Some pr).
Proof.
  destruct (Re.search VCSLink.rex link) as [m|] eqn:Hs.
  - destruct (rex_match_shape _ _ Hs)
      as (pre & srv & sep & au & pr & post & Hl & Ns & Na & Np & Hsep & Gs & Ga & Gp).
    destruct (parse_of_match link vcs_ rev_ name_ m srv au pr Hs Gs Ga Gp)
      as (l & Hparse & Fs & Fa & Fp).
    rewrite Hparse. split; [discriminate|]. split; [discriminate|].
    intros self [= <-]. split; [discriminate|].
    exists pre, srv, sep, au, pr, post. repeat split; try assumption.
    unfold Re.colon_or_slash in Hsep. apply orb_true_iff in Hsep.
    destruct Hsep as [H|H]; apply Ascii.eqb_eq in H; auto.
  - unfold VCSLink.parse. rewrite Hs. split; [reflexivity|]. split; [discriminate|].
    discriminate.
Qed.

(** ** A link with a commit hash *)

#[local] Arguments Ascii.eqb !a !b : simpl nomatch.

Lemma hex_facts a :
  Re.hex a = true ->
  Re.dot a = true /\ Re.not_slash a = true /\ Re.colon_or_slash a = false
  /\ Ascii.eqb "@" a = false /\ Ascii.eqb "/" a = false.
Proof.
  destruct a as [[] [] [] [] [] [] [] []]; vm_compute; intros H;
    try discriminate H; repeat split.
Qed.

Lemma hex_dot a : Re.hex a = true -> Re.dot a = true.
Proof. intros H. apply hex_facts, H. Qed.

Lemma hex_not_slash a : Re.hex a = true -> Re.not_slash a = true.
Proof. intros H. apply hex_facts, H. Qed.

(** A greedy repetition over a text of [q]-characters fails when the rest
    of the pattern fails on every such text. *)
Lemma rep_greedy_none p q k c :
  (forall a, q a = true -> p a = true) ->
  (forall pos t, all_chars q t = true -> k pos t c = None) ->
  forall w pos, all_chars q w = true -> Re.rep_greedy p pos w c k = None.
Proof.
  intros Hqp Hk. induction w as [|a w IH]; simpl; intros pos Hw.
  - apply Hk. reflexivity.
  - apply andb_true_iff in Hw as [Ha Hw]. rewrite (Hqp a Ha), (IH _ Hw).
    apply Hk. simpl. rewrite Ha, Hw. reflexivity.
Qed.

(** It takes the whole text when the rest of the pattern accepts the end. *)
Lemma rep_greedy_end p q k c m n :
  (forall a, q a = true -> p a = true) ->
  forall w pos, all_chars q w = true -> String.length w = n ->
    k (pos + n) EmptyString c = Some m ->
    Re.rep_greedy p pos w c k = Some m.
Proof.
  intros Hqp w. revert n. induction w as [|a w IH]; simpl; intros n pos Hw Hn Hk.
  - subst n. rewrite Nat.add_0_r in Hk. exact Hk.
  - apply andb_true_iff in Hw as [Ha Hw]. rewrite (Hqp a Ha).
    rewrite (IH (String.length w) (S pos) Hw eq_refl); [reflexivity|].
    rewrite <- Hk. f_equal. lia.
Qed.

Lemma rep_n_all p k c : forall n w pos,
  all_chars p w = true -> String.length w = n ->
  Re.rep_n p n pos w c k = k (pos + n) EmptyString c.
Proof.
  induction n as [|n IH]; intros [|a w] pos Hw Hn; simpl in *; try discriminate.
  - rewrite Nat.add_0_r. reflexivity.
  - apply andb_true_iff in Hw as [Ha Hw]. rewrite Ha, IH by (auto; lia).
    f_equal. lia.
Qed.

Lemma substring_all (s : string) n : String.length s = n -> substring 0 n s = s.
Proof.
  revert n. induction s as [|a s IH]; intros n <-; simpl; [reflexivity|].
  rewrite IH; reflexivity.
Qed.

Ltac hex_tail_fails :=
  let pos := fresh "pos" in
  let t := fresh "t" in
  let Ht := fresh "Ht" in
  let b := fresh "b" in
  let Hb := fresh "Hb" in
  intros pos t Ht; destruct t as [|b t]; simpl; [reflexivity|];
  simpl in Ht; apply andb_true_iff in Ht as [Hb _];
  destruct (hex_facts b Hb) as (? & ? & ? & ? & ?);
  repeat match goal with
         | H : ?x = _ |- context [?x] => rewrite H; simpl
         end;
  reflexivity.

(** The match of the pattern on [git@github.com:org/repo.git@<rev>]. *)
Lemma rex_on_commit_link (rev_ : string) :
  String.length rev_ = 40 -> all_chars Re.hex rev_ = true ->
  Re.search VCSLink.rex ("git@github.com:org/repo.git@" ++ rev_)
  = Some [("user", "git"); ("server", "github.com"); ("author", "org");
          ("project", "repo"); ("ext", ".git"); ("rev", rev_)].
Proof.
  intros Hlen Hhex. unfold VCSLink.rex. rewrite search_bol.
  destruct rev_ as [|a R]; [discriminate|].
  simpl in Hhex. apply andb_true_iff in Hhex as [Ha HR].
  destruct (hex_facts a Ha) as (Hdot & Hns & Hcos & Hat & Hsl).
  injection Hlen as Hlen.
  repeat first
    [ rewrite Hdot | rewrite Hns | rewrite Hcos | rewrite Hat | rewrite Hsl
    | rewrite (substring_all R 39 Hlen)
    | progress simpl
    | match goal with
      | |- context [Re.rep_greedy ?p ?pos R ?c ?k] =>
          first
            [ rewrite (rep_greedy_none p Re.hex k c
                         ltac:(first [exact hex_dot | exact hex_not_slash])
                         ltac:(hex_tail_fails) R pos HR)
            | rewrite (rep_greedy_end p Re.hex k c _ 39
                         ltac:(first [exact hex_dot | exact hex_not_slash])
                         R pos HR Hlen
                         ltac:(simpl; rewrite ?(substring_all R 39 Hlen); reflexivity)) ]
      end ].
  reflexivity.
Qed.

Lemma commit_of_hash (self : VCSLink.t) (rev_ : string) :
  VCSLink.rev self = Some rev_ ->
  String.length rev_ = 40 -> all_chars Re.hex rev_ = true ->
  VCSLink.commit self = Some rev_.
Proof.
  intros Hrev Hlen Hhex. unfold VCSLink.commit. rewrite Hrev.
  assert (Ht : VCSLink.truthy (Some rev_) = true).
  { destruct rev_; [discriminate | reflexivity]. }
  rewrite Ht. unfold Re.fullmatch, VCSLink.rex_hash, Re.run, negb.
  rewrite rep_n_all by assumption. reflexivity.
Qed.

(** [long] reads [self.link], which no [VCSLink] has. *)
Lemma long_raises (self : VCSLink.t) :
  VCSLink.long self =
  match VCSLink.vcs self with
  | Some _ => Raise (AttributeError "link")
  | None => Raise (TypeError "unsupported operand type(s) for +")
  end.
Proof. unfold VCSLink.long. simpl. destruct (VCSLink.vcs self); reflexivity. Qed.

(** C2, what the code does.  For a revision of 40 hexadecimal characters,
    [git@github.com:org/repo.git@<rev>] parses to a link with [vcs] git,
    [protocol] ssh and the revision as its [commit]; rendering its long
    form raises [AttributeError], as [long] reads an attribute [link] that
    the class does not define. *)
Theorem VCSLink_commit_link_long_raises (rev_ : string) :
  String.length rev_ = 40 -> all_chars Re.hex rev_ = true ->
  exists self,
    VCSLink.parse ("git@github.com:org/repo.git@" ++ rev_) "git" None None
      = Ok (Some self)
    /\ self = {| VCSLink.server := Some "github.com";
                VCSLink.author := Some "org";
                VCSLink.project := Some "repo";
                VCSLink.vcs := Some "git";
                VCSLink.protocol := Some "ssh";
                VCSLink.user := Some "git";
                VCSLink.ext := Some ".git";
                VCSLink.rev := Some rev_;
                VCSLink.name := Some "repo" |}
    /\ VCSLink.commit self = Some rev_
    /\ VCSLink.long self = Raise (AttributeError "link")
    /\ VCSLink.str self = Raise (AttributeError "link").
Proof.
  intros Hlen Hhex. eexists. split; [|split; [reflexivity|]].
  - unfold VCSLink.parse. rewrite (rex_on_commit_link rev_ Hlen Hhex). reflexivity.
  - split; [apply commit_of_hash; auto|]. split; reflexivity.
Qed.

Lemma VCSLink_commit_link_long_raises_witness :
  exists self,
    VCSLink.parse "git@github.com:org/repo.git@0123456789abcdef0123456789ABCDEF01234567"
                  "git" None None = Ok (Some self)
    /\ VCSLink.commit self = Some "0123456789abcdef0123456789ABCDEF01234567"
    /\ VCSLink.long self = Raise (AttributeError "link").
Proof.
  destruct (VCSLink_commit_link_long_raises "0123456789abcdef0123456789ABCDEF01234567"
              eq_refl eq_refl) as (self & H1 & _ & H3 & H4 & _).
  exists self. auto.
Defined.

Lemma VCSLink_parse_none_or_populated_witness :
  VCSLink.parse "no link here" "git" None None = Ok None.
Proof.
  apply (VCSLink_parse_none_or_populated "no link here" "git" None None).
  vm_compute. reflexivity.
Defined.

(** ** Instances *)

Lemma Graph_get_deepest_wins_witness :
  Graph.get
    {| Graph._roots := [0];
       Graph._layers := [ {| Layer.level := 0; Layer._mapping := [("app", 0)] |};
                          {| Layer.level := 1; Layer._mapping := [("c", 3)] |};
                          {| Layer.level := 2; Layer._mapping := [("c", 4)] |} ];
       Graph.conflict := None |} "c" = Some 4.
Proof.
  apply (Graph_get_deepest_wins _ "c" 1 2
           {| Layer.level := 1; Layer._mapping := [("c", 3)] |}
           {| Layer.level := 2; Layer._mapping := [("c", 4)] |} 3 4);
    try reflexivity; [lia|].
  intros [|[|[|k]]] layer_k Hk; try lia; discriminate.
Defined.

Lemma Layer_add_keeps_names_unique_witness :
  Layer.add sample {| Layer.level := 1; Layer._mapping := [("a", 1)] |} 1
  = Raise DuplicateNameError.
Proof.
  apply (Layer_add_keeps_names_unique sample
           {| Layer.level := 1; Layer._mapping := [("a", 1)] |} 1).
  - split; simpl.
    + apply NoDup_singleton.
    + constructor; [reflexivity | constructor].
  - exists 1. split; [apply list_elem_of_here | reflexivity].
Defined.

Lemma Graph_clear_keeps_used_only_witness :
  used (sample 1) = true.
Proof.
  apply (proj1 (Graph_clear_keeps_used_only sample
           {| Graph._roots := [0];
              Graph._layers := [ {| Layer.level := 0; Layer._mapping := [("app", 0)] |};
                                 {| Layer.level := 1;
                                    Layer._mapping := [("a", 1); ("c", 3)] |} ];
              Graph.conflict := None |})
           1 {| Layer.level := 1; Layer._mapping := [("a", 1)] |} 1).
  - lia.
  - reflexivity.
  - apply list_elem_of_here.
Defined.

(** * Further properties of the graph *)

(** ** Lookup by name and lookup of the layer *)

Lemma layer_contains_get h layer dep :
  Layer.contains h layer dep = true <->
  exists r, Layer.get layer (name (h dep)) = Some r.
Proof.
  unfold Layer.contains, Layer.get, PyDict.mem.
  destruct (PyDict.get _ _); split; eauto; try discriminate.
  intros [r Hr]. discriminate.
Qed.

Lemma find_layer_first_match h dep (l : list Layer.t) :
  match List.find (fun layer => Layer.contains h layer dep) l with
  | Some layer =>
      exists r, Layer.get layer (name (h dep)) = Some r
                /\ Graph.first_match (name (h dep)) l = Some r
  | None => Graph.first_match (name (h dep)) l = None
  end.
Proof.
  induction l as [|layer l IH]; simpl; [reflexivity|].
  destruct (Layer.contains h layer dep) eqn:E.
  - apply layer_contains_get in E as [r Hr]. exists r. rewrite Hr. auto.
  - assert (Hn : Layer.get layer (name (h dep)) = None).
    { destruct (Layer.get layer (name (h dep))) eqn:G; [|reflexivity].
      assert (Layer.contains h layer dep = true) by (apply layer_contains_get; eauto).
      congruence. }
    rewrite Hn. exact IH.
Qed.

(** X1. [get] and [get_layer] agree: when [get_layer(dep)] finds a layer,
    [get(dep.name)] is the entry of that layer; when it finds none, [get]
    returns [None]. *)
Theorem Graph_get_is_entry_of_get_layer (h : heap) (g : Graph.t) (dep : ref) :
  match Graph.get_layer h g dep with
  | Some layer =>
      exists r, Layer.get layer (name (h dep)) = Some r
                /\ Graph.get g (name (h dep)) = Some r
  | None => Graph.get g (name (h dep)) = None
  end.
Proof. apply find_layer_first_match. Qed.

(** ** Adding, then looking up *)

Lemma first_match_found nm (l : list Layer.t) layer r :
  layer ∈ l -> Layer.get layer nm = Some r ->
  exists r', Graph.first_match nm l = Some r'.
Proof.
  induction l as [|x l IH]; intros Hin Hget; [apply elem_of_nil in Hin; contradiction|].
  simpl. destruct (Layer.get x nm) as [r0|] eqn:E; [eauto|].
  apply elem_of_cons in Hin as [->|Hin]; [congruence | eauto].
Qed.

Lemma graph_get_found g nm layer r :
  layer ∈ Graph._layers g -> Layer.get layer nm = Some r ->
  exists r', Graph.get g nm = Some r'.
Proof.
  intros Hin Hget. unfold Graph.get. apply (first_match_found _ _ layer r); [|exact Hget].
  apply list_elem_of_In, in_rev. rewrite rev_involutive. apply list_elem_of_In, Hin.
Qed.

Lemma graph_get_last g nm l layer r :
  Graph._layers g = l ++ [layer] -> Layer.get layer nm = Some r ->
  Graph.get g nm = Some r.
Proof.
  intros Hl Hget. unfold Graph.get. rewrite Hl, rev_app_distr. simpl.
  rewrite Hget. reflexivity.
Qed.

Lemma graph_get_layer_found h g dep :
  (exists r, Graph.get g (name (h dep)) = Some r) -> Graph.get_layer h g dep <> None.
Proof.
  intros [r Hr] Hnone.
  pose proof (Graph_get_is_entry_of_get_layer h g dep) as H.
  rewrite Hnone in H. congruence.
Qed.

Lemma insert_last {A} (l : list A) (x y : A) :
  <[length l := y]> (l ++ [x]) = l ++ [y].
Proof.
  induction l as [|a l IH]; simpl; [reflexivity|]. rewrite IH. reflexivity.
Qed.

(** What a successful [add] stored, and where. *)
Lemma graph_add_stored h g dep lvl g' :
  Graph.add h g dep lvl = Ok g' ->
  exists i layer',
    Graph._layers g' !! i = Some layer'
    /\ Layer.get layer' (name (h dep)) = Some dep
    /\ length (Graph._layers g) <= length (Graph._layers g')
    /\ (is_root (h dep) = true -> i = 0)
    /\ (is_root (h dep) = false -> forall k, lvl = Some k ->
        i = Nat.min k (length (Graph._layers g))).
Proof.
  unfold Graph.add. destruct (is_root (h dep)) eqn:Hroot.
  - unfold Graph.get_layer_level.
    destruct (Graph._layers g !! 0) as [layer0|] eqn:H0; simpl; [|discriminate].
    destruct (Layer.add h layer0 dep) as [layer0'|] eqn:Hadd; simpl; [|discriminate].
    intros [= <-]. simpl. exists 0, layer0'. rewrite length_insert.
    split; [apply list_lookup_insert_eq; eapply lookup_lt_Some, H0|].
    split; [eapply layer_get_added, Hadd|]. repeat split; auto; discriminate.
  - assert (Hlevel : forall k, Graph.add_level h g dep k = Ok g' ->
              exists layer',
                Graph._layers g' !! Nat.min k (length (Graph._layers g)) = Some layer'
                /\ Layer.get layer' (name (h dep)) = Some dep
                /\ length (Graph._layers g) <= length (Graph._layers g')).
    { intros k Hk. destruct (Graph._layers g !! k) as [layer|] eqn:Hl.
      - rewrite (add_level_within _ _ _ _ _ Hl) in Hk.
        destruct (Layer.add h layer dep) as [layer'|] eqn:Hadd; simpl in Hk; [|discriminate].
        injection Hk as <-. simpl. pose proof (lookup_lt_Some _ _ _ Hl).
        exists layer'. rewrite length_insert, Nat.min_l by lia.
        split; [apply list_lookup_insert_eq; lia|].
        split; [eapply layer_get_added, Hadd | lia].
      - apply lookup_ge_None in Hl. rewrite add_level_beyond in Hk by exact Hl.
        injection Hk as <-. simpl. eexists. rewrite Nat.min_r by lia.
        split; [rewrite lookup_app_r by lia; rewrite Nat.sub_diag; reflexivity|].
        split; [unfold Layer.get; simpl; rewrite String.eqb_refl; reflexivity|].
        rewrite length_app. simpl. lia. }
    destruct lvl as [k|].
    + intros Hk. destruct (Hlevel k Hk) as (layer' & H1 & H2 & H3).
      exists (Nat.min k (length (Graph._layers g))), layer'.
      split; [exact H1|]. split; [exact H2|]. split; [exact H3|].
      split; [discriminate|]. intros _ k' [= <-]. reflexivity.
    + destruct (Graph.find_parent_layer _ _ _) as [layer|]; [|discriminate].
      intros Hk. destruct (Hlevel _ Hk) as (layer' & H1 & H2 & H3).
      eexists. exists layer'. split; [exact H1|]. split; [exact H2|].
      split; [exact H3|]. split; [discriminate|]. intros _ k [=].
Qed.

(** X2. A dependency that [add] accepted can be looked up: [get] finds an
    entry under its name and [get_layer] finds a layer.  When it was added
    with an explicit level that is the last layer or beyond, [get] returns
    the dependency itself. *)
Theorem Graph_add_then_get (h : heap) (g g' : Graph.t) (dep : ref) (lvl : option nat) :
  Graph.add h g dep lvl = Ok g' ->
  (exists r, Graph.get g' (name (h dep)) = Some r)
  /\ Graph.get_layer h g' dep <> None
  /\ (is_root (h dep) = false ->
      forall k, lvl = Some k -> length (Graph._layers g) <= k + 1 ->
                Graph.get g' (name (h dep)) = Some dep).
Proof.
  intros Hadd.
  destruct (graph_add_stored _ _ _ _ _ Hadd) as (i & layer' & Hi & Hget & Hlen & _ & Hlvl).
  assert (Hfound : exists r, Graph.get g' (name (h dep)) = Some r).
  { apply (graph_get_found _ _ layer' dep); [|exact Hget].
    apply list_elem_of_lookup. eauto. }
  split; [exact Hfound|]. split; [apply graph_get_layer_found, Hfound|].
  intros Hroot k -> Hk. specialize (Hlvl Hroot k eq_refl). subst i.
  unfold Graph.add in Hadd. rewrite Hroot in Hadd.
  destruct (Graph._layers g !! k) as [layer|] eqn:Hl.
  - rewrite (add_level_within _ _ _ _ _ Hl) in Hadd.
    destruct (Layer.add h layer dep) as [layer1|] eqn:Hadd1; simpl in Hadd; [|discriminate].
    injection Hadd as <-. pose proof (lookup_lt_Some _ _ _ Hl) as Hlt.
    assert (Hk' : length (Graph._layers g) = S k) by lia.
    destruct (Graph._layers g) as [|x l] eqn:El using rev_ind; [simpl in Hlt; lia|].
    rewrite length_app in Hk'. simpl in Hk'.
    assert (k = length l) by lia. subst k.
    apply (graph_get_last _ _ l layer1); [simpl; apply insert_last|].
    eapply layer_get_added, Hadd1.
  - apply lookup_ge_None in Hl. rewrite add_level_beyond in Hadd by exact Hl.
    injection Hadd as <-.
    eapply graph_get_last; [reflexivity|].
    unfold Layer.get; simpl. rewrite String.eqb_refl. reflexivity.
Qed.

Lemma Graph_add_then_get_witness :
  Graph.get
    {| Graph._roots := [0];
       Graph._layers := [ {| Layer.level := 0; Layer._mapping := [("app", 0)] |};
                          {| Layer.level := 1; Layer._mapping := [("a", 1)] |} ];
       Graph.conflict := None |} (name (sample 1)) = Some 1.
Proof.
  destruct (Graph_add_then_get sample
      {| Graph._roots := [0];
         Graph._layers := [ {| Layer.level := 0; Layer._mapping := [("app", 0)] |} ];
         Graph.conflict := None |}
      {| Graph._roots := [0];
         Graph._layers := [ {| Layer.level := 0; Layer._mapping := [("app", 0)] |};
                            {| Layer.level := 1; Layer._mapping := [("a", 1)] |} ];
         Graph.conflict := None |} 1 (Some 1) eq_refl) as (_ & _ & H).
  apply (H eq_refl 1 eq_refl). simpl. lia.
Defined.

(** ** The frontier, the bound and pruning *)

Lemma leafs_app h (l1 l2 : list Layer.t) :
  List.filter (Graph.is_leaf h) (concat (map Layer.iter (l1 ++ l2)))
  = List.filter (Graph.is_leaf h) (concat (map Layer.iter l1))
    ++ List.filter (Graph.is_leaf h) (concat (map Layer.iter l2)).
Proof. rewrite map_app, concat_app, List.filter_app. reflexivity. Qed.

(** X3. The bound of [get_leafs] cuts the frontier after a layer: the
    result for a bound is a prefix of the result for any larger bound and of
    the unbounded result, and a bound that reaches the last layer gives the
    unbounded result. *)
Theorem get_leafs_bound_is_prefix (h : heap) (g : Graph.t) (k : nat) :
  (forall j, k <= j ->
     exists rest, Graph.get_leafs h g (Some j) = Graph.get_leafs h g (Some k) ++ rest)
  /\ (exists rest, Graph.get_leafs h g None = Graph.get_leafs h g (Some k) ++ rest)
  /\ (length (Graph._layers g) <= k + 1 ->
      Graph.get_leafs h g (Some k) = Graph.get_leafs h g None).
Proof.
  rewrite !get_leafs_filter. simpl. split; [|split].
  - intros j Hj. rewrite get_leafs_filter. simpl.
    exists (List.filter (Graph.is_leaf h)
              (concat (map Layer.iter (drop (S k) (take (S j) (Graph._layers g)))))).
    rewrite <- leafs_app. f_equal. f_equal. f_equal.
    rewrite <- (take_drop (S k) (take (S j) (Graph._layers g))) at 1.
    rewrite take_take, Nat.min_l by lia. reflexivity.
  - exists (List.filter (Graph.is_leaf h)
              (concat (map Layer.iter (drop (S k) (Graph._layers g))))).
    rewrite <- leafs_app, take_drop. reflexivity.
  - intros Hlen. rewrite take_ge by lia. reflexivity.
Qed.

Lemma get_leafs_bound_is_prefix_witness :
  Graph.get_leafs sample
    {| Graph._roots := [0];
       Graph._layers := [ {| Layer.level := 0; Layer._mapping := [("app", 0)] |};
                          {| Layer.level := 1; Layer._mapping := [("a", 1)] |} ];
       Graph.conflict := None |} (Some 5)
  = Graph.get_leafs sample
    {| Graph._roots := [0];
       Graph._layers := [ {| Layer.level := 0; Layer._mapping := [("app", 0)] |};
                          {| Layer.level := 1; Layer._mapping := [("a", 1)] |} ];
       Graph.conflict := None |} None.
Proof. apply get_leafs_bound_is_prefix. simpl. lia. Defined.

Lemma leafs_of_cleared_layer h layer :
  List.filter (Graph.is_leaf h) (Layer.iter (Layer.clear h layer))
  = List.filter (Graph.is_leaf h) (Layer.iter layer).
Proof.
  unfold Layer.iter, Layer.clear, PyDict.values; simpl.
  induction (Layer._mapping layer) as [|[k r] m IH]; simpl; [reflexivity|].
  destruct (used (h r)) eqn:Hu; simpl; rewrite IH; [reflexivity|].
  unfold Graph.is_leaf at 2. rewrite Hu, andb_false_r. reflexivity.
Qed.

Lemma leafs_of_cleared_layers h (l : list Layer.t) :
  List.filter (Graph.is_leaf h) (concat (map Layer.iter (map (Layer.clear h) l)))
  = List.filter (Graph.is_leaf h) (concat (map Layer.iter l)).
Proof.
  induction l as [|layer l IH]; simpl; [reflexivity|].
  rewrite !List.filter_app, IH, leafs_of_cleared_layer. reflexivity.
Qed.

(** X4. Pruning does not change the frontier: [get_leafs] returns the same
    dependencies, in the same order, before and after [clear], for every
    bound. *)
Theorem Graph_clear_keeps_leafs (h : heap) (g : Graph.t) (lvl : option nat) :
  Graph.get_leafs h (Graph.clear h g) lvl = Graph.get_leafs h g lvl.
Proof.
  rewrite !get_leafs_filter. unfold bounded_layers. rewrite graph_clear_layers.
  destruct (Graph._layers g) as [|x rest]; [reflexivity|].
  destruct lvl as [k|]; simpl; rewrite !List.filter_app; f_equal.
  - change (take k (map (Layer.clear h) rest)) with (take k (Layer.clear h <$> rest)).
    rewrite <- fmap_take. apply leafs_of_cleared_layers.
  - apply leafs_of_cleared_layers.
Qed.

(** ** Resetting *)

Lemma layer_init_fold_raise h deps e :
  fold_left (fun acc dep => let* self := acc in Layer.add h self dep) deps (Raise e)
  = Raise e.
Proof. induction deps as [|d deps IH]; simpl; auto. Qed.

Lemma layer_init_fold h lvl deps : forall m,
  NoDup (PyDict.keys m) ->
  fold_left (fun acc dep => let* self := acc in Layer.add h self dep) deps
            (Ok {| Layer.level := lvl; Layer._mapping := m |})
  = if bool_decide (NoDup (PyDict.keys m ++ map (fun r => name (h r)) deps))
    then Ok {| Layer.level := lvl;
               Layer._mapping := m ++ map (fun r => (name (h r), r)) deps |}
    else Raise DuplicateNameError.
Proof.
  induction deps as [|d deps IH]; intros m Hm; simpl.
  - rewrite !app_nil_r. rewrite bool_decide_eq_true_2 by exact Hm. reflexivity.
  - unfold Layer.add at 2. simpl.
    destruct (PyDict.mem (name (h d)) m) eqn:E.
    + rewrite layer_init_fold_raise. rewrite bool_decide_eq_false_2; [reflexivity|].
      intros Hnd. apply NoDup_app in Hnd as (_ & Hdis & _).
      apply dict_mem_true in E. apply (Hdis _ E), list_elem_of_here.
    + rewrite dict_set_fresh by exact E.
      assert (Hm' : NoDup (PyDict.keys (m ++ [(name (h d), d)]))).
      { unfold PyDict.keys. rewrite map_app. simpl. apply NoDup_app.
        split; [exact Hm|]. split; [|apply NoDup_singleton].
        intros k Hk Hk'. apply list_elem_of_singleton in Hk'. subst k.
        apply dict_mem_false in E. contradiction. }
      rewrite (IH _ Hm'). unfold PyDict.keys. rewrite map_app. simpl.
      rewrite <- !app_assoc. simpl. reflexivity.
Qed.

Lemma layer_init_distinct h lvl deps :
  Layer.init h lvl deps
  = if bool_decide (NoDup (map (fun r => name (h r)) deps))
    then Ok {| Layer.level := lvl;
               Layer._mapping := map (fun r => (name (h r), r)) deps |}
    else Raise DuplicateNameError.
Proof.
  unfold Layer.init. rewrite layer_init_fold by constructor. reflexivity.
Qed.

Lemma graph_reset_cases h g :
  (NoDup (map (fun r => name (h r)) (Graph._roots g)) ->
     Graph.reset h g
     = Ok {| Graph._roots := Graph._roots g;
             Graph._layers := [roots_layer h (Graph._roots g)];
             Graph.conflict := None |})
  /\ (~ NoDup (map (fun r => name (h r)) (Graph._roots g)) ->
      Graph.reset h g = Raise DuplicateNameError).
Proof.
  unfold Graph.reset. rewrite layer_init_distinct. split; intros H.
  - rewrite bool_decide_eq_true_2 by exact H. reflexivity.
  - rewrite bool_decide_eq_false_2 by exact H. reflexivity.
Qed.

(** X5. [reset] succeeds exactly when the roots have distinct names: it
    then leaves one layer, with the roots in their order, and an empty
    conflict slot; with two roots of one name it raises the duplicate-name
    [KeyError]. *)
Theorem Graph_reset_distinct_roots (h : heap) (g : Graph.t) :
  (NoDup (map (fun r => name (h r)) (Graph._roots g)) ->
     Graph.reset h g
     = Ok {| Graph._roots := Graph._roots g;
             Graph._layers := [roots_layer h (Graph._roots g)];
             Graph.conflict := None |})
  /\ (~ NoDup (map (fun r => name (h r)) (Graph._roots g)) ->
      Graph.reset h g = Raise DuplicateNameError).
Proof. apply graph_reset_cases. Qed.

Lemma Graph_reset_distinct_roots_witness :
  Graph.reset sample
    {| Graph._roots := [0];
       Graph._layers := [ {| Layer.level := 0; Layer._mapping := [("app", 0)] |};
                          {| Layer.level := 1; Layer._mapping := [("a", 1)] |} ];
       Graph.conflict := Some 1 |}
  = Ok {| Graph._roots := [0];
          Graph._layers := [roots_layer sample [0]];
          Graph.conflict := None |}.
Proof.
  apply (Graph_reset_distinct_roots sample). simpl. apply NoDup_singleton.
Defined.

(** ** What every graph built by the operations satisfies *)

Lemma roots_layer_get h roots r :
  NoDup (map (fun r => name (h r)) roots) -> r ∈ roots ->
  Layer.get (roots_layer h roots) (name (h r)) = Some r.
Proof.
  intros Hnd Hr. unfold Layer.get, roots_layer; simpl. apply dict_elem_get.
  - unfold PyDict.keys. rewrite map_map. exact Hnd.
  - apply list_elem_of_fmap. exists r. auto.
Qed.

Lemma roots_registered_reset h g g' :
  Graph.reset h g = Ok g' -> roots_registered h g'.
Proof.
  intros Hr. destruct (decide (NoDup (map (fun r => name (h r)) (Graph._roots g)))) as [Hnd|Hnd].
  - rewrite (proj1 (graph_reset_cases h g) Hnd) in Hr. injection Hr as <-.
    split; [exact Hnd|]. exists (roots_layer h (Graph._roots g)).
    split; [reflexivity|]. intros r. apply roots_layer_get, Hnd.
  - rewrite (proj2 (graph_reset_cases h g) Hnd) in Hr. discriminate.
Qed.

Lemma layer_add_ok_fresh h layer dep layer' :
  Layer.add h layer dep = Ok layer' -> Layer.get layer (name (h dep)) = None.
Proof.
  unfold Layer.add, Layer.get, PyDict.mem.
  destruct (PyDict.get _ _); [discriminate | reflexivity].
Qed.

Lemma layer_add_keeps_get h layer dep layer' nm r :
  Layer.add h layer dep = Ok layer' ->
  Layer.get layer nm = Some r -> Layer.get layer' nm = Some r.
Proof.
  intros Hadd Hget. pose proof (layer_add_ok_fresh _ _ _ _ Hadd) as Hfresh.
  unfold Layer.add in Hadd. destruct (PyDict.mem _ _); [discriminate|].
  injection Hadd as <-. unfold Layer.get in *; simpl.
  rewrite dict_get_set_ne; [exact Hget | congruence].
Qed.

Lemma add_level_effect h g dep k g' :
  Graph.add_level h g dep k = Ok g' ->
  Graph._roots g' = Graph._roots g
  /\ (Forall (layer_wf h) (Graph._layers g) -> Forall (layer_wf h) (Graph._layers g'))
  /\ (forall layer0, Graph._layers g !! 0 = Some layer0 ->
      exists layer0', Graph._layers g' !! 0 = Some layer0'
        /\ forall nm r, Layer.get layer0 nm = Some r -> Layer.get layer0' nm = Some r).
Proof.
  intros Hadd. destruct (Graph._layers g !! k) as [layer|] eqn:Hl.
  - rewrite (add_level_within _ _ _ _ _ Hl) in Hadd.
    destruct (Layer.add h layer dep) as [layer'|] eqn:Hadd1; simpl in Hadd; [|discriminate].
    injection Hadd as <-. simpl. split; [reflexivity|]. split.
    + intros Hwf. apply Forall_insert; [exact Hwf|].
      eapply layer_add_wf; [|exact Hadd1].
      rewrite Forall_forall in Hwf. apply Hwf, list_elem_of_lookup. eauto.
    + intros layer0 H0. destruct (decide (k = 0)) as [->|Hne].
      * rewrite H0 in Hl. injection Hl as ->. exists layer'.
        split; [apply list_lookup_insert_eq; eapply lookup_lt_Some, H0|].
        intros nm r. eapply layer_add_keeps_get, Hadd1.
      * exists layer0. rewrite list_lookup_insert_ne by exact Hne. auto.
  - apply lookup_ge_None in Hl. rewrite add_level_beyond in Hadd by exact Hl.
    injection Hadd as <-. simpl. split; [reflexivity|]. split.
    + intros Hwf. apply Forall_app. split; [exact Hwf|].
      constructor; [|constructor]. split; simpl.
      * apply NoDup_singleton.
      * constructor; [reflexivity | constructor].
    + intros layer0 H0. exists layer0. split; [|auto].
      rewrite lookup_app_l; [exact H0 | eapply lookup_lt_Some, H0].
Qed.

Lemma graph_add_invariant h g dep lvl g' :
  Graph.add h g dep lvl = Ok g' ->
  roots_registered h g -> Forall (layer_wf h) (Graph._layers g) ->
  roots_registered h g' /\ Forall (layer_wf h) (Graph._layers g').
Proof.
  intros Hadd (Hnd & layer0 & H0 & Hroots) Hwf. unfold Graph.add in Hadd.
  destruct (is_root (h dep)) eqn:Hroot.
  - unfold Graph.get_layer_level in Hadd. rewrite H0 in Hadd. simpl in Hadd.
    destruct (Layer.add h layer0 dep) as [layer0'|] eqn:Hadd1; simpl in Hadd; [|discriminate].
    injection Hadd as <-. simpl.
    pose proof (layer_add_ok_fresh _ _ _ _ Hadd1) as Hfresh.
    split; [split|]; simpl.
    + rewrite map_app. simpl. apply NoDup_app. split; [exact Hnd|].
      split; [|apply NoDup_singleton].
      intros nm Hin Hin'. apply list_elem_of_singleton in Hin'. subst nm.
      apply list_elem_of_fmap in Hin as (r & Hn & Hr).
      specialize (Hroots r Hr). rewrite <- Hn in Hroots. congruence.
    + exists layer0'. split; [apply list_lookup_insert_eq; eapply lookup_lt_Some, H0|].
      intros r Hr. apply elem_of_app in Hr as [Hr|Hr].
      * eapply layer_add_keeps_get; eauto.
      * apply list_elem_of_singleton in Hr. subst r. eapply layer_get_added, Hadd1.
    + apply Forall_insert; [exact Hwf|]. eapply layer_add_wf; [|exact Hadd1].
      rewrite Forall_forall in Hwf. apply Hwf, list_elem_of_lookup. eauto.
  - assert (Hlevel : exists k, Graph.add_level h g dep k = Ok g').
    { destruct lvl as [k|]; [eauto|].
      destruct (Graph.find_parent_layer _ _ _); [eauto | discriminate]. }
    destruct Hlevel as (k & Hk).
    destruct (add_level_effect _ _ _ _ _ Hk) as (Hr & Hwf' & Hl0).
    destruct (Hl0 _ H0) as (layer0' & H0' & Hkeep).
    split; [|auto]. split; [rewrite Hr; exact Hnd|].
    exists layer0'. split; [exact H0'|]. rewrite Hr. auto.
Qed.

Lemma graph_clear_invariant h g :
  roots_registered h g -> Forall (layer_wf h) (Graph._layers g) ->
  roots_registered h (Graph.clear h g)
  /\ Forall (layer_wf h) (Graph._layers (Graph.clear h g)).
Proof.
  intros (Hnd & layer0 & H0 & Hroots) Hwf. split.
  - split; [exact Hnd|]. exists layer0. split; [|exact Hroots].
    rewrite graph_clear_lookup. exact H0.
  - rewrite graph_clear_layers. destruct (Graph._layers g) as [|x rest]; [constructor|].
    apply Forall_cons in Hwf as [Hx Hrest]. constructor; [exact Hx|].
    apply Forall_forall. intros layer Hin.
    apply list_elem_of_fmap in Hin as (layer1 & -> & Hin).
    apply layer_clear_wf. rewrite Forall_forall in Hrest. auto.
Qed.

Lemma graph_reset_invariant h g g' :
  Graph.reset h g = Ok g' ->
  roots_registered h g' /\ Forall (layer_wf h) (Graph._layers g').
Proof.
  intros Hr. split; [eapply roots_registered_reset, Hr|].
  unfold Graph.reset in Hr.
  destruct (Layer.init h 0 (Graph._roots g)) as [layer0|] eqn:E; simpl in Hr; [|discriminate].
  injection Hr as <-. simpl. constructor; [|constructor]. eapply layer_init_wf, E.
Qed.

Lemma reachable_invariant h g :
  reachable h g ->
  roots_registered h g /\ Forall (layer_wf h) (Graph._layers g).
Proof.
  induction 1 as [root g Hinit | g dep lvl g' _ [IH1 IH2] Hadd | g _ [IH1 IH2]
                 | g g' _ _ Hreset].
  - eapply graph_reset_invariant, Hinit.
  - eapply graph_add_invariant; eauto.
  - apply graph_clear_invariant; assumption.
  - eapply graph_reset_invariant, Hreset.
Qed.

(** X6. In every graph built from [Graph(root)] by [add], [clear] and
    [reset]: each layer has distinct keys and keys equal to the names of
    its entries; the roots have distinct names and each root is the entry
    of layer 0 under its name; so [reset] does not fail, and [get] of a
    root's name returns a dependency. *)
Theorem Graph_reachable_invariants (h : heap) (g : Graph.t) :
  reachable h g ->
  Forall (layer_wf h) (Graph._layers g)
  /\ roots_registered h g
  /\ Graph.reset h g
     = Ok {| Graph._roots := Graph._roots g;
             Graph._layers := [roots_layer h (Graph._roots g)];
             Graph.conflict := None |}
  /\ forall r, r ∈ Graph._roots g -> exists r', Graph.get g (name (h r)) = Some r'.
Proof.
  intros Hreach. destruct (reachable_invariant _ _ Hreach) as [Hroots Hwf].
  split; [exact Hwf|]. split; [exact Hroots|].
  destruct Hroots as (Hnd & layer0 & H0 & Hget). split.
  - apply graph_reset_cases, Hnd.
  - intros r Hr. apply (graph_get_found _ _ layer0 r); [|auto].
    apply list_elem_of_lookup. eauto.
Qed.

Lemma Graph_reachable_invariants_witness :
  Graph.reset sample
    {| Graph._roots := [0]; Graph._layers := [{| Layer.level := 0; Layer._mapping := [("app", 0)] |}; {| Layer.level := 1; Layer._mapping := [("a", 1)] |}; {| Layer.level := 2; Layer._mapping := [("b", 2)] |}]; Graph.conflict := None |}
  = Ok {| Graph._roots := [0];
          Graph._layers := [roots_layer sample [0]];
          Graph.conflict := None |}.
Proof.
  apply (Graph_reachable_invariants sample
           {| Graph._roots := [0]; Graph._layers := [{| Layer.level := 0; Layer._mapping := [("app", 0)] |}; {| Layer.level := 1; Layer._mapping := [("a", 1)] |}; {| Layer.level := 2; Layer._mapping := [("b", 2)] |}]; Graph.conflict := None |}).
  apply (reachable_add sample
           {| Graph._roots := [0]; Graph._layers := [{| Layer.level := 0; Layer._mapping := [("app", 0)] |}; {| Layer.level := 1; Layer._mapping := [("a", 1)] |}]; Graph.conflict := None |}
           2 None); [|reflexivity].
  apply (reachable_add sample
           {| Graph._roots := [0]; Graph._layers := [{| Layer.level := 0; Layer._mapping := [("app", 0)] |}]; Graph.conflict := None |}
           1 None); [|reflexivity].
  apply (reachable_init sample (Some 0)). reflexivity.
Defined.

(** ** Descendants of a dependency *)

Lemma children_step_ok depth h g acc child res :
  children_step depth h g acc child = Ok res ->
  exists result,
    acc = Ok result
    /\ ((Graph.get_layer h g child = None /\ res = result)
        \/ (Graph.get_layer h g child <> None
            /\ exists sub,
                 Graph.get_children depth h g child = Ok sub
                 /\ res = PyDict.update
                            (if PyDict.mem (name (h child)) result then result
                             else PyDict.set (name (h child)) child result) sub)).
Proof.
  unfold children_step. destruct acc as [result|e]; simpl; [|discriminate].
  intros H. exists result. split; [reflexivity|].
  destruct (Graph.get_layer h g child) as [layer|]; [|left; split; congruence].
  right. split; [discriminate|].
  destruct (Graph.get_children depth h g child) as [sub|e] eqn:E; simpl in H;
    [|discriminate].
  injection H as <-. eauto.
Qed.

Lemma children_fold_entries depth h g (Q : string * ref -> Prop) (l : list ref) :
  (forall c sub, c ∈ l -> Graph.get_layer h g c <> None ->
                 Graph.get_children depth h g c = Ok sub ->
                 Q (name (h c), c) /\ Forall Q sub) ->
  forall acc res,
    fold_left (children_step depth h g) l acc = Ok res ->
    exists result,
      acc = Ok result
      /\ (Forall Q result -> Forall Q res)
      /\ (forall n, PyDict.mem n result = true -> PyDict.mem n res = true)
      /\ (forall c, c ∈ l -> Graph.get_layer h g c <> None ->
                    PyDict.mem (name (h c)) res = true).
Proof.
  induction l as [|c l IH]; intros Hsub acc res Hfold; simpl in Hfold.
  - exists res. split; [exact Hfold|]. split; [auto|]. split; [auto|].
    intros c Hc. apply elem_of_nil in Hc. contradiction.
  - apply IH in Hfold as (result1 & Hstep & HQ & Hmem & Hall);
      [|intros c' sub Hc'; apply Hsub, list_elem_of_further, Hc'].
    apply children_step_ok in Hstep as (result & -> & Hcase).
    exists result. split; [reflexivity|].
    destruct Hcase as [[Hnone ->]|(Hsome & sub & Hrec & ->)].
    + split; [exact HQ|]. split; [exact Hmem|].
      intros c' Hc' Hg. apply elem_of_cons in Hc' as [->|Hc']; [contradiction|auto].
    + destruct (Hsub c sub (list_elem_of_here _ _) Hsome Hrec) as [Qc Qsub].
      assert (Hmem1 : forall n, PyDict.mem n result = true ->
                PyDict.mem n (if PyDict.mem (name (h c)) result then result
                              else PyDict.set (name (h c)) c result) = true).
      { intros n Hn. destruct (PyDict.mem (name (h c)) result); [exact Hn|].
        rewrite dict_mem_set, Hn. apply orb_true_r. }
      assert (Hc : PyDict.mem (name (h c))
                     (if PyDict.mem (name (h c)) result then result
                      else PyDict.set (name (h c)) c result) = true).
      { destruct (PyDict.mem (name (h c)) result) eqn:E; [exact E|].
        rewrite dict_mem_set, String.eqb_refl. reflexivity. }
      split; [|split].
      * intros HQr. apply HQ, dict_update_Forall; [|exact Qsub].
        destruct (PyDict.mem (name (h c)) result); [exact HQr|].
        apply dict_set_Forall; assumption.
      * intros n Hn. apply Hmem. rewrite dict_mem_update, (Hmem1 n Hn). reflexivity.
      * intros c' Hc' Hg. apply elem_of_cons in Hc' as [->|Hc']; [|auto].
        apply Hmem. rewrite dict_mem_update, Hc. reflexivity.
Qed.

Lemma descends_entry_further h (p c : ref) (kv : string * ref) :
  locked (h p) = true -> c ∈ dependencies (h p) ->
  descends h c (snd kv) -> descends h p (snd kv).
Proof. intros. eapply descends_further; eauto. Qed.

Lemma get_children_entries_aux depth h g : forall dep res,
  Graph.get_children depth h g dep = Ok res ->
  Forall (fun kv => fst kv = name (h (snd kv))
                    /\ Graph.get_layer h g (snd kv) <> None
                    /\ descends h dep (snd kv)) res
  /\ (locked (h dep) = false -> res = [])
  /\ (locked (h dep) = true ->
      forall c, c ∈ dependencies (h dep) -> Graph.get_layer h g c <> None ->
                PyDict.mem (name (h c)) res = true).
Proof.
  induction depth as [|depth IH]; intros dep res Hres; [discriminate|].
  rewrite get_children_unfold in Hres.
  destruct (locked (h dep)) eqn:Hlock; simpl in Hres.
  - apply (children_fold_entries _ _ _
             (fun kv => fst kv = name (h (snd kv))
                        /\ Graph.get_layer h g (snd kv) <> None
                        /\ descends h dep (snd kv)))
      in Hres as (result & [= <-] & HQ & _ & Hall).
    + split; [apply HQ; constructor|]. split; [discriminate | intros _; exact Hall].
    + intros c sub Hc Hg Hsub. split.
      * simpl. repeat split; [exact Hg | apply descends_child; assumption].
      * destruct (IH _ _ Hsub) as (Hent & _ & _).
        eapply Forall_impl; [exact Hent|]. intros kv (H1 & H2 & H3).
        repeat split; try assumption. eapply descends_further; eauto.
  - injection Hres as <-. split; [constructor|]. split; [reflexivity | discriminate].
Qed.

(** X7. What [get_children] returns: every entry is stored under its own
    name, has its name in a layer of the graph, and is reached from the
    dependency through the children of locked dependencies; the result is
    empty for a dependency that is not locked; for a locked one, every
    direct child whose name is in the graph has its name among the keys. *)
Theorem get_children_entries (depth : nat) (h : heap) (g : Graph.t) (dep : ref)
    (res : PyDict.dict ref) :
  Graph.get_children depth h g dep = Ok res ->
  Forall (fun kv => fst kv = name (h (snd kv))
                    /\ Graph.get_layer h g (snd kv) <> None
                    /\ descends h dep (snd kv)) res
  /\ (locked (h dep) = false -> res = [])
  /\ (locked (h dep) = true ->
      forall c, c ∈ dependencies (h dep) -> Graph.get_layer h g c <> None ->
                PyDict.mem (name (h c)) res = true).
Proof. apply get_children_entries_aux. Qed.

Lemma get_children_entries_witness :
  PyDict.mem (name (sample 1)) [("a", 1)] = true.
Proof.
  apply (get_children_entries 2 sample
           {| Graph._roots := [0];
              Graph._layers := [ {| Layer.level := 0; Layer._mapping := [("app", 0)] |};
                                 {| Layer.level := 1; Layer._mapping := [("a", 1)] |} ];
              Graph.conflict := None |} 0 [("a", 1)]).
  - reflexivity.
  - reflexivity.
  - apply list_elem_of_here.
  - discriminate.
Defined.

Lemma children_fold_returns depth h g (l : list ref) :
  (forall c, c ∈ l -> Graph.get_layer h g c <> None ->
             exists sub, Graph.get_children depth h g c = Ok sub) ->
  forall result, exists res,
    fold_left (children_step depth h g) l (Ok result) = Ok res.
Proof.
  induction l as [|c l IH]; intros Hsub result; [simpl; eauto|].
  assert (Hstep : exists result1, children_step depth h g (Ok result) c = Ok result1).
  { unfold children_step. simpl.
    destruct (Graph.get_layer h g c) as [layer|] eqn:E; [|eauto].
    destruct (Hsub c (list_elem_of_here _ _)) as [sub Hs]; [rewrite E; discriminate|].
    rewrite Hs. simpl. eauto. }
  destruct Hstep as [result1 Hstep].
  destruct (IH (fun c' Hc' => Hsub c' (list_elem_of_further _ _ _ Hc')) result1)
    as [res Hres].
  exists res. cbn [fold_left]. rewrite Hstep. exact Hres.
Qed.

(** X8. [get_children] returns when the children in the graph are ranked
    below their locked parents (no cycle): a recursion depth above the rank
    of the dependency is enough. *)
Theorem get_children_returns_without_cycle (h : heap) (g : Graph.t) (rank : ref -> nat) :
  (forall p c, locked (h p) = true -> c ∈ dependencies (h p) ->
               Graph.get_layer h g c <> None -> rank c < rank p) ->
  forall dep depth, rank dep < depth ->
    exists res, Graph.get_children depth h g dep = Ok res.
Proof.
  intros Hrank dep depth. revert dep.
  induction depth as [|depth IH]; intros dep Hlt; [lia|].
  rewrite get_children_unfold. destruct (locked (h dep)) eqn:Hlock; simpl; [|eauto].
  apply children_fold_returns. intros c Hc Hg. apply IH.
  specialize (Hrank dep c Hlock Hc Hg). lia.
Qed.

Lemma get_children_returns_without_cycle_witness :
  exists res,
    Graph.get_children 2 sample
      {| Graph._roots := [0];
         Graph._layers := [ {| Layer.level := 0; Layer._mapping := [("app", 0)] |};
                            {| Layer.level := 1; Layer._mapping := [("a", 1)] |} ];
         Graph.conflict := None |} 0 = Ok res.
Proof.
  apply (get_children_returns_without_cycle sample _
           (fun r => match r with 1 => 0 | _ => 1 end)); [|simpl; lia].
  intros [|[|[|p]]] c Hl Hc Hg; simpl in *; try discriminate.
  - apply list_elem_of_singleton in Hc. subst c. lia.
  - apply list_elem_of_singleton in Hc. subst c. exfalso. apply Hg. reflexivity.
  - apply list_elem_of_singleton in Hc. subst c. lia.
Defined.

(** ** Ancestors when every searched name is avoided *)

Lemma dict_no_key_nil {V} (d : PyDict.dict V) :
  (forall n, PyDict.mem n d = false) -> d = [].
Proof.
  destruct d as [|[k v] d]; [reflexivity|]. intros H. specialize (H k).
  unfold PyDict.mem in H. simpl in H. rewrite String.eqb_refl in H. discriminate.
Qed.

(** X9. When the name of every dependency searched for is in [avoid] (in
    particular when there is none), [get_parents] returns the empty
    dictionary at once, whatever the graph. *)
Theorem get_parents_all_avoided (h : heap) (g : Graph.t) (deps : list ref)
    (avoid : list string) (depth : nat) :
  (forall d, d ∈ deps -> name (h d) ∈ avoid) ->
  Graph.get_parents (S depth) h g deps avoid = Ok [].
Proof.
  intros Havoid. simpl.
  rewrite (dict_no_key_nil (Graph.direct_parents h g deps avoid)); [reflexivity|].
  intros n. destruct (PyDict.mem n _) eqn:E; [|reflexivity].
  apply direct_parents_mem in E as (p & _ & _ & c & _ & Hs & Ha).
  apply list_elem_of_fmap in Hs as (d & Hn & Hd). exfalso. apply Ha.
  rewrite Hn. apply Havoid, Hd.
Qed.

Lemma get_parents_all_avoided_witness :
  Graph.get_parents 1 sample
    {| Graph._roots := [0];
       Graph._layers := [ {| Layer.level := 0; Layer._mapping := [("app", 0)] |};
                          {| Layer.level := 1; Layer._mapping := [("a", 1)] |} ];
       Graph.conflict := None |} [1] ["a"] = Ok [].
Proof.
  apply get_parents_all_avoided. intros d Hd.
  apply list_elem_of_singleton in Hd. subst d. apply list_elem_of_here.
Defined.

(** * Further properties of links *)

(** ** The commit of a link *)

Lemma string_app_nil_r (s : string) : (s ++ "")%string = s.
Proof. induction s as [|a s IH]; simpl; [reflexivity | rewrite IH; reflexivity]. Qed.

Lemma fullmatch_hash_sound (s : string) m :
  Re.fullmatch VCSLink.rex_hash s = Some m ->
  String.length s = 40 /\ all_chars Re.hex s = true.
Proof.
  unfold Re.fullmatch, VCSLink.rex_hash, Re.run. intros H.
  apply rep_n_sound in H as (w & s' & Hl & Hw & -> & Hk).
  destruct s' as [|a s']; [|discriminate].
  rewrite string_app_nil_r. auto.
Qed.

(** X10. [commit] is the revision exactly when the revision is a string of
    40 hexadecimal characters; for any other revision, and without one, it
    is [None]. *)
Theorem VCSLink_commit_iff_hash (self : VCSLink.t) (r : string) :
  VCSLink.commit self = Some r <->
  VCSLink.rev self = Some r /\ String.length r = 40 /\ all_chars Re.hex r = true.
Proof.
  split.
  - unfold VCSLink.commit. destruct (VCSLink.rev self) as [rv|]; simpl; [|discriminate].
    destruct (negb _); [discriminate|].
    destruct (Re.fullmatch VCSLink.rex_hash rv) as [m|] eqn:E; [|discriminate].
    intros [= ->]. split; [reflexivity|]. eapply fullmatch_hash_sound, E.
  - intros (Hrev & Hlen & Hhex). apply commit_of_hash; assumption.
Qed.

Lemma VCSLink_commit_iff_hash_witness :
  VCSLink.commit
    {| VCSLink.server := Some "github.com"; VCSLink.author := Some "org";
       VCSLink.project := Some "repo"; VCSLink.vcs := Some "git";
       VCSLink.protocol := Some "ssh"; VCSLink.user := None; VCSLink.ext := None;
       VCSLink.rev := Some "0123456789abcdef0123456789ABCDEF01234567";
       VCSLink.name := None |}
  = Some "0123456789abcdef0123456789ABCDEF01234567".
Proof.
  apply VCSLink_commit_iff_hash. split; [reflexivity|]. split; reflexivity.
Defined.

(** ** The fields of a parsed link *)

Lemma groupdict_get m g :
  g ∈ VCSLink.group_names ->
  PyDict.get g (VCSLink.without_none (VCSLink.groupdict m))
  = option_map Some (PyDict.get g m).
Proof. apply get_without_none. Qed.

Ltac group_name :=
  unfold VCSLink.group_names;
  repeat (first [apply list_elem_of_here | apply list_elem_of_further]).

Lemma parse_of_captures link vcs_ rev_ name_ m :
  Re.search VCSLink.rex link = Some m ->
  VCSLink.parse link vcs_ rev_ name_
  = Ok (Some {| VCSLink.server := PyDict.get "server" m;
                VCSLink.author := PyDict.get "author" m;
                VCSLink.project := PyDict.get "project" m;
                VCSLink.vcs := Some (default vcs_ (PyDict.get "vcs" m));
                VCSLink.protocol := Some (default "ssh" (PyDict.get "protocol" m));
                VCSLink.user := PyDict.get "user" m;
                VCSLink.ext := PyDict.get "ext" m;
                VCSLink.rev :=
                  if VCSLink.truthy rev_ then rev_ else PyDict.get "rev" m;
                VCSLink.name :=
                  match PyDict.get "name" m with
                  | Some n => Some n
                  | None => PyDict.get "project" m
                  end |}).
Proof.
  intros Hs.
  destruct (rex_match_shape _ _ Hs)
    as (pre & srv & sep & au & pr & post & _ & _ & _ & _ & _ & Gs & Ga & Gp).
  unfold VCSLink.parse. rewrite Hs. cbv zeta.
  pose proof (groupdict_get m) as G0.
  set (d0 := VCSLink.without_none (VCSLink.groupdict m)) in *. clearbody d0.
  assert (Gvcs := G0 "vcs" ltac:(group_name)).
  assert (Gname := G0 "name" ltac:(group_name)).
  assert (Gproject := G0 "project" ltac:(group_name)).
  assert (Gserver := G0 "server" ltac:(group_name)).
  assert (Gauthor := G0 "author" ltac:(group_name)).
  assert (Gprotocol := G0 "protocol" ltac:(group_name)).
  assert (Guser := G0 "user" ltac:(group_name)).
  assert (Gext := G0 "ext" ltac:(group_name)).
  assert (Grev := G0 "rev" ltac:(group_name)).
  clear G0. rewrite Gs in Gserver. rewrite Ga in Gauthor. rewrite Gp in Gproject.
  simpl in Gserver, Gauthor, Gproject.
  destruct (PyDict.get "vcs" m) as [v|];
    destruct (PyDict.get "name" m) as [n|];
    destruct (VCSLink.truthy rev_);
    simpl in Gvcs, Gname;
    unfold PyDict.mem;
    repeat (progress
              (rewrite ?dict_get_set_eq, ?Gvcs, ?Gname, ?Gproject;
               rewrite ?dict_get_set_ne by discriminate;
               rewrite ?Gvcs, ?Gname, ?Gproject; cbn [bind]));
    unfold VCSLink.cls, VCSLink.kwarg;
    repeat (progress
              (rewrite ?dict_get_set_eq;
               rewrite ?dict_get_set_ne by discriminate;
               rewrite ?Gvcs, ?Gname, ?Gproject, ?Gserver, ?Gauthor, ?Gprotocol,
                 ?Guser, ?Gext, ?Grev));
    cbn [bind]; rewrite ?Gs, ?Ga, ?Gp;
    destruct (PyDict.get "protocol" m); destruct (PyDict.get "user" m);
    destruct (PyDict.get "ext" m); destruct (PyDict.get "rev" m); reflexivity.
Qed.

(** X11. When the pattern matches, [parse] returns the link made of the
    captured groups: [vcs] falls back to the argument, [protocol] to ssh,
    [name] to the project; a non-empty [rev] argument replaces the captured
    revision, an empty one or [None] leaves it. *)
Theorem VCSLink_parse_fields (link vcs_ : string) (rev_ name_ : option string)
    (m : Re.captures) :
  Re.search VCSLink.rex link = Some m ->
  VCSLink.parse link vcs_ rev_ name_
  = Ok (Some {| VCSLink.server := PyDict.get "server" m;
                VCSLink.author := PyDict.get "author" m;
                VCSLink.project := PyDict.get "project" m;
                VCSLink.vcs := Some (default vcs_ (PyDict.get "vcs" m));
                VCSLink.protocol := Some (default "ssh" (PyDict.get "protocol" m));
                VCSLink.user := PyDict.get "user" m;
                VCSLink.ext := PyDict.get "ext" m;
                VCSLink.rev :=
                  if VCSLink.truthy rev_ then rev_ else PyDict.get "rev" m;
                VCSLink.name :=
                  match PyDict.get "name" m with
                  | Some n => Some n
                  | None => PyDict.get "project" m
                  end |}).
Proof. apply parse_of_captures. Qed.

Lemma VCSLink_parse_fields_witness :
  exists self,
    VCSLink.parse "https://github.com/r1chardj0n3s/parse.git" "hg" (Some "v1") None
    = Ok (Some self)
    /\ VCSLink.vcs self = Some "hg" /\ VCSLink.rev self = Some "v1"
    /\ VCSLink.name self = Some "parse".
Proof.
  eexists. split.
  - apply (VCSLink_parse_fields _ _ _ _
             [("protocol", "https"); ("server", "github.com");
              ("author", "r1chardj0n3s"); ("project", "parse"); ("ext", ".git")]).
    vm_compute. reflexivity.
  - repeat split.
Defined.

(** X12. The [name] argument of [parse] has no effect: the name of a parsed
    link is the [#egg=] part of the link or else the project, and is never
    [None]. *)
Theorem VCSLink_parse_ignores_name (link vcs_ : string) (rev_ name1 name2 : option string) :
  VCSLink.parse link vcs_ rev_ name1 = VCSLink.parse link vcs_ rev_ name2
  /\ forall self, VCSLink.parse link vcs_ rev_ name1 = Ok (Some self) ->
                  exists n, VCSLink.name self = Some n.
Proof.
  destruct (Re.search VCSLink.rex link) as [m|] eqn:Hs.
  - rewrite !(parse_of_captures _ _ _ _ _ Hs). split; [reflexivity|].
    intros self [= <-]. simpl.
    destruct (rex_match_shape _ _ Hs)
      as (pre & srv & sep & au & pr & post & _ & _ & _ & _ & _ & _ & _ & Gp).
    rewrite Gp. destruct (PyDict.get "name" m); eauto.
  - unfold VCSLink.parse. rewrite Hs. split; [reflexivity | discriminate].
Qed.

(** X13. A non-empty [rev] argument of [parse] becomes the revision of the
    link, whatever the link says; an empty one is treated as [None]. *)
Theorem VCSLink_parse_rev_argument (link vcs_ : string) (name_ : option string) :
  (forall rev_ self,
      rev_ <> EmptyString ->
      VCSLink.parse link vcs_ (Some rev_) name_ = Ok (Some self) ->
      VCSLink.rev self = Some rev_)
  /\ VCSLink.parse link vcs_ (Some EmptyString) name_
     = VCSLink.parse link vcs_ None name_.
Proof.
  destruct (Re.search VCSLink.rex link) as [m|] eqn:Hs.
  - split.
    + intros rev_ self Hne. rewrite (parse_of_captures _ _ _ _ _ Hs).
      intros [= <-]. simpl. destruct rev_; [contradiction | reflexivity].
    + rewrite !(parse_of_captures _ _ _ _ _ Hs). reflexivity.
  - unfold VCSLink.parse. rewrite Hs. split; [discriminate | reflexivity].
Qed.

Lemma VCSLink_parse_rev_argument_witness :
  match VCSLink.parse "git@github.com:org/repo.git@v1" "git" (Some "v2") None with
  | Ok (Some self) => VCSLink.rev self = Some "v2"
  | _ => False
  end.
Proof.
  pose proof (proj1 (VCSLink_parse_rev_argument
                       "git@github.com:org/repo.git@v1" "git" None) "v2") as H.
  destruct (VCSLink.parse "git@github.com:org/repo.git@v1" "git" (Some "v2") None)
    as [[self|]|e] eqn:Hp.
  - apply H; [discriminate | reflexivity].
  - vm_compute in Hp. discriminate.
  - vm_compute in Hp. discriminate.
Defined.

(** ** Links the pattern cannot match *)

Lemma has_char_app a (s1 s2 : string) :
  has_char a (s1 ++ s2) = has_char a s1 || has_char a s2.
Proof.
  induction s1 as [|b s1 IH]; simpl; [reflexivity|].
  rewrite IH, orb_assoc. reflexivity.
Qed.

(** X14. A link without a slash is not a VCS link: [parse] returns [None];
    so it does for the empty string. *)
Theorem VCSLink_parse_needs_slash (link vcs_ : string) (rev_ name_ : option string) :
  has_char "/" link = false -> VCSLink.parse link vcs_ rev_ name_ = Ok None.
Proof.
  intros Hno. unfold VCSLink.parse.
  destruct (Re.search VCSLink.rex link) as [m|] eqn:Hs; [|reflexivity].
  destruct (rex_match_shape _ _ Hs)
    as (pre & srv & sep & au & pr & post & Hl & _).
  rewrite Hl in Hno. rewrite !has_char_app in Hno. simpl in Hno.
  rewrite !has_char_app in Hno. simpl in Hno.
  rewrite !orb_true_r in Hno. discriminate.
Qed.

Lemma VCSLink_parse_needs_slash_witness :
  VCSLink.parse "" "git" None None = Ok None.
Proof. apply VCSLink_parse_needs_slash. reflexivity. Defined.

(** ** What the groups of a match look like *)

Lemma group_rep1 g p greedy pos s c pos' s' c' :
  re_matches (Re.Group g (Re.Rep1 p greedy)) pos s c pos' s' c' ->
  exists w, w <> EmptyString /\ all_chars p w = true
            /\ s = (w ++ s')%string /\ c' = PyDict.set g w c.
Proof.
  intros (c1 & (w & Hne & Hall & -> & -> & ->) & ->). exists w.
  repeat split; try assumption.
  replace (pos + String.length w - pos) with (String.length w) by lia.
  rewrite substring_prefix. reflexivity.
Qed.

Lemma group_lit g l pos s c pos' s' c' :
  re_matches (Re.Group g (Re.Lit l)) pos s c pos' s' c' ->
  s = (l ++ s')%string /\ c' = PyDict.set g l c.
Proof.
  intros (c1 & (-> & -> & ->) & ->). split; [reflexivity|].
  replace (pos + String.length l - pos) with (String.length l) by lia.
  rewrite substring_prefix. reflexivity.
Qed.

Lemma group_alt3 g l1 l2 l3 pos s c pos' s' c' :
  re_matches (Re.Group g (Re.Alt (Re.Lit l1) (Re.Alt (Re.Lit l2) (Re.Lit l3))))
             pos s c pos' s' c' ->
  exists w, (w = l1 \/ w = l2 \/ w = l3) /\ c' = PyDict.set g w c.
Proof.
  intros (c1 & H & ->).
  assert (Hw : exists w, (w = l1 \/ w = l2 \/ w = l3)
                 /\ s = (w ++ s')%string /\ pos' = pos + String.length w /\ c1 = c).
  { destruct H as [(-> & -> & ->)|[(-> & -> & ->)|(-> & -> & ->)]]; eauto 10. }
  destruct Hw as (w & Hw & -> & -> & ->). exists w. split; [exact Hw|].
  replace (pos + String.length w - pos) with (String.length w) by lia.
  rewrite substring_prefix. reflexivity.
Qed.

Lemma rex_match_groups link m :
  Re.search VCSLink.rex link = Some m ->
  (forall p, PyDict.get "protocol" m = Some p -> p = "ssh" \/ p = "https" \/ p = "http")
  /\ (forall x, PyDict.get "ext" m = Some x -> x = ".git")
  /\ (forall srv, PyDict.get "server" m = Some srv -> all_chars Re.not_slash srv = true)
  /\ (forall pr, PyDict.get "project" m = Some pr ->
                 all_chars Re.not_space_hash pr = true).
Proof.
  unfold VCSLink.rex. rewrite search_bol. intros H.
  apply run_sound in H as (pos' & s' & m' & H & [= ->]).
  destruct H as (p1 & s1 & c1 & (_ & -> & -> & ->) & H).
  assert (Pr1 : PyDict.get "protocol" [] = @None string) by reflexivity.
  assert (Ex1 : PyDict.get "ext" [] = @None string) by reflexivity.
  destruct H as (p2 & s2 & c2 & H2 & H).
  pose proof (re_matches_keeps _ "protocol" _ _ _ _ _ _ H2 ltac:(not_a_group)) as Pr2.
  pose proof (re_matches_keeps _ "ext" _ _ _ _ _ _ H2 ltac:(not_a_group)) as Ex2.
  rewrite Pr1 in Pr2. rewrite Ex1 in Ex2. clear H2.
  destruct H as (p3 & s3 & c3 & H3 & H).
  pose proof (re_matches_keeps _ "protocol" _ _ _ _ _ _ H ltac:(not_a_group)) as Kpr.
  pose proof (re_matches_keeps _ "ext" _ _ _ _ _ _ H3 ltac:(not_a_group)) as Ex3.
  rewrite Ex2 in Ex3.
  assert (Fpr : forall p, PyDict.get "protocol" c3 = Some p ->
                          p = "ssh" \/ p = "https" \/ p = "http").
  { destruct H3 as [(q & t & c & Hg & (_ & _ & ->))|(_ & _ & ->)].
    - apply group_alt3 in Hg as (w & Hw & ->). rewrite dict_get_set_eq.
      intros p [= <-]. exact Hw.
    - rewrite Pr2. discriminate. }
  clear H3.
  destruct H as (p4 & s4 & c4 & H4 & H).
  pose proof (re_matches_keeps _ "ext" _ _ _ _ _ _ H4 ltac:(not_a_group)) as Ex4.
  rewrite Ex3 in Ex4. clear H4.
  destruct H as (p5 & s5 & c5 & H5 & H).
  pose proof (re_matches_keeps _ "server" _ _ _ _ _ _ H ltac:(not_a_group)) as Ksrv.
  pose proof (re_matches_keeps _ "ext" _ _ _ _ _ _ H5 ltac:(not_a_group)) as Ex5.
  rewrite Ex4 in Ex5.
  apply group_rep1 in H5 as (srv & _ & Hsrv & _ & Csrv).
  destruct H as (p6 & s6 & c6 & (sep & _ & _ & _ & ->) & H).
  destruct H as (p7 & s7 & c7 & H7 & H).
  pose proof (re_matches_keeps _ "ext" _ _ _ _ _ _ H7 ltac:(not_a_group)) as Ex7.
  rewrite Ex5 in Ex7. clear H7.
  destruct H as (p8 & s8 & c8 & (_ & _ & ->) & H).
  destruct H as (p9 & s9 & c9 & H9 & H).
  pose proof (re_matches_keeps _ "project" _ _ _ _ _ _ H ltac:(not_a_group)) as Kprj.
  pose proof (re_matches_keeps _ "ext" _ _ _ _ _ _ H9 ltac:(not_a_group)) as Ex9.
  rewrite Ex7 in Ex9.
  apply group_rep1 in H9 as (pr & _ & Hpr & _ & Cpr).
  destruct H as (p10 & s10 & c10 & H10 & H).
  pose proof (re_matches_keeps _ "ext" _ _ _ _ _ _ H ltac:(not_a_group)) as Kext.
  assert (Fext : forall x, PyDict.get "ext" c10 = Some x -> x = ".git").
  { destruct H10 as [Hg|(_ & _ & ->)].
    - apply group_lit in Hg as (_ & ->). rewrite dict_get_set_eq.
      intros x [= <-]. reflexivity.
    - rewrite Ex9. discriminate. }
  rewrite Kpr, Kext, Ksrv, Kprj. subst c5 c9. rewrite !dict_get_set_eq.
  split; [exact Fpr|]. split; [exact Fext|].
  split; [intros s [= <-]; exact Hsrv | intros s [= <-]; exact Hpr].
Qed.

Lemma not_slash_has_no_slash (s : string) :
  all_chars Re.not_slash s = true -> has_char "/" s = false.
Proof.
  induction s as [|a s IH]; simpl; [reflexivity|].
  intros H. apply andb_true_iff in H as [Ha Hs]. rewrite (IH Hs), orb_false_r.
  unfold Re.not_slash in Ha. apply negb_true_iff in Ha.
  rewrite Ascii.eqb_sym. exact Ha.
Qed.

(** X15. In every link that [parse] returns, [protocol] is ssh, https or
    http, [ext] is [.git] or [None], [server] contains no slash, and
    [project] contains no white space and no [#]. *)
Theorem VCSLink_parse_field_shapes (link vcs_ : string) (rev_ name_ : option string)
    (self : VCSLink.t) :
  VCSLink.parse link vcs_ rev_ name_ = Ok (Some self) ->
  (VCSLink.protocol self = Some "ssh" \/ VCSLink.protocol self = Some "https"
   \/ VCSLink.protocol self = Some "http")
  /\ (VCSLink.ext self = None \/ VCSLink.ext self = Some ".git")
  /\ (exists srv, VCSLink.server self = Some srv /\ has_char "/" srv = false)
  /\ (exists pr, VCSLink.project self = Some pr
                 /\ all_chars Re.not_space_hash pr = true).
Proof.
  destruct (Re.search VCSLink.rex link) as [m|] eqn:Hs.
  - rewrite (parse_of_captures _ _ _ _ _ Hs). intros [= <-]. simpl.
    destruct (rex_match_groups _ _ Hs) as (Fpr & Fext & Fsrv & Fprj).
    destruct (rex_match_shape _ _ Hs)
      as (pre & srv & sep & au & pr & post & _ & _ & _ & _ & _ & Gs & _ & Gp).
    split; [|split; [|split]].
    + destruct (PyDict.get "protocol" m) as [p|]; simpl; [|auto].
      destruct (Fpr p eq_refl) as [-> | [-> | ->]]; auto.
    + destruct (PyDict.get "ext" m) as [x|]; [|auto]. right. f_equal. auto.
    + exists srv. split; [exact Gs|]. apply not_slash_has_no_slash, Fsrv, Gs.
    + exists pr. split; [exact Gp|]. apply Fprj, Gp.
  - unfold VCSLink.parse. rewrite Hs. discriminate.
Qed.

Lemma VCSLink_parse_field_shapes_witness :
  VCSLink.ext
    {| VCSLink.server := Some "bitbucket.org"; VCSLink.author := Some "mnpenner";
       VCSLink.project := Some "merge-attrs"; VCSLink.vcs := Some "git";
       VCSLink.protocol := Some "ssh"; VCSLink.user := Some "hg";
       VCSLink.ext := None; VCSLink.rev := None;
       VCSLink.name := Some "merge-attrs" |} = None
  \/ VCSLink.ext
    {| VCSLink.server := Some "bitbucket.org"; VCSLink.author := Some "mnpenner";
       VCSLink.project := Some "merge-attrs"; VCSLink.vcs := Some "git";
       VCSLink.protocol := Some "ssh"; VCSLink.user := Some "hg";
       VCSLink.ext := None; VCSLink.rev := None;
       VCSLink.name := Some "merge-attrs" |} = Some ".git".
Proof.
  apply (VCSLink_parse_field_shapes "ssh://hg@bitbucket.org/mnpenner/merge-attrs"
           "git" None None).
  vm_compute. reflexivity.
Defined.

(** ** The short form of a parsed link *)

(** X16. [short] does not fail on a link that [parse] returned: it is the
    protocol with [://] unless the protocol is ssh, the user with [@] if
    there is one, the server, [:] for ssh and [/] otherwise, then
    [author/project] and the extension if there is one. *)
Theorem VCSLink_short_of_parsed (link vcs_ : string) (rev_ name_ : option string)
    (self : VCSLink.t) :
  VCSLink.parse link vcs_ rev_ name_ = Ok (Some self) ->
  exists proto srv au pr,
    VCSLink.protocol self = Some proto /\ VCSLink.server self = Some srv
    /\ VCSLink.author self = Some au /\ VCSLink.project self = Some pr
    /\ VCSLink.short self
       = Ok (Some ((if String.eqb proto "ssh" then "" else proto ++ "://")
                   ++ match VCSLink.user self with
                      | Some (String a u) => String a u ++ "@"
                      | _ => ""
                      end
                   ++ srv ++ (if String.eqb proto "ssh" then ":" else "/")
                   ++ au ++ "/" ++ pr
                   ++ match VCSLink.ext self with Some x => x | None => "" end)%string).
Proof.
  destruct (Re.search VCSLink.rex link) as [m|] eqn:Hs.
  - rewrite (parse_of_captures _ _ _ _ _ Hs). intros [= <-]. simpl.
    destruct (rex_match_shape _ _ Hs)
      as (pre & srv & sep & au & pr & post & _ & _ & _ & _ & _ & Gs & Ga & Gp).
    exists (default "ssh" (PyDict.get "protocol" m)), srv, au, pr.
    rewrite Gs, Ga, Gp. repeat split.
    unfold VCSLink.short. simpl. rewrite ?Gs, ?Ga, ?Gp.
    destruct (String.eqb (default "ssh" (PyDict.get "protocol" m)) "ssh");
      destruct (PyDict.get "user" m) as [[|a u]|];
      destruct (PyDict.get "ext" m) as [[|b x]|];
      simpl; rewrite ?string_app_assoc, ?string_app_nil_r; simpl;
      rewrite ?string_app_assoc; reflexivity.
  - unfold VCSLink.parse. rewrite Hs. discriminate.
Qed.

Lemma VCSLink_short_of_parsed_witness :
  VCSLink.short
    {| VCSLink.server := Some "github.com"; VCSLink.author := Some "r1chardj0n3s";
       VCSLink.project := Some "parse"; VCSLink.vcs := Some "git";
       VCSLink.protocol := Some "https"; VCSLink.user := None;
       VCSLink.ext := Some ".git"; VCSLink.rev := None;
       VCSLink.name := Some "parse" |}
  = Ok (Some "https://github.com/r1chardj0n3s/parse.git").
Proof.
  assert (Hp : VCSLink.parse "https://github.com/r1chardj0n3s/parse.git" "git" None None
               = Ok (Some {| VCSLink.server := Some "github.com";
                             VCSLink.author := Some "r1chardj0n3s";
                             VCSLink.project := Some "parse"; VCSLink.vcs := Some "git";
                             VCSLink.protocol := Some "https"; VCSLink.user := None;
                             VCSLink.ext := Some ".git"; VCSLink.rev := None;
                             VCSLink.name := Some "parse" |}))
    by (vm_compute; reflexivity).
  destruct (VCSLink_short_of_parsed _ _ _ _ _ Hp)
    as (proto & srv & au & pr & [= <-] & [= <-] & [= <-] & [= <-] & H).
  exact H.
Defined.

Lemma VCSLink_parse_ignores_name_witness :
  exists n,
    VCSLink.name
      {| VCSLink.server := Some "github.com"; VCSLink.author := Some "r1chardj0n3s";
         VCSLink.project := Some "parse"; VCSLink.vcs := Some "git";
         VCSLink.protocol := Some "https"; VCSLink.user := None;
         VCSLink.ext := Some ".git"; VCSLink.rev := None;
         VCSLink.name := Some "parse" |} = Some n.
Proof.
  apply (VCSLink_parse_ignores_name "https://github.com/r1chardj0n3s/parse.git"
           "git" None (Some "ignored") None).
  vm_compute. reflexivity.
Defined.

(** * The dictionaries as shared objects: properties *)

Import Aliased.

Lemma extends_refl st : extends st st.
Proof. split; auto. Qed.

Lemma extends_trans st1 st2 st3 : extends st1 st2 -> extends st2 st3 -> extends st1 st3.
Proof.
  intros [H1 H2] [H3 H4]. split; [lia|]. intros l Hl.
  rewrite H4 by lia. apply H2, Hl.
Qed.

Lemma extends_alloc st d : extends st (fst (alloc st d)).
Proof.
  split; simpl; [lia|]. intros l Hl. destruct (Nat.eqb_spec l (next st)); [lia | reflexivity].
Qed.

Lemma view_layer_extends st s layer :
  extends st s -> LayerObj._mapping layer < next st ->
  view_layer s layer = view_layer st layer.
Proof. intros [_ H] Hl. unfold view_layer. rewrite H by exact Hl. reflexivity. Qed.

(** [Layer.add] on the dictionary object of the layer *)
Lemma layerobj_add_view h st layer dep :
  match LayerObj.add h st layer dep with
  | Ok st' =>
      Layer.add h (view_layer st layer) dep = Ok (view_layer st' layer)
      /\ next st' = next st
      /\ (forall l, l <> LayerObj._mapping layer -> dicts st' l = dicts st l)
  | Raise e => Layer.add h (view_layer st layer) dep = Raise e
  end.
Proof.
  unfold LayerObj.add, Layer.add, view_layer. simpl.
  destruct (PyDict.mem _ _); [reflexivity|]. simpl.
  rewrite Nat.eqb_refl. repeat split.
  intros l Hl. destruct (Nat.eqb_spec l (LayerObj._mapping layer)); congruence.
Qed.

Lemma layerobj_init_fold h self deps : forall s,
  match fold_left (fun acc dep => let* s := acc in LayerObj.add h s self dep)
                  deps (Ok s) with
  | Ok s' =>
      fold_left (fun acc dep => let* v := acc in Layer.add h v dep) deps
                (Ok (view_layer s self)) = Ok (view_layer s' self)
      /\ next s' = next s
      /\ (forall l, l <> LayerObj._mapping self -> dicts s' l = dicts s l)
  | Raise e =>
      fold_left (fun acc dep => let* v := acc in Layer.add h v dep) deps
                (Ok (view_layer s self)) = Raise e
  end.
Proof.
  induction deps as [|d deps IH]; intros s; cbn [fold_left].
  - auto.
  - cbn [bind]. pose proof (layerobj_add_view h s self d) as Hadd.
    destruct (LayerObj.add h s self d) as [s1|e].
    + destruct Hadd as (Hv & Hn & Hd). rewrite Hv. specialize (IH s1).
      destruct (fold_left _ deps (Ok s1)) as [s'|e].
      * destruct IH as (H1 & H2 & H3). split; [exact H1|]. split; [lia|].
        intros l Hl. rewrite H3 by exact Hl. auto.
      * exact IH.
    + rewrite Hadd. rewrite layer_init_fold_raise.
      clear. induction deps as [|d' deps IH]; simpl; auto.
Qed.

(** [Layer(level, *deps)] makes one new dictionary object. *)
Lemma layerobj_init_view h st lvl deps :
  match LayerObj.init h st lvl deps with
  | Ok (st', layer) =>
      Layer.init h lvl deps = Ok (view_layer st' layer)
      /\ LayerObj._mapping layer = next st /\ LayerObj.level layer = lvl
      /\ next st' = S (next st) /\ extends st st'
  | Raise e => Layer.init h lvl deps = Raise e
  end.
Proof.
  unfold LayerObj.init, Layer.init. cbv zeta.
  set (self := {| LayerObj.level := lvl; LayerObj._mapping := snd (alloc st []) |}).
  set (s0 := fst (alloc st [])).
  assert (Hv : view_layer s0 self = {| Layer.level := lvl; Layer._mapping := [] |}).
  { unfold view_layer, s0, self. simpl. rewrite Nat.eqb_refl. reflexivity. }
  pose proof (layerobj_init_fold h self deps s0) as H. rewrite Hv in H.
  destruct (fold_left _ deps (Ok s0)) as [s'|e]; cbn [bind].
  - destruct H as (H1 & H2 & H3). split; [exact H1|].
    split; [reflexivity|]. split; [reflexivity|]. split; [exact H2|].
    split; [rewrite H2; simpl; lia|].
    intros l Hl. rewrite H3 by (simpl; lia). simpl.
    destruct (Nat.eqb_spec l (next st)); [lia | reflexivity].
  - exact H.
Qed.

(** [Layer.clear] leaves the old dictionary object as it is. *)
Lemma layerobj_clear_view h st layer :
  view_layer (fst (LayerObj.clear h st layer)) (snd (LayerObj.clear h st layer))
  = Layer.clear h (view_layer st layer)
  /\ LayerObj._mapping (snd (LayerObj.clear h st layer)) = next st
  /\ next (fst (LayerObj.clear h st layer)) = S (next st)
  /\ extends st (fst (LayerObj.clear h st layer)).
Proof.
  unfold LayerObj.clear, view_layer, Layer.clear. simpl.
  rewrite Nat.eqb_refl. split; [reflexivity|]. split; [reflexivity|].
  split; [reflexivity|]. apply (extends_alloc st).
Qed.

Lemma view_layers_extends st s (layers : list LayerObj.t) :
  extends st s ->
  Forall (fun layer => LayerObj._mapping layer < next st) layers ->
  map (view_layer s) layers = map (view_layer st) layers.
Proof.
  intros Hext Hl. induction Hl as [|x l Hx _ IH]; simpl; [reflexivity|].
  rewrite IH, (view_layer_extends st s x Hext Hx). reflexivity.
Qed.

(** The loop of [Graph.clear]: every layer gets a new dictionary object,
    at the next locations in turn. *)
Lemma graphobj_clear_fold h st (rest : list LayerObj.t) : forall s acc,
  extends st s ->
  Forall (fun layer => LayerObj._mapping layer < next st) rest ->
  Forall (fun layer => LayerObj._mapping layer < next s) acc ->
  let res :=
    fold_left
      (fun acc layer =>
         let new := LayerObj.clear h (fst acc) layer in
         (fst new, snd acc ++ [snd new]))
      rest (s, acc) in
  extends s (fst res)
  /\ next (fst res) = next s + length rest
  /\ map (view_layer (fst res)) (snd res)
     = map (view_layer s) acc ++ map (fun layer => Layer.clear h (view_layer st layer)) rest
  /\ map LayerObj._mapping (snd res)
     = map LayerObj._mapping acc ++ seq (next s) (length rest).
Proof.
  induction rest as [|layer rest IH]; intros s acc Hext Hrest Hacc; cbn [fold_left].
  - simpl. rewrite !app_nil_r, Nat.add_0_r. split; [apply extends_refl|]. auto.
  - apply Forall_cons in Hrest as [Hlayer Hrest].
    destruct (layerobj_clear_view h s layer) as (Hv & Hloc & Hnext & Hext1).
    cbv beta zeta in IH |- *. cbn [fst snd].
    set (s1 := fst (LayerObj.clear h s layer)) in *.
    set (layer1 := snd (LayerObj.clear h s layer)) in *.
    clearbody s1 layer1.
    assert (Hacc1 : Forall (fun l => LayerObj._mapping l < next s1) (acc ++ [layer1])).
    { apply Forall_app. split.
      - eapply Forall_impl; [exact Hacc|]. intros x Hx. simpl in Hx. lia.
      - constructor; [lia | constructor]. }
    destruct (IH s1 (acc ++ [layer1]) (extends_trans _ _ _ Hext Hext1) Hrest Hacc1)
      as (E1 & E2 & E3 & E4).
    split; [eapply extends_trans; eauto|]. split; [rewrite E2, Hnext; simpl; lia|].
    split.
    + rewrite E3, map_app. simpl. rewrite <- app_assoc. simpl.
      rewrite (view_layers_extends s s1 acc Hext1 Hacc), Hv.
      rewrite (view_layer_extends st s layer Hext Hlayer). reflexivity.
    + rewrite E4, map_app. simpl. rewrite <- app_assoc. simpl.
      rewrite Hloc, Hnext. reflexivity.
Qed.

Lemma store_wf_layers st g :
  store_wf st g ->
  Forall (fun layer => LayerObj._mapping layer < next st) (GraphObj._layers g).
Proof. intros (_ & H & _). exact H. Qed.

(** [Graph.clear] on shared dictionaries *)
Lemma graphobj_clear_view h st g :
  store_wf st g ->
  view (fst (GraphObj.clear h st g)) (snd (GraphObj.clear h st g))
  = Graph.clear h (view st g)
  /\ store_wf (fst (GraphObj.clear h st g)) (snd (GraphObj.clear h st g))
  /\ extends st (fst (GraphObj.clear h st g))
  /\ GraphObj._deps (snd (GraphObj.clear h st g)) = GraphObj._deps g
  /\ map LayerObj._mapping (GraphObj._layers (snd (GraphObj.clear h st g)))
     = map LayerObj._mapping (take 1 (GraphObj._layers g))
       ++ seq (next st) (length (drop 1 (GraphObj._layers g))).
Proof.
  intros (Hnd & Hl & Hd). unfold GraphObj.clear.
  destruct (graphobj_clear_fold h st (drop 1 (GraphObj._layers g)) st
              (take 1 (GraphObj._layers g)) (extends_refl st))
    as (E1 & E2 & E3 & E4).
  { apply Forall_drop, Hl. }
  { apply Forall_take, Hl. }
  set (res := fold_left _ _ _) in *. cbn [fst snd].
  split; [|split; [|split; [|split]]].
  - unfold view, Graph.clear, Graph.with_layers. simpl. f_equal.
    rewrite E3, List.firstn_map, List.skipn_map, map_map. reflexivity.
  - split; [|split]; simpl.
    + rewrite E4. apply NoDup_app. split; [|split].
      * rewrite <- (take_drop 1 (GraphObj._layers g)), map_app in Hnd.
        apply NoDup_app in Hnd. apply Hnd.
      * intros l Hin Hin'. apply elem_of_seq in Hin'.
        apply list_elem_of_fmap in Hin as (layer & -> & Hin).
        apply elem_of_take in Hin as (i & Hi & _).
        rewrite Forall_forall in Hl.
        assert (LayerObj._mapping layer < next st).
        { apply Hl, list_elem_of_lookup. eauto. }
        lia.
      * apply NoDup_seq.
    + apply Forall_forall. intros layer Hin.
      assert (Hm : LayerObj._mapping layer ∈ map LayerObj._mapping (snd res)).
      { apply list_elem_of_fmap. eauto. }
      rewrite E4 in Hm. apply elem_of_app in Hm as [Hm|Hm].
      * apply list_elem_of_fmap in Hm as (layer' & -> & Hin').
        apply elem_of_take in Hin' as (i & Hi & _).
        rewrite Forall_forall in Hl.
        assert (LayerObj._mapping layer' < next st).
        { apply Hl, list_elem_of_lookup. eauto. }
        destruct E1. lia.
      * apply elem_of_seq in Hm. destruct E1. lia.
    + eapply Forall_impl; [exact Hd|]. intros l Hlt. simpl in Hlt. destruct E1. lia.
  - exact E1.
  - reflexivity.
  - simpl. exact E4.
Qed.

Lemma view_layers_insert st st' (layers : list LayerObj.t) k layer :
  NoDup (map LayerObj._mapping layers) ->
  layers !! k = Some layer ->
  (forall l, l <> LayerObj._mapping layer -> dicts st' l = dicts st l) ->
  map (view_layer st') layers
  = <[k := view_layer st' layer]> (map (view_layer st) layers).
Proof.
  intros Hnd Hk Hsame. apply list_eq. intros i.
  destruct (decide (i = k)) as [->|Hne].
  - rewrite list_lookup_insert_eq by (rewrite length_map; eapply lookup_lt_Some, Hk).
    change (map (view_layer st') layers) with (view_layer st' <$> layers).
    rewrite list_lookup_fmap, Hk. reflexivity.
  - rewrite list_lookup_insert_ne by congruence.
    change (map (view_layer st') layers) with (view_layer st' <$> layers).
    change (map (view_layer st) layers) with (view_layer st <$> layers).
    rewrite !list_lookup_fmap. destruct (layers !! i) as [x|] eqn:Hi; [|reflexivity].
    simpl. f_equal. unfold view_layer. rewrite Hsame; [reflexivity|].
    intros Heq. apply Hne.
    eapply (NoDup_lookup _ i k (LayerObj._mapping x)); [exact Hnd| |].
    + change (map LayerObj._mapping layers) with (LayerObj._mapping <$> layers).
      rewrite list_lookup_fmap, Hi. reflexivity.
    + change (map LayerObj._mapping layers) with (LayerObj._mapping <$> layers).
      rewrite list_lookup_fmap, Hk. simpl. congruence.
Qed.

Lemma store_wf_written st st' g :
  store_wf st g -> next st' = next st -> store_wf st' g.
Proof. intros (H1 & H2 & H3) Hn. unfold store_wf. rewrite Hn. auto. Qed.

(** [add] at a level, on shared dictionaries *)
Lemma graphobj_add_level_view h st g dep k :
  store_wf st g ->
  match GraphObj.add_level h st g dep k with
  | Ok (st', g') =>
      Graph.add_level h (view st g) dep k = Ok (view st' g')
      /\ store_wf st' g' /\ (chain_synced g -> chain_synced g')
      /\ GraphObj._roots g' = GraphObj._roots g
  | Raise e => Graph.add_level h (view st g) dep k = Raise e
  end.
Proof.
  intros Hwf. pose proof Hwf as (Hnd & Hl & Hd).
  unfold GraphObj.add_level, Graph.add_level.
  change (Graph._layers (view st g)) with (map (view_layer st) (GraphObj._layers g)).
  rewrite length_map.
  destruct (Nat.ltb_spec k (length (GraphObj._layers g))) as [Hlt|Hge].
  - destruct (GraphObj._layers g !! k) as [layer|] eqn:Hk;
      [|apply lookup_ge_None in Hk; lia].
    unfold Graph.get_layer_level.
    change (Graph._layers (view st g)) with (view_layer st <$> GraphObj._layers g).
    rewrite list_lookup_fmap, Hk. simpl.
    pose proof (layerobj_add_view h st layer dep) as Hadd.
    destruct (LayerObj.add h st layer dep) as [st'|e]; simpl.
    + destruct Hadd as (Hv & Hn & Hsame). rewrite Hv. simpl.
      split; [|split; [eapply store_wf_written; eauto | auto]].
      unfold view, Graph.with_layers. simpl. f_equal. f_equal. symmetry.
      apply view_layers_insert; assumption.
    + rewrite Hadd. reflexivity.
  - pose proof (layerobj_init_view h st k [dep]) as Hinit.
    destruct (LayerObj.init h st k [dep]) as [[st' layer]|e]; cbn [bind fst snd].
    + destruct Hinit as (Hv & Hloc & Hlvl & Hn & Hext). rewrite Hv. cbn [bind].
      split; [|split; [|split]].
      * unfold view, Graph.with_layers. simpl. f_equal. f_equal.
        rewrite map_app. simpl.
        rewrite (view_layers_extends st st' _ Hext Hl). reflexivity.
      * split; [|split]; simpl.
        -- rewrite map_app. simpl. apply NoDup_app. split; [exact Hnd|].
           split; [|apply NoDup_singleton].
           intros l Hin Hin'. apply list_elem_of_singleton in Hin'. subst l.
           apply list_elem_of_fmap in Hin as (x & Hx & Hin).
           rewrite Forall_forall in Hl. specialize (Hl x Hin). lia.
        -- apply Forall_app. split.
           ++ eapply Forall_impl; [exact Hl|]. intros x Hx. simpl in Hx. lia.
           ++ constructor; [lia | constructor].
        -- constructor; [lia|].
           eapply Forall_impl; [exact Hd|]. intros x Hx. simpl in Hx. lia.
      * unfold chain_synced. simpl. intros ->. rewrite map_app, rev_app_distr.
        reflexivity.
      * reflexivity.
    + rewrite Hinit. reflexivity.
Qed.

Lemma find_map {A B} (f : B -> bool) (g : A -> B) (l : list A) :
  List.find f (map g l) = option_map g (List.find (fun x => f (g x)) l).
Proof.
  induction l as [|x l IH]; simpl; [reflexivity|].
  destruct (f (g x)); [reflexivity | exact IH].
Qed.

(** [add] on shared dictionaries *)
Lemma graphobj_add_view h st g dep lvl :
  store_wf st g ->
  match GraphObj.add h st g dep lvl with
  | Ok (st', g') =>
      Graph.add h (view st g) dep lvl = Ok (view st' g')
      /\ store_wf st' g' /\ (chain_synced g -> chain_synced g')
  | Raise e => Graph.add h (view st g) dep lvl = Raise e
  end.
Proof.
  intros Hwf. pose proof Hwf as (Hnd & Hl & Hd).
  unfold GraphObj.add, Graph.add. destruct (is_root (h dep)).
  - unfold Graph.get_layer_level. simpl.
    change (map (view_layer st) (GraphObj._layers g))
      with (view_layer st <$> GraphObj._layers g).
    rewrite list_lookup_fmap.
    destruct (GraphObj._layers g !! 0) as [layer0|] eqn:H0; simpl; [|reflexivity].
    pose proof (layerobj_add_view h st layer0 dep) as Hadd.
    destruct (LayerObj.add h st layer0 dep) as [st'|e]; simpl.
    + destruct Hadd as (Hv & Hn & Hsame). rewrite Hv. simpl.
      split; [|split; [|auto]].
      * unfold view. simpl. f_equal. f_equal. symmetry.
        apply view_layers_insert; assumption.
      * unfold store_wf. simpl. rewrite Hn. auto.
    + rewrite Hadd. reflexivity.
  - assert (Hlevel : forall k,
              match GraphObj.add_level h st g dep k with
              | Ok (st', g') =>
                  Graph.add_level h (view st g) dep k = Ok (view st' g')
                  /\ store_wf st' g' /\ (chain_synced g -> chain_synced g')
              | Raise e => Graph.add_level h (view st g) dep k = Raise e
              end).
    { intros k. pose proof (graphobj_add_level_view h st g dep k Hwf) as H.
      destruct (GraphObj.add_level h st g dep k) as [[st' g']|e]; [|exact H].
      destruct H as (H1 & H2 & H3 & _). auto. }
    destruct lvl as [k|]; [apply Hlevel|].
    unfold GraphObj.find_parent_layer, Graph.find_parent_layer. simpl.
    rewrite find_map.
    destruct (List.find _ (GraphObj._layers g)) as [layer|]; simpl;
      [apply Hlevel | reflexivity].
Qed.

(** [reset] on shared dictionaries *)
Lemma graphobj_reset_view h st g :
  match GraphObj.reset h st g with
  | Ok (st', g') =>
      Graph.reset h (view st g) = Ok (view st' g')
      /\ store_wf st' g' /\ chain_synced g'
  | Raise e => Graph.reset h (view st g) = Raise e
  end.
Proof.
  unfold GraphObj.reset, Graph.reset. simpl.
  pose proof (layerobj_init_view h st 0 (GraphObj._roots g)) as Hinit.
  destruct (LayerObj.init h st 0 (GraphObj._roots g)) as [[st' layer]|e]; simpl.
  - destruct Hinit as (Hv & Hloc & Hlvl & Hn & Hext). rewrite Hv. simpl.
    split; [reflexivity|]. split; [|reflexivity].
    split; [|split]; simpl.
    + apply NoDup_singleton.
    + constructor; [lia | constructor].
    + constructor; [lia | constructor].
  - rewrite Hinit. reflexivity.
Qed.

(** ** The names the graph reports *)

Lemma names_elem st g n :
  n ∈ GraphObj.names st g <->
  exists l, l ∈ GraphObj._deps g /\ n ∈ PyDict.keys (dicts st l).
Proof.
  unfold GraphObj.names. rewrite elem_of_union_list. split.
  - intros (X & HX & Hn). apply list_elem_of_fmap in HX as (l & -> & Hl).
    exists l. split; [exact Hl|]. apply elem_of_list_to_set in Hn. exact Hn.
  - intros (l & Hl & Hn). exists (list_to_set (PyDict.keys (dicts st l))).
    split; [|apply elem_of_list_to_set, Hn].
    apply list_elem_of_fmap. eauto.
Qed.

Lemma names_same st st' g g' :
  GraphObj._deps g' = GraphObj._deps g ->
  (forall l, l ∈ GraphObj._deps g -> dicts st' l = dicts st l) ->
  GraphObj.names st' g' = GraphObj.names st g.
Proof.
  intros Hd Hsame. apply set_eq. intros n. rewrite !names_elem, Hd.
  split; intros (l & Hl & Hn); exists l; (split; [exact Hl|]).
  - rewrite <- Hsame; assumption.
  - rewrite Hsame; assumption.
Qed.

Lemma first_match_layer nm (l : list Layer.t) r :
  Graph.first_match nm l = Some r ->
  exists layer, layer ∈ l /\ Layer.get layer nm = Some r.
Proof.
  induction l as [|x l IH]; simpl; [discriminate|].
  destruct (Layer.get x nm) as [r0|] eqn:E.
  - intros [= <-]. exists x. split; [apply list_elem_of_here | exact E].
  - intros H. destruct (IH H) as (layer & Hin & Hget).
    exists layer. split; [apply list_elem_of_further, Hin | exact Hget].
Qed.

Lemma names_of_synced st g n :
  chain_synced g ->
  n ∈ GraphObj.names st g <-> exists r, Graph.get (view st g) n = Some r.
Proof.
  intros Hsync. rewrite names_elem, Hsync. split.
  - intros (l & Hl & Hn).
    apply list_elem_of_In, in_rev, list_elem_of_In in Hl.
    apply list_elem_of_fmap in Hl as (layer & -> & Hlayer).
    apply dict_mem_true in Hn. unfold PyDict.mem in Hn.
    destruct (PyDict.get n (dicts st (LayerObj._mapping layer))) as [r|] eqn:E;
      [|discriminate].
    apply (graph_get_found _ _ (view_layer st layer) r); [|exact E].
    simpl. apply list_elem_of_fmap. eauto.
  - intros (r & Hr). unfold Graph.get in Hr.
    apply first_match_layer in Hr as (vl & Hin & Hget).
    apply list_elem_of_In, in_rev, list_elem_of_In in Hin. simpl in Hin.
    apply list_elem_of_fmap in Hin as (layer & -> & Hlayer).
    exists (LayerObj._mapping layer). split.
    + apply list_elem_of_In, in_rev. rewrite rev_involutive.
      apply list_elem_of_In, list_elem_of_fmap. eauto.
    + apply dict_mem_true. unfold PyDict.mem.
      unfold Layer.get, view_layer in Hget. simpl in Hget. rewrite Hget. reflexivity.
Qed.

Lemma names_after_clear h st g :
  store_wf st g ->
  GraphObj.names (fst (GraphObj.clear h st g)) (snd (GraphObj.clear h st g))
  = GraphObj.names st g.
Proof.
  intros Hwf. destruct (graphobj_clear_view h st g Hwf) as (_ & _ & [_ Hext] & Hd & _).
  apply names_same; [exact Hd|]. intros l Hl. apply Hext.
  destruct Hwf as (_ & _ & Hdeps). rewrite Forall_forall in Hdeps. auto.
Qed.

(** X17. With the dictionaries held as shared objects, [add], [clear] and
    [reset] act on the layers as [Graph.add], [Graph.clear] and
    [Graph.reset] do on layers that own their dictionaries, with the same
    exceptions: the layers never share a dictionary, and a change made
    through one layer is not seen through another.  [add] and [reset] leave
    the [ChainMap] on the dictionaries of the layers. *)
Theorem Aliased_graph_acts_on_layers (h : heap) (st : store) (g : GraphObj.t) :
  store_wf st g ->
  (forall dep lvl,
      match GraphObj.add h st g dep lvl with
      | Ok (st', g') =>
          Graph.add h (view st g) dep lvl = Ok (view st' g')
          /\ store_wf st' g' /\ (chain_synced g -> chain_synced g')
      | Raise e => Graph.add h (view st g) dep lvl = Raise e
      end)
  /\ (view (fst (GraphObj.clear h st g)) (snd (GraphObj.clear h st g))
      = Graph.clear h (view st g)
      /\ store_wf (fst (GraphObj.clear h st g)) (snd (GraphObj.clear h st g)))
  /\ match GraphObj.reset h st g with
     | Ok (st', g') =>
         Graph.reset h (view st g) = Ok (view st' g')
         /\ store_wf st' g' /\ chain_synced g'
     | Raise e => Graph.reset h (view st g) = Raise e
     end.
Proof.
  intros Hwf. split; [|split].
  - intros dep lvl. apply graphobj_add_view, Hwf.
  - destruct (graphobj_clear_view h st g Hwf) as (H1 & H2 & _). auto.
  - apply graphobj_reset_view.
Qed.

(** X18. As long as the [ChainMap] is on the dictionaries of the layers
    (a graph made by [Graph(root)], [add] and [reset]), [names] holds
    exactly the names that [get] finds. *)
Theorem Aliased_names_are_the_keys (st : store) (g : GraphObj.t) (n : string) :
  chain_synced g ->
  (n ∈ GraphObj.names st g <-> exists r, Graph.get (view st g) n = Some r)
  /\ (GraphObj.contains_name st g n = true <->
      exists r, Graph.get (view st g) n = Some r).
Proof.
  intros Hsync. split; [apply names_of_synced, Hsync|].
  unfold GraphObj.contains_name. rewrite bool_decide_eq_true.
  apply names_of_synced, Hsync.
Qed.

(** X19. [clear] does not change [names]: the [ChainMap] keeps the
    dictionaries the layers had before, so the name of a dependency that
    [clear] dropped from its layer stays in [names]. *)
Theorem Aliased_clear_keeps_names (h : heap) (st : store) (g : GraphObj.t) :
  store_wf st g ->
  GraphObj.names (fst (GraphObj.clear h st g)) (snd (GraphObj.clear h st g))
  = GraphObj.names st g
  /\ (chain_synced g ->
      forall n r, Graph.get (view st g) n = Some r ->
        GraphObj.contains_name (fst (GraphObj.clear h st g))
                               (snd (GraphObj.clear h st g)) n = true).
Proof.
  intros Hwf. split; [apply names_after_clear, Hwf|].
  intros Hsync n r Hget. unfold GraphObj.contains_name.
  rewrite bool_decide_eq_true, (names_after_clear h st g Hwf).
  apply names_of_synced; eauto.
Qed.

Lemma sample_store_wf : store_wf sample_store sample_obj.
Proof.
  split; [|split]; simpl.
  - apply (bool_decide_unpack _). vm_compute. exact I.
  - repeat constructor.
  - repeat constructor.
Qed.

Lemma Aliased_graph_acts_on_layers_witness :
  view (fst (GraphObj.clear sample sample_store sample_obj))
       (snd (GraphObj.clear sample sample_store sample_obj))
  = Graph.clear sample (view sample_store sample_obj).
Proof. apply (Aliased_graph_acts_on_layers sample), sample_store_wf. Defined.

Lemma Aliased_names_are_the_keys_witness :
  "a" ∈ GraphObj.names sample_store sample_obj.
Proof.
  apply (Aliased_names_are_the_keys sample_store sample_obj "a"); [reflexivity|].
  exists 1. reflexivity.
Defined.

Lemma Aliased_clear_keeps_names_witness :
  GraphObj.contains_name (fst (GraphObj.clear sample sample_store sample_obj))
                         (snd (GraphObj.clear sample sample_store sample_obj)) "c" = true
  /\ Graph.get (view (fst (GraphObj.clear sample sample_store sample_obj))
                     (snd (GraphObj.clear sample sample_store sample_obj))) "c" = None.
Proof.
  split; [|reflexivity].
  apply (proj2 (Aliased_clear_keeps_names sample sample_store sample_obj sample_store_wf)
           eq_refl "c" 3).
  reflexivity.
Defined.

Lemma length_layers_after_clear h st g :
  store_wf st g ->
  length (GraphObj._layers (snd (GraphObj.clear h st g))) = length (GraphObj._layers g).
Proof.
  intros Hwf. destruct (graphobj_clear_view h st g Hwf) as (_ & _ & _ & _ & E).
  apply (f_equal (@length _)) in E.
  rewrite length_app, !length_map, length_seq in E.
  rewrite E, <- length_app, take_drop. reflexivity.
Qed.

Lemma loc_after_clear h st g k layer :
  store_wf st g -> 1 <= k ->
  GraphObj._layers (snd (GraphObj.clear h st g)) !! k = Some layer ->
  next st <= LayerObj._mapping layer.
Proof.
  intros Hwf Hk Hl. destruct (graphobj_clear_view h st g Hwf) as (_ & _ & _ & _ & E).
  assert (Hm : map LayerObj._mapping (GraphObj._layers (snd (GraphObj.clear h st g))) !! k
               = Some (LayerObj._mapping layer)).
  { change (map LayerObj._mapping ?l) with (LayerObj._mapping <$> l).
    rewrite list_lookup_fmap, Hl. reflexivity. }
  rewrite E in Hm. apply lookup_app_Some in Hm as [Hm|[_ Hm]].
  - apply lookup_lt_Some in Hm. rewrite length_map, length_take in Hm. lia.
  - apply lookup_seq in Hm as [-> _]. lia.
Qed.

(** X20. After [clear], a dependency added to a layer other than layer 0
    that exists already enters the new dictionary of that layer, which the
    [ChainMap] does not hold: [get] finds it, and [names] is what it was
    before the [clear]. *)
Theorem Aliased_add_after_clear_not_in_names (h : heap) (st st2 : store)
    (g g2 : GraphObj.t) (dep : ref) (k : nat) :
  store_wf st g ->
  is_root (h dep) = false ->
  1 <= k -> k < length (GraphObj._layers g) ->
  GraphObj.add h (fst (GraphObj.clear h st g)) (snd (GraphObj.clear h st g))
               dep (Some k) = Ok (st2, g2) ->
  GraphObj.names st2 g2 = GraphObj.names st g
  /\ exists r, Graph.get (view st2 g2) (name (h dep)) = Some r.
Proof.
  intros Hwf Hroot Hk Hlen Hadd.
  destruct (graphobj_clear_view h st g Hwf) as (_ & Hwf1 & [_ Hext] & Hd & _).
  pose proof (length_layers_after_clear h st g Hwf) as Hlen1.
  set (st1 := fst (GraphObj.clear h st g)) in *.
  set (g1 := snd (GraphObj.clear h st g)) in *.
  split.
  - unfold GraphObj.add in Hadd. rewrite Hroot in Hadd.
    unfold GraphObj.add_level in Hadd.
    destruct (Nat.ltb_spec k (length (GraphObj._layers g1))) as [_|Hge]; [|lia].
    destruct (GraphObj._layers g1 !! k) as [layer|] eqn:Hl; [|discriminate].
    pose proof (loc_after_clear h st g k layer Hwf Hk Hl) as Hloc.
    pose proof (layerobj_add_view h st1 layer dep) as Hv.
    destruct (LayerObj.add h st1 layer dep) as [st'|e]; simpl in Hadd; [|discriminate].
    injection Hadd as -> ->. destruct Hv as (_ & _ & Hsame).
    apply names_same; [exact Hd|]. intros l Hin.
    destruct Hwf as (_ & _ & Hdeps). rewrite Forall_forall in Hdeps.
    specialize (Hdeps l Hin). rewrite Hsame by lia. apply Hext, Hdeps.
  - pose proof (graphobj_add_view h st1 g1 dep (Some k) Hwf1) as Hsim.
    rewrite Hadd in Hsim. destruct Hsim as (Hsim & _).
    destruct (graph_add_stored _ _ _ _ _ Hsim) as (i & layer' & Hi & Hget & _).
    apply (graph_get_found _ _ layer' dep); [|exact Hget].
    apply list_elem_of_lookup. eauto.
Qed.

Lemma Aliased_add_after_clear_not_in_names_witness :
  match GraphObj.add sample (fst (GraphObj.clear sample sample_store sample_obj))
                     (snd (GraphObj.clear sample sample_store sample_obj)) 2 (Some 1) with
  | Ok (st2, g2) =>
      GraphObj.names st2 g2 = GraphObj.names sample_store sample_obj
      /\ exists r, Graph.get (view st2 g2) "b" = Some r
  | Raise _ => False
  end.
Proof.
  destruct (GraphObj.add sample (fst (GraphObj.clear sample sample_store sample_obj))
              (snd (GraphObj.clear sample sample_store sample_obj)) 2 (Some 1))
    as [[st2 g2]|e] eqn:E.
  - apply (Aliased_add_after_clear_not_in_names sample sample_store st2 sample_obj g2 2 1
             sample_store_wf eq_refl); [lia | simpl; lia | exact E].
  - vm_compute in E. discriminate.
Defined.

(** * Lookup after pruning *)

Lemma dict_get_filter_none {V} (f : string * V -> bool) n (m : PyDict.dict V) :
  PyDict.get n m = None -> PyDict.get n (List.filter f m) = None.
Proof.
  induction m as [|[k v] m IH]; simpl; [reflexivity|].
  destruct (String.eqb_spec n k) as [->|Hne]; [discriminate|].
  intros H. destruct (f (k, v)); simpl; [|auto].
  destruct (String.eqb_spec n k); [contradiction | auto].
Qed.

Lemma layer_clear_get h layer n :
  NoDup (PyDict.keys (Layer._mapping layer)) ->
  Layer.get (Layer.clear h layer) n
  = match Layer.get layer n with
    | Some r => if used (h r) then Some r else None
    | None => None
    end.
Proof.
  unfold Layer.get, Layer.clear. simpl.
  induction (Layer._mapping layer) as [|[k r] m IH]; simpl; intros Hnd; [reflexivity|].
  apply NoDup_cons in Hnd as [Hk Hnd].
  destruct (String.eqb_spec n k) as [->|Hne].
  - destruct (used (h r)); simpl; [rewrite String.eqb_refl; reflexivity|].
    apply dict_get_filter_none, dict_get_None, Hk.
  - destruct (used (h r)); simpl; [|auto].
    destruct (String.eqb_spec n k); [contradiction | auto].
Qed.

Lemma first_match_cleared h n (l : list Layer.t) :
  Forall (layer_wf h) l ->
  Graph.first_match n (map (Layer.clear h) l)
  = match Graph.first_match n l with
    | Some r => if used (h r) then Some r
                else Graph.first_match n (map (Layer.clear h) l)
    | None => None
    end.
Proof.
  induction 1 as [|x l [Hx _] _ IH]; simpl; [reflexivity|].
  rewrite (layer_clear_get h x n Hx).
  destruct (Layer.get x n) as [r|]; [|exact IH].
  destruct (used (h r)); reflexivity.
Qed.

(** X21. Pruning does not change what [get] returns for a name whose
    dependency is used, nor for a name that is in no layer. *)
Theorem Graph_clear_keeps_used_lookup (h : heap) (g : Graph.t) (n : string) :
  Forall (layer_wf h) (Graph._layers g) ->
  (forall r, Graph.get g n = Some r -> used (h r) = true ->
             Graph.get (Graph.clear h g) n = Some r)
  /\ (Graph.get g n = None -> Graph.get (Graph.clear h g) n = None).
Proof.
  intros Hwf. unfold Graph.get. rewrite graph_clear_layers.
  destruct (Graph._layers g) as [|x rest]; [split; auto|].
  apply Forall_cons in Hwf as [_ Hrest].
  assert (Hrev : Forall (layer_wf h) (rev rest)).
  { apply Forall_forall. intros y Hy. rewrite Forall_forall in Hrest.
    apply Hrest, list_elem_of_In, in_rev, list_elem_of_In, Hy. }
  cbn [rev]. rewrite <- map_rev, !first_match_app.
  pose proof (first_match_cleared h n (rev rest) Hrev) as Hc.
  destruct (Graph.first_match n (rev rest)) as [r0|].
  - split; [|discriminate]. intros r [= <-] Hu. rewrite Hu in Hc. rewrite Hc. reflexivity.
  - rewrite Hc. split; auto.
Qed.

Lemma Graph_clear_keeps_used_lookup_witness :
  Graph.get
    (Graph.clear sample
       {| Graph._roots := [0];
          Graph._layers := [ {| Layer.level := 0; Layer._mapping := [("app", 0)] |};
                             {| Layer.level := 1;
                                Layer._mapping := [("a", 1); ("c", 3)] |} ];
          Graph.conflict := None |}) "a" = Some 1.
Proof.
  apply (Graph_clear_keeps_used_lookup sample); [|reflexivity|reflexivity].
  repeat constructor; simpl; try (apply (bool_decide_unpack _); vm_compute; exact I).
Defined.
